(** * example_pet_strongly_convex: step-size calibration, run harness and
      post-processing of the SPDHG comparison script

    The development embeds [src/example_pet_strongly_convex.py], from the
    strong-convexity constants of line 135 to the clamping of line 359,
    and the figures of lines 361-475 as far as their data goes.

    - Scalars of the script are IEEE binary64 numbers (NumPy [float64]);
      they are Rocq's primitive floats.  The step-size formulas are written
      once, over an interface of scalar operations; what the calibration
      returns is stated in binary64, and exact real arithmetic is only the
      reference against which the sum of the selection probabilities is
      read.
    - The script is a sequence of statements on global state: the files of
      the cache folder, the random source of NumPy and the module-level
      variables.  It is embedded in a state and exception monad over a record
      of these.
    - ODL, NumPy's random source, the repository's [misc] helpers and one
      iteration of each stochastic solver are collaborators, gathered in a
      class; a small instance of it runs the definitions on concrete
      inputs. *)

From Stdlib Require Import ZArith List String Floats Uint63 Reals Lra Lia Bool
  Sorted.
From stdpp Require Import base option list gmap strings.

Close Scope R_scope.
Local Open Scope string_scope.
Local Open Scope list_scope.
Local Open Scope nat_scope.

(** ** Python exceptions and the error monad *)

Inductive exn : Set :=
| ValueError | IndexError | KeyError | NameError | ZeroDivisionError
| AssertionError | IOError.

Inductive py (A : Type) : Type :=
| Ret (a : A)
| Raise (e : exn).
Arguments Ret {A} a.
Arguments Raise {A} e.

#[global] Instance py_ret : MRet py := @Ret.
#[global] Instance py_bind : MBind py := λ A B f m,
  match m with Ret a => f a | Raise e => Raise e end.

Definition returns {A} (m : py A) : Prop := ∃ a, m = Ret a.

(** [l[i]] on a Python list or a NumPy array. *)
Definition py_index {A} (l : list A) (i : nat) : py A :=
  match l !! i with Some a => Ret a | None => Raise IndexError end.

(** A Python value as far as the script's step-size variables need it:
    [None], a number, or a list of numbers.  [PUnbound] stands for a name
    that has not been assigned yet. *)
Inductive pyval (T : Type) : Type :=
| PUnbound
| PNone
| PNum (x : T)
| PList (l : list T).
Arguments PUnbound {T}.
Arguments PNone {T}.
Arguments PNum {T} x.
Arguments PList {T} l.

(** ** Scalar arithmetic

    The operations the calibration formulas use.  [sc_int] is the conversion
    of a Python [int] that meets a float operand, [sc_lt] is [<]. *)

Class Scalar (T : Type) : Type := {
  sc_add : T → T → T;
  sc_sub : T → T → T;
  sc_mul : T → T → T;
  sc_div : T → T → T;
  sc_sqrt : T → T;
  sc_int : Z → T;
  sc_lt : T → T → bool
}.

Declare Scope sc_scope.
Delimit Scope sc_scope with sc.
Infix "+" := sc_add : sc_scope.
Infix "-" := sc_sub : sc_scope.
Infix "*" := sc_mul : sc_scope.
Infix "/" := sc_div : sc_scope.

(** NumPy [float64]: every operation is the IEEE one and never traps;
    a division by zero gives an infinity or a NaN (with a warning only). *)
#[global] Instance float64 : Scalar float := {
  sc_add := PrimFloat.add;
  sc_sub := PrimFloat.sub;
  sc_mul := PrimFloat.mul;
  sc_div := PrimFloat.div;
  sc_sqrt := PrimFloat.sqrt;
  sc_int := λ z, PrimFloat.of_uint63 (Uint63.of_Z z);
  sc_lt := PrimFloat.ltb
}.

(** Exact arithmetic on the reals.  It is not the arithmetic of the script:
    it is the reference against which the binary64 sum of the selection
    probabilities is read. *)
#[global] Instance exact : Scalar R := {
  sc_add := Rplus;
  sc_sub := Rminus;
  sc_mul := Rmult;
  sc_div := Rdiv;
  sc_sqrt := R_sqrt.sqrt;
  sc_int := IZR;
  sc_lt := λ a b, if Rlt_dec a b then true else false
}.

Section Calibrator.
Context {T : Type} `{Scalar T}.
Local Open Scope sc_scope.

(** [x**2] *)
Definition sqr (x : T) : T := x * x.

(** [np.sqrt(1 + normA**2 / (mu_g * mu) / rho**2)] *)
Definition kappa_of (rho mu_g normAi mui : T) : T :=
  sc_sqrt (sc_int 1 + sqr normAi / (mu_g * mui) / sqr rho).

(** Python's [max] on a list: the running maximum is replaced when an item
    compares greater. *)
Fixpoint py_max_from (cur : T) (l : list T) : T :=
  match l with
  | [] => cur
  | x :: l' => py_max_from (if sc_lt cur x then x else cur) l'
  end.

Definition py_max (l : list T) : py T :=
  match l with
  | [] => Raise ValueError
  | x :: l' => Ret (py_max_from x l')
  end.

(** [zip(normA, mu_i)]: stops with the shorter list. *)
Fixpoint py_zip {A B} (l1 : list A) (l2 : list B) : list (A * B) :=
  match l1, l2 with
  | a :: l1', b :: l2' => (a, b) :: py_zip l1' l2'
  | _, _ => []
  end.

(** [1 / n] for a Python int [n] (true division is in force). *)
Definition one_over (n : nat) : py T :=
  match n with
  | O => Raise ZeroDivisionError
  | S _ => Ret (sc_int 1 / sc_int (Z.of_nat n))
  end.

(** Python's [sum] on a list. *)
Definition py_sum (l : list T) : T := fold_left sc_add l (sc_int 0).

(** The module-level variables the parameter selection assigns. *)
Record env : Type := Env {
  prob : pyval T;
  sigma : pyval T;
  tau : pyval T;
  theta : pyval T;
  kappa : pyval T;
  kappa_max : pyval T;
  prob_subset : pyval T
}.

(** The variables before anything has been assigned. *)
Definition unbound_env : env :=
  {| prob := PUnbound; sigma := PUnbound; tau := PUnbound;
     theta := PUnbound; kappa := PUnbound; kappa_max := PUnbound;
     prob_subset := PUnbound |}.

(** [prob, sigma, tau, theta = [None] * 4] (line 240). *)
Definition clear_variables (e : env) : env :=
  {| prob := PNone; sigma := PNone; tau := PNone; theta := PNone;
     kappa := kappa e; kappa_max := kappa_max e;
     prob_subset := prob_subset e |}.

(** Lines 153-156: the step sizes of the target computation (scalars). *)
Definition target_step_sizes (rho mu_f mu_g : T) (normA : list T)
  : py (T * T * T * T) :=
  normA0 ← py_index normA 0;
  let kappa := kappa_of rho mu_g normA0 mu_f in
  let sigma := sc_int 1 / ((kappa - sc_int 1) * mu_f) in
  let tau := sc_int 1 / ((kappa - sc_int 1) * mu_g) in
  let theta := sc_int 1 - sc_int 2 / (sc_int 1 + kappa) in
  Ret (kappa, sigma, tau, theta).

(** Lines 265-271: [alg == 'pdhg']. *)
Definition choose_pdhg (rho mu_f mu_g : T) (Y_size : nat) (normA : list T)
    (e : env) : py env :=
  normA0 ← py_index normA 0;
  let kappa := kappa_of rho mu_g normA0 mu_f in
  Ret {| kappa := PNum kappa;
         prob_subset := PList [sc_int 1];
         prob := PList (replicate Y_size (sc_int 1));
         sigma := PList (replicate Y_size
                           (sc_int 1 / ((kappa - sc_int 1) * mu_f)));
         tau := PNum (sc_int 1 / ((kappa - sc_int 1) * mu_g));
         theta := PNum (sc_int 1 - sc_int 2 / (sc_int 1 + kappa));
         kappa_max := kappa_max e |}.

(** Lines 273-281: [alg.startswith('spdhg')]. *)
Definition choose_spdhg (rho mu_g : T) (mu_i : list T) (n Y_size : nat)
    (normA : list T) (e : env) : py env :=
  let kappa := map (λ '(normAi, mui), kappa_of rho mu_g normAi mui)
                   (py_zip normA mu_i) in
  kappa_max ← py_max kappa;
  p ← one_over n;
  let nn := sc_int (Z.of_nat n) in
  Ret {| kappa := PList kappa;
         kappa_max := PNum kappa_max;
         prob_subset := PList (replicate n p);
         prob := PList (replicate Y_size p);
         sigma := PList (map (λ mui, sc_int 1 / ((kappa_max - sc_int 1) * mui))
                             mu_i);
         tau := PNum (sc_int 1 / ((nn * kappa_max + nn - sc_int 2) * mu_g));
         theta := PNum (sc_int 1 - sc_int 2 / (nn + nn * kappa_max)) |}.

(** Lines 283-287: [alg.startswith('pesquet')]; [theta] is not assigned. *)
Definition choose_pesquet (rho : T) (n Y_size : nat) (normA : list T)
    (e : env) : py env :=
  p ← one_over n;
  normA0 ← py_index normA 0;
  Ret {| prob_subset := PList (replicate n p);
         prob := PList (replicate Y_size p);
         sigma := PList (replicate Y_size (rho / normA0));
         tau := PNum (rho / normA0);
         theta := theta e;
         kappa := kappa e;
         kappa_max := kappa_max e |}.

(** Lines 264-290: the dispatch on the algorithm name. *)
Definition choose_parameters (rho mu_f mu_g : T) (mu_i : list T)
    (alg : string) (n Y_size : nat) (normA : list T) (e : env) : py env :=
  if String.eqb alg "pdhg" then choose_pdhg rho mu_f mu_g Y_size normA e
  else if String.prefix "spdhg" alg
       then choose_spdhg rho mu_g mu_i n Y_size normA e
  else if String.prefix "pesquet" alg
       then choose_pesquet rho n Y_size normA e
  else Raise AssertionError.

End Calibrator.
Arguments env T : clear implicits.

(** The constants of the script. *)
Definition rho : float := 0x1.fae147ae147aep-1%float.   (* 0.99 *)
Definition tol_norm : float := 0x1.0cccccccccccdp+0%float.  (* 1.05 *)
Definition nepoch : nat := 100.
Definition niter_target : nat := 2000.
Definition seed_value : Z := 1807.

(** ** Dictionaries with insertion order *)

Definition dict (V : Type) : Type := list (string * V).

Fixpoint dict_get {V} (d : dict V) (k : string) : py V :=
  match d with
  | [] => Raise KeyError
  | (k', v) :: d' => if String.eqb k' k then Ret v else dict_get d' k
  end.

(** [d[k] = v]: replaces the value of an existing key in place, appends a
    new key at the end. *)
Fixpoint dict_set {V} (d : dict V) (k : string) (v : V) : dict V :=
  match d with
  | [] => [(k, v)]
  | (k', v') :: d' =>
      if String.eqb k' k then (k', v) :: d' else (k', v') :: dict_set d' k v
  end.

Definition dict_keys {V} (d : dict V) : list string := map fst d.

(** A [for] loop over a list whose body may raise. *)
Fixpoint for_each {A S} (l : list A) (body : A → S → py S) (s : S) : py S :=
  match l with
  | [] => Ret s
  | a :: l' => s' ← body a s; for_each l' body s'
  end.

(** [range(0, stop, step)]. *)
Definition py_range (stop step : nat) : py (list nat) :=
  match step with
  | O => Raise ValueError
  | S _ => Ret (map (λ i, i * step) (seq 0 ((stop + step - 1) / step)))
  end.

(** Lines 224-225. *)
Definition nsub : dict nat :=
  [("pdhg", 1); ("spdhg_uni10", 10); ("spdhg_uni50", 50);
   ("pesquet_uni10", 10); ("pesquet_uni50", 50)].

(** Lines 235-236 and 324. *)
Definition algs : list string :=
  ["pdhg"; "spdhg_uni10"; "spdhg_uni50"; "pesquet_uni10"; "pesquet_uni50"].

(** Lines 230-231: [niter[alg]] and [iter_save[alg]]. *)
Definition niter_of (n : nat) : nat := nepoch * n.
Definition iter_save_of (n : nat) : py (list nat) :=
  py_range (niter_of n + 1) n.

(** [np.min] of a list of floats: a NaN wins, otherwise the least item. *)
Definition np_minimum (a b : float) : float :=
  if PrimFloat.is_nan a then a
  else if PrimFloat.is_nan b then b
  else if PrimFloat.ltb b a then b else a.

Definition np_min (l : list float) : py float :=
  match l with
  | [] => Raise ValueError
  | x :: l' => Ret (fold_left np_minimum l' x)
  end.

(** One stored measurement (lines 213-214), as the dict the callback
    appends. *)
Record sample : Set := Sample {
  s_obj : float; s_dist : float; s_dist_x : float; s_dist_y : float
}.

Definition sample_dict (s : sample) : dict float :=
  [("obj", s_obj s); ("dist", s_dist s);
   ("dist_x", s_dist_x s); ("dist_y", s_dist_y s)].

(** ** External collaborators

    What the script takes from ODL, NumPy and the repository's [misc] and
    solver modules: spaces, the operator, norm estimation (which draws from
    the global random source), the partition helper, the functionals, the
    reference PDHG solver, and one iteration of each stochastic solver. *)

Class Collaborators : Type := {
  X : Type;
  Y : Type;
  X_zero : X;
  Y_zero : Y;
  Y_size : nat;                                     (* Y.size = len(A) *)
  rng : Type;                                       (* np.random state *)
  np_random_seed : Z → rng;
  np_random_choice : nat → list float → rng → nat * rng;
  A_norm_estimate : rng → float * rng;              (* A.norm(estimate=True) *)
  subset_norm_estimate : list nat → rng → float * rng;
  sub2ind_of : nat → nat → list (list nat);         (* divide_1Darray_equally *)
  A_apply : X → Y;
  A_adjoint : Y → X;
  X_neg : X → X;
  obj_fun : X → float;
  sqnorm_translated_X : X → X → float;   (* L2NormSquared(X).translated(c)(x) *)
  sqnorm_translated_Y : Y → Y → float;
  odl_pdhg : nat → float → float → float → X → Y → X * Y;
  mu_i : list float;
  mu_g : float;
  solver_state : Type;
  solver_init : X → Y → solver_state;
  solver_xy : solver_state → X * Y;
  spdhg_iteration :
    pyval float → pyval float → pyval float → pyval float →
    list nat → solver_state → solver_state;
  pesquet_iteration :
    pyval float → pyval float → list nat → solver_state → solver_state;
  numpy_scalars : bool;  (* functional values are NumPy scalars, not floats *)
  (* np.random.choice(n, 1, p) draws an index below n *)
  choice_in_range : ∀ n p g, 0 < n → (np_random_choice n p g).1 < n;
  (* the partition helper returns n subsets *)
  sub2ind_length : ∀ len n, length (sub2ind_of len n) = n
}.

Section Harness.
Context `{Collaborators}.

(** The saddle-point bundle of [target.npy]. *)
Record target : Type := Target {
  x_opt : X; y_opt : Y; subx_opt : X; suby_opt : Y; obj_opt : float
}.

(** The per-run bundle of [<alg>_output.npy] (lines 319-321). *)
Record bundle : Type := Bundle {
  b_iter_save : list nat;
  b_niter : nat;
  b_x : X;
  b_out : list (dict float);
  b_nsub : nat;
  b_theta : pyval float
}.

(** The cache folder: norm files keyed by the subset count in their name,
    the target file, the output files keyed by algorithm name. *)
Record files : Type := Files {
  norms : gmap nat (list float);
  target_file : option target;
  outputs : gmap string bundle
}.

(** The state of the running script: the files, the global random source
    and the module-level variables. *)
Record world : Type := World {
  fs : files;
  gen : rng;
  vars : env float;
  file_normA : option nat;
  saddle : option target
}.

Definition prog (A : Type) : Type := world → py (A * world).

#[global] Instance prog_ret : MRet prog := λ A a w, Ret (a, w).
#[global] Instance prog_bind : MBind prog := λ A B f m w,
  match m w with Ret (a, w') => f a w' | Raise e => Raise e end.

Definition lift {A} (m : py A) : prog A := λ w,
  match m with Ret a => Ret (a, w) | Raise e => Raise e end.

(** Assignment to one component of the state. *)
Definition put_fs (f : files) (w : world) : world :=
  {| fs := f; gen := gen w; vars := vars w; file_normA := file_normA w;
     saddle := saddle w |}.
Definition put_gen (g : rng) (w : world) : world :=
  {| fs := fs w; gen := g; vars := vars w; file_normA := file_normA w;
     saddle := saddle w |}.
Definition put_vars (e : env float) (w : world) : world :=
  {| fs := fs w; gen := gen w; vars := e; file_normA := file_normA w;
     saddle := saddle w |}.
Definition put_file_normA (k : nat) (w : world) : world :=
  {| fs := fs w; gen := gen w; vars := vars w; file_normA := Some k;
     saddle := saddle w |}.
Definition put_saddle (t : target) (w : world) : world :=
  {| fs := fs w; gen := gen w; vars := vars w; file_normA := file_normA w;
     saddle := Some t |}.

Definition get_vars : prog (env float) := λ w, Ret (vars w, w).
Definition set_vars (e : env float) : prog unit := λ w, Ret (tt, put_vars e w).
Definition set_file_normA (k : nat) : prog unit := λ w,
  Ret (tt, put_file_normA k w).
Definition get_file_normA : prog nat := λ w,
  match file_normA w with Some k => Ret (k, w) | None => Raise NameError end.
Definition set_saddle (t : target) : prog unit := λ w,
  Ret (tt, put_saddle t w).
Definition get_saddle : prog target := λ w,
  match saddle w with Some t => Ret (t, w) | None => Raise NameError end.

(** [np.random.seed(z)] *)
Definition random_seed (z : Z) : prog unit := λ w,
  Ret (tt, put_gen (np_random_seed z) w).

(** An action on the random source alone. *)
Definition with_rng {A} (f : rng → A * rng) : prog A := λ w,
  let '(a, g) := f (gen w) in Ret (a, put_gen g w).

Definition set_fs (f : files) : prog unit := λ w, Ret (tt, put_fs f w).
Definition get_fs : prog files := λ w, Ret (fs w, w).

(** [np.save(file_normA, normA)] and [np.load(file_normA)]. *)
Definition save_norms (k : nat) (normA : list float) : prog unit :=
  f ← get_fs;
  set_fs {| norms := <[k := normA]> (norms f);
            target_file := target_file f; outputs := outputs f |}.

Definition load_norms (k : nat) : prog (option (list float)) :=
  f ← get_fs; mret (norms f !! k).

Definition save_target (t : target) : prog unit :=
  f ← get_fs;
  set_fs {| norms := norms f; target_file := Some t;
            outputs := outputs f |}.

Definition save_output (alg : string) (b : bundle) : prog unit :=
  f ← get_fs;
  set_fs {| norms := norms f; target_file := target_file f;
            outputs := <[alg := b]> (outputs f) |}.

(** [[tol_norm * Ai.norm(estimate=True) for Ai in A_subsets]]: every
    estimate draws from the random source. *)
Fixpoint norms_from (subsets : list (list nat)) (g : rng)
  : list float * rng :=
  match subsets with
  | [] => ([], g)
  | s :: rest =>
      let '(v, g1) := subset_norm_estimate s g in
      let '(vs, g2) := norms_from rest g1 in
      (PrimFloat.mul tol_norm v :: vs, g2)
  end.

Definition estimate_norms (subsets : list (list nat)) : prog (list float) :=
  with_rng (norms_from subsets).

(** Lines 140-188: compute the saddle point, or load it.  [mu_f] is the
    module-level [np.min(mu_i)]. *)
Definition target_stage (mu_f : float) : prog unit :=
  f ← get_fs;
  match target_file f with
  | None =>
      set_file_normA 1;;
      cached ← load_norms 1;
      normA ← match cached with
              | None =>
                  v ← with_rng A_norm_estimate;
                  let normA := [PrimFloat.mul tol_norm v] in
                  save_norms 1 normA;; mret normA
              | Some normA => mret normA
              end;
      '(kappa, sigma, tau, theta) ←
          lift (target_step_sizes rho mu_f mu_g normA);
      e ← get_vars;
      set_vars {| kappa := PNum kappa; sigma := PNum sigma;
                  tau := PNum tau; theta := PNum theta;
                  prob := prob e; kappa_max := kappa_max e;
                  prob_subset := prob_subset e |};;
      let '(x, y) := odl_pdhg niter_target tau sigma theta X_zero Y_zero in
      let t := {| x_opt := x; y_opt := y;
                  subx_opt := X_neg (A_adjoint y);
                  suby_opt := A_apply x;
                  obj_opt := obj_fun x |} in
      set_saddle t;;
      save_target t
  | Some t => set_saddle t
  end.

(** Lines 195-220: [CallbackStore]; [dist_x] and [dist_y] are the
    functionals of lines 191-192.  The image written for the iterations
    in [iter_plot] goes to the plotting sink and is left out. *)
Record callback_store : Type := CallbackStore {
  cb_iter : nat;
  cb_out : list (dict float)
}.

Definition dist_x (t : target) (x : X) : float :=
  PrimFloat.mul 0.5 (sqnorm_translated_X (x_opt t) x).
Definition dist_y (t : target) (y : Y) : float :=
  PrimFloat.mul 0.5 (sqnorm_translated_Y (y_opt t) y).

Definition measure (t : target) (x : X) (y : Y) : sample :=
  let obj := obj_fun x in
  let dx := dist_x t x in
  let dy := dist_y t y in
  let d := PrimFloat.add dx dy in
  {| s_obj := obj; s_dist := d; s_dist_x := dx; s_dist_y := dy |}.

Definition callback_call (t : target) (iter_save : list nat)
    (x : X) (y : Y) (c : callback_store) : callback_store :=
  {| cb_out := if bool_decide (cb_iter c ∈ iter_save)
               then cb_out c ++ [sample_dict (measure t x y)]
               else cb_out c;
     cb_iter := S (cb_iter c) |}.

(** Lines 293-294: [fun_select]; the index drawn is returned together
    with the subset it names. *)
Definition fun_select (n : nat) (sub2ind : list (list nat)) (k : nat)
  : prog (nat * list nat) :=
  e ← get_vars;
  match prob_subset e with
  | PList p =>
      j ← with_rng (np_random_choice n p);
      blocks ← lift (py_index sub2ind j);
      mret (j, blocks)
  | _ => lift (Raise ValueError)
  end.

(** Modelled from the spec: the iteration loop of [spdhg] and
    [spdhg_pesquet], whose module is not among the sources.  Section 4.4
    gives it a fixed budget of iterations; iteration [k] asks the sampler
    for the active blocks, performs one update of the iterate with them,
    and hands the iterate to the measurement callback.  The indices drawn
    are collected in [log]. *)
Fixpoint solver_loop (step : list nat → solver_state → solver_state)
    (select : nat → prog (nat * list nat))
    (cb : X → Y → callback_store → callback_store)
    (budget k : nat) (s : solver_state) (c : callback_store)
    (log : list nat) : prog (solver_state * callback_store * list nat) :=
  match budget with
  | O => mret (s, c, log)
  | S budget' =>
      '(j, blocks) ← select k;
      let s' := step blocks s in
      let '(x, y) := solver_xy s' in
      solver_loop step select cb budget' (S k) s' (cb x y c) (log ++ [j])
  end.

(** The loop above as a function of the random source alone, for a fixed
    probability vector [p]; [solver_loop] is shown below to compute it. *)
Fixpoint solver_loop_on (step : list nat → solver_state → solver_state)
    (n : nat) (p : list float) (sub2ind : list (list nat))
    (cb : X → Y → callback_store → callback_store)
    (budget k : nat) (s : solver_state) (c : callback_store)
    (log : list nat) (g : rng)
  : py (solver_state * callback_store * list nat * rng) :=
  match budget with
  | O => Ret (s, c, log, g)
  | S budget' =>
      let '(j, g') := np_random_choice n p g in
      blocks ← py_index sub2ind j;
      let s' := step blocks s in
      let '(x, y) := solver_xy s' in
      solver_loop_on step n p sub2ind cb budget' (S k) s' (cb x y c)
                     (log ++ [j]) g'
  end.

(** The indices that [budget] successive calls of
    [np.random.choice(n, 1, p)] draw from the source [g]. *)
Fixpoint draws (n : nat) (p : list float) (budget : nat) (g : rng)
  : list nat :=
  match budget with
  | O => []
  | S budget' =>
      let '(j, g') := np_random_choice n p g in j :: draws n p budget' g'
  end.

(** Lines 249-253: which norm file the run uses. *)
Definition select_norm_file (alg : string) (n : nat) : prog unit :=
  if String.eqb alg "pdhg" || String.eqb (substring 0 5 alg) "spdhg"
  then set_file_normA n
  else if String.eqb (substring 0 7 alg) "pesquet"
       then set_file_normA 1
       else mret tt.

(** Lines 255-262: the norms of the run, computed and cached or loaded. *)
Definition norms_of_run (sub2ind : list (list nat)) : prog (list float) :=
  k ← get_file_normA;
  cached ← load_norms k;
  match cached with
  | None =>
      normA ← estimate_norms sub2ind;
      save_norms k normA;; mret normA
  | Some normA => mret normA
  end.

(** What [norms_of_run] computes for the norm file of key [k], as a function
    of the files and the random source. *)
Definition norms_with_cache (k : nat) (sub2ind : list (list nat))
    (f : files) (g : rng) : list float * rng * files :=
  match norms f !! k with
  | Some normA => (normA, g, f)
  | None =>
      let '(normA, g') := norms_from sub2ind g in
      (normA, g',
       {| norms := <[k := normA]> (norms f); target_file := target_file f;
          outputs := outputs f |})
  end.

(** The key of the norm file that [select_norm_file] picks for the five
    algorithms of the script. *)
Definition norm_key (alg : string) (n : nat) : nat :=
  if String.prefix "pesquet" alg then 1 else n.

(** Every norm file of the folder holds at least one norm. *)
Definition caches_nonempty (f : files) : Prop :=
  ∀ k normA, norms f !! k = Some normA → normA ≠ [].

(** The variables that a run reads. *)
Definition same_parameters (e e' : env float) : Prop :=
  prob e = prob e' ∧ sigma e = sigma e' ∧ tau e = tau e'
  ∧ theta e = theta e' ∧ prob_subset e = prob_subset e'.

(** Lines 308-317: which solver runs. *)
Definition select_solver (alg : string) (e : env float)
  : py (list nat → solver_state → solver_state) :=
  if String.prefix "pdhg" alg || String.prefix "spdhg" alg
  then Ret (spdhg_iteration (tau e) (sigma e) (prob e) (theta e))
  else if String.prefix "pesquet" alg
       then Ret (pesquet_iteration (tau e) (sigma e))
       else Raise AssertionError.

(** Lines 239-290: the first half of one pass of the loop over the
    algorithms, up to the choice of the parameters. *)
Definition configure_run (mu_f : float) (alg : string)
  : prog (nat * list (list nat)) :=
  e0 ← get_vars;
  set_vars (clear_variables e0);;
  n ← lift (dict_get nsub alg);
  let sub2ind := sub2ind_of Y_size n in
  random_seed seed_value;;
  select_norm_file alg n;;
  normA ← norms_of_run sub2ind;
  e1 ← get_vars;
  e2 ← lift (choose_parameters rho mu_f mu_g mu_i alg n Y_size normA e1);
  set_vars e2;;
  mret (n, sub2ind).

(** Lines 292-321: the second half, the run itself and the saving of its
    bundle.  The value returned is the sequence of subset indices the run
    selected. *)
Definition solve_run (alg : string) (n : nat) (sub2ind : list (list nat))
  : prog (list nat) :=
  t ← get_saddle;
  iter_save ← lift (iter_save_of n);
  let cb := callback_call t iter_save in
  let c0 := cb X_zero Y_zero {| cb_iter := 0; cb_out := [] |} in
  e ← get_vars;
  step ← lift (select_solver alg e);
  '(s, c, log) ← solver_loop step (fun_select n sub2ind) cb
                   (niter_of n) 0 (solver_init X_zero Y_zero) c0 [];
  e' ← get_vars;
  save_output alg {| b_iter_save := iter_save; b_niter := niter_of n;
                     b_x := fst (solver_xy s); b_out := cb_out c;
                     b_nsub := n; b_theta := theta e' |};;
  mret log.

(** Lines 237-321: one pass of the loop over the algorithms. *)
Definition run_alg (mu_f : float) (alg : string) : prog (list nat) :=
  '(n, sub2ind) ← configure_run mu_f alg;
  solve_run alg n sub2ind.

(** The loop of lines 235-321 over a list of algorithm names. *)
Fixpoint run_algs (mu_f : float) (l : list string)
  : prog (list (list nat)) :=
  match l with
  | [] => mret []
  | alg :: l' =>
      log ← run_alg mu_f alg;
      logs ← run_algs mu_f l';
      mret (log :: logs)
  end.

(** ** Post-processing (lines 324-359) *)

(** [a / b] on two functional values.  ODL hands them over as NumPy scalars
    or as Python floats, depending on the functional: the division of NumPy
    scalars never raises, that of Python floats raises on a zero divisor. *)
Definition true_divide (a b : float) : py float :=
  if numpy_scalars then Ret (PrimFloat.div a b)
  else if PrimFloat.eqb b 0 then Raise ZeroDivisionError
       else Ret (PrimFloat.div a b).

(** [arr = np.nan * np.ones(K)] followed by [arr[k] = item(k)] for
    [k in range(K)]. *)
Definition fill (K : nat) (item : nat → py float) : py (list float) :=
  for_each (seq 0 K)
           (λ k arr, v ← item k; Ret (<[k := v]> arr))
           (replicate K nan).

(** Lines 337-353 for one algorithm: the value of [K] and
    [out_resorted[a]]. *)
Definition resort_alg (obj_star : float) (b : bundle)
  : py (nat * dict (list float)) :=
  let K := length (b_iter_save b) in
  let out := b_out b in
  first ← py_index out 0;
  d ← for_each (dict_keys first)
        (λ meas d,
           arr ← fill K (λ k, r ← py_index out k; dict_get r meas);
           Ret (dict_set d meas arr))
        [];
  rel ← fill K (λ k,
           rk ← py_index out k;
           objk ← dict_get rk "obj";
           r0 ← py_index out 0;
           obj0 ← dict_get r0 "obj";
           true_divide (PrimFloat.sub objk obj_star)
                       (PrimFloat.sub obj0 obj_star));
  Ret (K, dict_set d "obj_rel" rel).

(** Lines 334-353: the loop over [algs]; [K] keeps the value of the last
    pass. *)
Definition resort_all (obj_star : float) (loaded : dict bundle)
  : py (nat * dict (dict (list float))) :=
  for_each algs
    (λ a '(_, res),
       b ← dict_get loaded a;
       '(K, d) ← resort_alg obj_star b;
       Ret (K, dict_set res a d))
    (0, []).

(** Lines 358-359. *)
Definition clamp (v : float) : float :=
  if PrimFloat.leb v 0 then nan else v.

(** Lines 357-359 for one array. *)
Definition clamp_array (K : nat) (arr : list float) : py (list float) :=
  for_each (seq 0 K)
    (λ k arr,
       v ← py_index arr k;
       Ret (if PrimFloat.leb v 0 then <[k := nan]> arr else arr))
    arr.

(** Lines 356-359 for one algorithm. *)
Definition clamp_measures (K : nat) (d : dict (list float))
  : py (dict (list float)) :=
  for_each (dict_keys d)
    (λ meas d,
       arr ← dict_get d meas;
       arr' ← clamp_array K arr;
       Ret (dict_set d meas arr'))
    d.

(** Lines 355-359. *)
Definition clamp_all (K : nat) (res : dict (dict (list float)))
  : py (dict (dict (list float))) :=
  for_each algs
    (λ a res,
       d ← dict_get res a;
       d' ← clamp_measures K d;
       Ret (dict_set res a d'))
    res.

(** The first objective value of a trace. *)
Definition first_obj (samples : list sample) : float :=
  match samples with s0 :: _ => s_obj s0 | [] => nan end.

(** The contents of [out_resorted[a]] after line 353 for a trace of stored
    measurements, in closed form. *)
Definition resorted (obj_star : float) (samples : list sample)
  : dict (list float) :=
  [("obj", map s_obj samples);
   ("dist", map s_dist samples);
   ("dist_x", map s_dist_x samples);
   ("dist_y", map s_dist_y samples);
   ("obj_rel",
    map (λ s, PrimFloat.div (PrimFloat.sub (s_obj s) obj_star)
                            (PrimFloat.sub (first_obj samples) obj_star))
        samples)].

(** The values of a dict of arrays clamped entry by entry. *)
Definition clamped (d : dict (list float)) : dict (list float) :=
  map (λ '(meas, arr), (meas, map clamp arr)) d.

(** Lines 334-359 on the bundles read back. *)
Definition post_process (obj_star : float) (loaded : dict bundle)
  : py (dict (dict (list float))) :=
  '(K, res) ← resort_all obj_star loaded;
  clamp_all K res.

(** The bundles of the five algorithms hold traces of [K] measurements each,
    for [K] recorded iterations. *)
Definition traces_loaded (loaded : dict bundle)
    (trace : string → list sample) (K : nat) : Prop :=
  ∀ a, a ∈ algs →
    ∃ b, dict_get loaded a = Ret b
         ∧ b_out b = map sample_dict (trace a)
         ∧ length (trace a) = K
         ∧ length (b_iter_save b) = K.

(** The relative objective error is defined: the values are NumPy scalars,
    or no first objective equals the objective of the saddle point. *)
Definition ratios_defined (obj_star : float) (trace : string → list sample)
  : Prop :=
  numpy_scalars = true
  ∨ ∀ a, a ∈ algs →
      PrimFloat.eqb (PrimFloat.sub (first_obj (trace a)) obj_star) 0 = false.

(** The bundle of algorithm [a] is in the folder, with a trace of
    [nepoch + 1] measurements that starts with the one taken at zero. *)
Definition bundle_in_place (t : target) (f : files) (a : string) : Prop :=
  ∃ b ss,
    outputs f !! a = Some b
    ∧ b_out b = map sample_dict (measure t X_zero Y_zero :: ss)
    ∧ length (measure t X_zero Y_zero :: ss) = nepoch + 1
    ∧ length (b_iter_save b) = nepoch + 1.

(** Lines 326-330: the bundles read back. *)
Definition load_outputs (f : files) : py (dict bundle) :=
  for_each algs
    (λ a acc,
       match outputs f !! a with
       | Some b => Ret (dict_set acc a b)
       | None => Raise IOError
       end)
    [].

(** Lines 324-359. *)
Definition analyse : prog (dict (dict (list float))) :=
  f ← get_fs;
  t ← get_saddle;
  loaded ← lift (load_outputs f);
  lift (post_process (obj_opt t) loaded).

(** The script from line 135 to line 359. *)
Definition experiment : prog (list (list nat) * dict (dict (list float))) :=
  mu_f ← lift (np_min mu_i);
  target_stage mu_f;;
  logs ← run_algs mu_f algs;
  res ← analyse;
  mret (logs, res).

End Harness.

(** ** A small instance of the collaborators

    A one-dimensional primal space and two dual blocks, with a linear
    congruential generator as random source.  It serves to run the
    definitions on concrete inputs. *)
Module Toy.

Definition lcg (g : nat) : nat := (g * 7 + 3) mod 251.

Definition choice (n : nat) (p : list float) (g : nat) : nat * nat :=
  (lcg g mod n, lcg g).

Definition sub2ind (len n : nat) : list (list nat) :=
  map (λ j, [j mod len]) (seq 0 n).

Definition sq (x : float) : float := PrimFloat.mul x x.

Definition sqdist_Y (c y : float * float) : float :=
  PrimFloat.add (sq (PrimFloat.sub y.1 c.1)) (sq (PrimFloat.sub y.2 c.2)).

Definition halve (blocks : list nat) (s : float * (float * float))
  : float * (float * float) :=
  (PrimFloat.add (PrimFloat.mul 0.5 s.1) 0.5, s.2).

#[export] Instance collaborators : Collaborators := {|
  X := float;
  Y := float * float;
  X_zero := 0%float;
  Y_zero := (0%float, 0%float);
  Y_size := 2;
  rng := nat;
  np_random_seed := Z.to_nat;
  np_random_choice := choice;
  A_norm_estimate := λ g, (2%float, lcg g);
  subset_norm_estimate := λ s g, (1.5%float, lcg g);
  sub2ind_of := sub2ind;
  A_apply := λ x, (x, x);
  A_adjoint := λ y, PrimFloat.add y.1 y.2;
  X_neg := PrimFloat.opp;
  obj_fun := λ x, PrimFloat.add (sq (PrimFloat.sub x 1)) 3;
  sqnorm_translated_X := λ c x, sq (PrimFloat.sub x c);
  sqnorm_translated_Y := sqdist_Y;
  odl_pdhg := λ niter tau sigma theta x y, (1%float, (0.5%float, 0.5%float));
  mu_i := [1%float; 1%float];
  mu_g := 1%float;
  solver_state := float * (float * float);
  solver_init := λ x y, (x, y);
  solver_xy := λ s, s;
  spdhg_iteration := λ tau sigma prob theta, halve;
  pesquet_iteration := λ tau sigma, halve;
  numpy_scalars := false;
  choice_in_range := λ n p g Hn,
    Nat.mod_upper_bound (lcg g) n (proj2 (Nat.neq_0_lt_0 n) Hn);
  sub2ind_length := λ len n,
    eq_trans (length_map _ _) (length_seq n 0)
|}.

Definition empty_files : files :=
  {| norms := ∅; target_file := None; outputs := ∅ |}.

(** Nothing cached, nothing assigned. *)
Definition fresh : world :=
  {| fs := empty_files; gen := 0; vars := unbound_env; file_normA := None;
     saddle := None |}.

Definition tg : target :=
  {| x_opt := 1%float; y_opt := (0.5%float, 0.5%float);
     subx_opt := (-1)%float; suby_opt := (1%float, 1%float);
     obj_opt := 3%float |}.

(** The target and the 1-subset norm are cached. *)
Definition cached_files : files :=
  {| norms := {[ 1 := [2%float] ]}; target_file := Some tg; outputs := ∅ |}.

Definition cached : world :=
  {| fs := cached_files; gen := 0; vars := unbound_env; file_normA := None;
     saddle := Some tg |}.

(** The same files met with another random source and other variables. *)
Definition cached_later : world :=
  {| fs := cached_files; gen := 7;
     vars := {| prob := PList [0.5%float]; sigma := PList [2%float];
                tau := PNum 2%float; theta := PNum 0.25%float;
                kappa := PList [3%float]; kappa_max := PNum 3%float;
                prob_subset := PList [0.5%float; 0.5%float] |};
     file_normA := Some 50; saddle := Some tg |}.

(** A trace of three measurements and the bundles that hold it. *)
Definition samples : list sample :=
  [ {| s_obj := 5; s_dist := 1; s_dist_x := 0; s_dist_y := 1 |};
    {| s_obj := 4; s_dist := 0.5; s_dist_x := (-0.25); s_dist_y := 0.75 |};
    {| s_obj := 2.5; s_dist := 0.25; s_dist_x := 0.125;
       s_dist_y := 0.125 |} ]%float.

Definition bundle_of (n : nat) : bundle :=
  {| b_iter_save := [0; n; 2 * n]; b_niter := 2 * n; b_x := 1%float;
     b_out := map sample_dict samples; b_nsub := n; b_theta := PNone |}.

Definition loaded : dict bundle :=
  [("pdhg", bundle_of 1); ("spdhg_uni10", bundle_of 10);
   ("spdhg_uni50", bundle_of 50); ("pesquet_uni10", bundle_of 10);
   ("pesquet_uni50", bundle_of 50)].

(** All five bundles are in the folder. *)
Definition finished : world :=
  {| fs := {| norms := {[ 1 := [2%float] ]}; target_file := Some tg;
              outputs := list_to_map loaded |};
     gen := 0; vars := unbound_env; file_normA := Some 1;
     saddle := Some tg |}.

End Toy.

(** ** The image sink of the callback and the final figures

    The parts of the script that write to the plotting sink: the images
    that [CallbackStore] saves at the iterations of [iter_plot] (lines
    216-218 and 232) and the two figures of lines 444-475, whose curves are
    cut to a window by boolean masks. *)

(** Line 232: [list(np.array([10, 20, 30, 40, 100, 300]) * nsub[alg])]. *)
Definition iter_plot_of (n : nat) : list nat :=
  map (λ e, e * n) [10; 20; 30; 40; 100; 300].

(** NumPy's [&] on two boolean arrays: entry by entry, an array of one entry
    being broadcast against the other; other shapes do not match. *)
Definition np_and (a b : list bool) : py (list bool) :=
  if decide (length a = length b) then Ret (zip_with andb a b)
  else match a, b with
       | [u], _ => Ret (map (andb u) b)
       | _, [v] => Ret (map (λ u, andb u v) a)
       | _, _ => Raise ValueError
       end.

(** The entries of an array that a mask selects. *)
Fixpoint np_select {A} (arr : list A) (mask : list bool) : list A :=
  match arr, mask with
  | a :: arr', b :: mask' =>
      if b then a :: np_select arr' mask' else np_select arr' mask'
  | _, _ => []
  end.

(** [arr[mask]] for a boolean mask, which must have the length of the
    array. *)
Definition np_mask {A} (arr : list A) (mask : list bool) : py (list A) :=
  if decide (length arr = length mask) then Ret (np_select arr mask)
  else Raise IndexError.

(** Lines 452-454 and 471-473: the points of one curve, cut to the window
    [xlim] by [ylim]. *)
Definition figure_curve (xlim ylim : float * float) (x y : list float)
  : py (list float * list float) :=
  i1 ← np_and (map (λ v, PrimFloat.leb v xlim.2) x)
              (map (λ v, PrimFloat.leb xlim.1 v) x);
  i2 ← np_and i1 (map (λ v, PrimFloat.leb v ylim.2) y);
  i ← np_and i2 (map (λ v, PrimFloat.leb ylim.1 v) y);
  xs ← np_mask x i;
  ys ← np_mask y i;
  Ret (xs, ys).

(** Whether a point lies in the window. *)
Definition in_window (xlim ylim : float * float) (p : float * float) : bool :=
  PrimFloat.leb p.1 xlim.2 && PrimFloat.leb xlim.1 p.1
  && PrimFloat.leb p.2 ylim.2 && PrimFloat.leb ylim.1 p.2.

(** Lines 446-447 and 466; the lower limit is [1e-8]. *)
Definition xlim : float * float := (0, 100)%float.
Definition ylim_dist : float * float := (0x1.5798ee2308c3ap-27, 0.5)%float.
Definition ylim_obj : float * float := (0x1.5798ee2308c3ap-27, 1)%float.

(** The plotting functions of lines 381-399 and one curve drawn by one of
    them. *)
Inductive plot_call : Set := Semilogy | Plot | Loglog | Semilogx.

Record curve : Set := Curve {
  c_call : plot_call;
  c_label : string;
  c_x : list float;
  c_y : list float
}.

(** Line 451 and lines 452-454: the curve of the relative distance. *)
Definition dist_curve (x arr : list float) : py (list float * list float) :=
  a0 ← py_index arr 0;
  figure_curve xlim ylim_dist x (map (λ v, PrimFloat.div v a0) arr).

(** Lines 470-473: the curve of the relative objective. *)
Definition obj_curve (x arr : list float) : py (list float * list float) :=
  figure_curve xlim ylim_obj x arr.

Section Figures.
Context `{Collaborators}.

(** Lines 195-220 with the image sink: the state of a [CallbackStore]
    object and the images that line 218 has written, each with the algorithm
    name and the iteration number that make up its file name in line 217. *)
Record callback_images : Type := CallbackImages {
  ci_store : callback_store;
  ci_images : list (string * nat * X)
}.

Definition callback_with_images (alg : string) (t : target)
    (iter_save iter_plot : list nat) (x : X) (y : Y) (c : callback_images)
  : callback_images :=
  {| ci_store := callback_call t iter_save x y (ci_store c);
     ci_images := if bool_decide (cb_iter (ci_store c) ∈ iter_plot)
                  then ci_images c ++ [(alg, cb_iter (ci_store c), x)]
                  else ci_images c |}.

(** The callback called on a sequence of iterates, one call after the
    other. *)
Definition callback_calls (alg : string) (t : target)
    (iter_save iter_plot : list nat) (xs : list (X * Y))
    (c : callback_images) : callback_images :=
  fold_left (λ c '(x, y), callback_with_images alg t iter_save iter_plot x y c)
            xs c.

(** Lines 199-203: the object as constructed. *)
Definition callback_new : callback_images :=
  {| ci_store := {| cb_iter := 0; cb_out := [] |}; ci_images := [] |}.

(** Line 332: [np.array(iter_save_v[a]) / np.float(nsub_v[a])]. *)
Definition epochs_save_of (b : bundle) : list float :=
  map (λ i, PrimFloat.div (sc_int (Z.of_nat i)) (sc_int (Z.of_nat (b_nsub b))))
      (b_iter_save b).

(** Lines 449-456 and 468-475: the curves of the two figures, one per
    algorithm, in the order of [algs]. *)
Definition final_figure (curve : list float → list float
                                 → py (list float * list float))
    (meas : string) (loaded : dict bundle)
    (res : dict (dict (list float)))
  : py (list (string * (list float * list float))) :=
  for_each algs
    (λ a acc,
       b ← dict_get loaded a;
       d ← dict_get res a;
       arr ← dict_get d meas;
       c ← curve (epochs_save_of b) arr;
       Ret (acc ++ [(a, c)]))
    [].

Definition final_figures (loaded : dict bundle)
    (res : dict (dict (list float)))
  : py (list (string * (list float * list float))
        * list (string * (list float * list float))) :=
  f1 ← final_figure dist_curve "dist" loaded res;
  f2 ← final_figure obj_curve "obj_rel" loaded res;
  Ret (f1, f2).

(** Lines 376-400: the curves of one of the figures of the loop, one per
    algorithm; [skip] is the number of leading entries that the slices
    [[1:]] of lines 392-398 drop. *)
Definition draw_curves (call : plot_call) (skip : nat) (meas : string)
    (loaded : dict bundle) (res : dict (dict (list float)))
  : py (list curve) :=
  for_each algs
    (λ a acc,
       b ← dict_get loaded a;
       d ← dict_get res a;
       y ← dict_get d meas;
       Ret (acc ++ [{| c_call := call; c_label := a;
                       c_x := drop skip (epochs_save_of b);
                       c_y := drop skip y |}]))
    [].

Definition generic_curves (plotx meas : string) (logy_plot : list string)
    (loaded : dict bundle) (res : dict (dict (list float)))
  : py (list curve) :=
  if String.eqb plotx "linx"
  then if bool_decide (meas ∈ logy_plot)
       then draw_curves Semilogy 0 meas loaded res
       else draw_curves Plot 0 meas loaded res
  else if String.eqb plotx "logx"
       then if bool_decide (meas ∈ logy_plot)
            then draw_curves Loglog 1 meas loaded res
            else draw_curves Semilogx 1 meas loaded res
       else Ret [].

(** Lines 367-408: the figures of the loop, each with the pair of [plotx]
    and [meas] that names its file. *)
Definition generic_figures (loaded : dict bundle)
    (res : dict (dict (list float)))
  : py (list (string * string * list curve)) :=
  a0 ← py_index algs 0;
  d0 ← dict_get res a0;
  let all_plots := dict_keys d0 in
  let logy_plot := all_plots in
  for_each ["linx"; "logx"]
    (λ plotx figs,
       for_each all_plots
         (λ meas figs,
            cs ← generic_curves plotx meas logy_plot loaded res;
            Ret (figs ++ [(plotx, meas, cs)]))
         figs)
    [].

End Figures.

(** * Properties *)

(** ** The error monad *)

Lemma py_bind_ret {A B} (m : py A) (f : A → py B) (b : B) :
  m ≫= f = Ret b → ∃ a, m = Ret a ∧ f a = Ret b.
Proof. destruct m as [a|e]; simpl; [eauto | discriminate]. Qed.

Lemma py_index_cons {A} (a : A) (l : list A) : py_index (a :: l) 0 = Ret a.
Proof. reflexivity. Qed.

Lemma py_index_lookup {A} (l : list A) (i : nat) (a : A) :
  l !! i = Some a → py_index l i = Ret a.
Proof. unfold py_index. by intros ->. Qed.

Lemma py_index_ret {A} (l : list A) (i : nat) (a : A) :
  py_index l i = Ret a → l !! i = Some a.
Proof. unfold py_index. destruct (l !! i); congruence. Qed.

(** ** Dispatch on the algorithm name *)

Lemma nsub_names (alg : string) (n : nat) :
  dict_get nsub alg = Ret n →
  (alg = "pdhg" ∧ n = 1) ∨ (alg = "spdhg_uni10" ∧ n = 10) ∨
  (alg = "spdhg_uni50" ∧ n = 50) ∨ (alg = "pesquet_uni10" ∧ n = 10) ∨
  (alg = "pesquet_uni50" ∧ n = 50).
Proof.
  unfold nsub; cbn [dict_get].
  repeat (match goal with
          | |- context [String.eqb ?a alg] =>
              destruct (String.eqb_spec a alg) as [<-|_]
          end; [intros [= <-]; tauto |]).
  discriminate.
Qed.

Lemma algs_nsub (alg : string) :
  alg ∈ algs → ∃ n, dict_get nsub alg = Ret n ∧ 0 < n.
Proof.
  unfold algs. rewrite !elem_of_cons, elem_of_nil.
  intros [->|[->|[->|[->|[->|[]]]]]]; eexists; (split; [reflexivity | lia]).
Qed.

Section Dispatch.
Context {T : Type} `{Scalar T}.
Implicit Types (rho mu_f mu_g : T) (mu_i normA : list T) (e : env T).

Lemma choose_parameters_pdhg rho mu_f mu_g mu_i n Y_size normA e :
  choose_parameters rho mu_f mu_g mu_i "pdhg" n Y_size normA e
  = choose_pdhg rho mu_f mu_g Y_size normA e.
Proof. reflexivity. Qed.

Lemma choose_parameters_spdhg rho mu_f mu_g mu_i alg n Y_size normA e :
  String.prefix "spdhg" alg = true →
  choose_parameters rho mu_f mu_g mu_i alg n Y_size normA e
  = choose_spdhg rho mu_g mu_i n Y_size normA e.
Proof.
  intros Hp. unfold choose_parameters.
  destruct (String.eqb_spec alg "pdhg") as [->|_]; [discriminate Hp |].
  by rewrite Hp.
Qed.

Lemma choose_parameters_pesquet rho mu_f mu_g mu_i alg n Y_size normA e :
  String.prefix "pesquet" alg = true →
  choose_parameters rho mu_f mu_g mu_i alg n Y_size normA e
  = choose_pesquet rho n Y_size normA e.
Proof.
  intros Hp. unfold choose_parameters.
  destruct (String.eqb_spec alg "pdhg") as [->|_]; [discriminate Hp |].
  destruct (String.prefix "spdhg" alg) eqn:Hs; [| by rewrite Hp].
  destruct alg as [|c alg]; [discriminate Hp |].
  cbn [String.prefix] in Hp, Hs.
  destruct (Ascii.ascii_dec _ c) as [<-|]; [| discriminate Hp].
  destruct (Ascii.ascii_dec _ _); discriminate.
Qed.

Lemma py_zip_length {A B} (l1 : list A) (l2 : list B) :
  length (py_zip l1 l2) = length l1 `min` length l2.
Proof.
  revert l2; induction l1 as [|a l1 IH]; intros [|b l2]; simpl; auto.
Qed.

Lemma py_zip_lookup {A B} (l1 : list A) (l2 : list B) i a b :
  l1 !! i = Some a → l2 !! i = Some b → py_zip l1 l2 !! i = Some (a, b).
Proof.
  revert l2 i; induction l1 as [|a' l1 IH]; intros [|b' l2] [|i];
    simpl; try discriminate; [congruence | apply IH].
Qed.

Lemma py_max_from_elem (cur : T) (l : list T) :
  py_max_from cur l = cur ∨ py_max_from cur l ∈ l.
Proof.
  revert cur; induction l as [|x l IH]; intros cur; simpl; [by left |].
  destruct (IH (if sc_lt cur x then x else cur)) as [-> | Hin].
  - destruct (sc_lt cur x); [right; left | by left].
  - right. by right.
Qed.

End Dispatch.

(** ** Sums in exact arithmetic *)

Section Exact.
Local Open Scope R_scope.

Lemma py_sum_from_replicate (n : nat) (x acc : R) :
  fold_left Rplus (replicate n x) acc = acc + INR n * x.
Proof.
  revert acc; induction n as [|n IH]; intros acc.
  - simpl. ring.
  - change (replicate (S n) x) with (x :: replicate n x).
    cbn [fold_left]. rewrite IH, S_INR. ring.
Qed.

Lemma py_sum_uniform (n : nat) :
  (0 < n)%nat →
  py_sum (replicate n (sc_int 1 / sc_int (Z.of_nat n))%sc) = 1.
Proof.
  intros Hn. unfold py_sum; simpl.
  rewrite py_sum_from_replicate, <- INR_IZR_INZ.
  assert (0 < INR n) by (apply lt_0_INR; lia).
  field. lra.
Qed.

End Exact.

(** ** Binary64: NaN, the order, and the ends of the range

    Facts of the IEEE arithmetic of the primitive floats, from the
    specification of their operations. *)

Lemma SFcompare_refl (f : SpecFloat.spec_float) :
  f ≠ SpecFloat.S754_nan → SpecFloat.SFcompare f f = Some Eq.
Proof.
  destruct f as [s| s | | s m e]; cbn; try done.
  - by destruct s.
  - intros _. rewrite Z.compare_refl, Pos.compare_cont_refl. by destruct s.
Qed.

Lemma is_nan_spec (v : float) :
  PrimFloat.is_nan v = true ↔ Prim2SF v = SpecFloat.S754_nan.
Proof.
  unfold PrimFloat.is_nan. rewrite FloatAxioms.eqb_spec.
  unfold SpecFloat.SFeqb. split.
  - intros Hn. destruct (Prim2SF v) eqn:Hv; try reflexivity;
      rewrite SFcompare_refl in Hn by discriminate; discriminate.
  - by intros ->.
Qed.

Lemma is_nan_eq (v : float) : PrimFloat.is_nan v = true → v = nan.
Proof.
  intros Hn. apply is_nan_spec in Hn. apply Prim2SF_inj. by rewrite Hn.
Qed.

Lemma leb_not_nan (a b : float) :
  PrimFloat.leb a b = true →
  PrimFloat.is_nan a = false ∧ PrimFloat.is_nan b = false.
Proof.
  rewrite FloatAxioms.leb_spec. intros Hle.
  split; apply not_true_is_false; intros Hn; apply is_nan_spec in Hn;
    rewrite Hn in Hle; [done |].
  by destruct (Prim2SF a).
Qed.

Lemma div_nan (v : float) : PrimFloat.div v nan = nan.
Proof.
  apply Prim2SF_inj. rewrite FloatAxioms.div_spec.
  change (Prim2SF nan) with SpecFloat.S754_nan.
  by destruct (Prim2SF v).
Qed.

Lemma positive_spec (v : float) :
  PrimFloat.ltb 0 v = true →
  Prim2SF v = SpecFloat.S754_infinity false
  ∨ ∃ m e, Prim2SF v = SpecFloat.S754_finite false m e.
Proof.
  rewrite FloatAxioms.ltb_spec.
  change (Prim2SF 0) with (SpecFloat.S754_zero false).
  destruct (Prim2SF v) as [s|s| |s m e]; try done; destruct s; try done;
    [by left | right; eauto].
Qed.

Lemma finite_positive_spec (v : float) :
  PrimFloat.ltb 0 v = true → PrimFloat.ltb v infinity = true →
  ∃ m e, Prim2SF v = SpecFloat.S754_finite false m e.
Proof.
  intros Hp Hf. destruct (positive_spec v Hp) as [Hv | Hv]; [| exact Hv].
  rewrite FloatAxioms.ltb_spec, Hv in Hf. discriminate.
Qed.


Lemma step_at_kappa_one (mu : float) :
  PrimFloat.ltb 0 mu = true → PrimFloat.ltb mu infinity = true →
  (1 / ((1 - 1) * mu))%float = infinity.
Proof.
  intros Hp Hf. change (1 - 1)%float with 0%float. apply Prim2SF_inj.
  rewrite FloatAxioms.div_spec, FloatAxioms.mul_spec.
  change (Prim2SF 0) with (SpecFloat.S754_zero false).
  destruct (finite_positive_spec mu Hp Hf) as (m & e & ->). reflexivity.
Qed.

Lemma step_at_kappa_infinite (mu : float) :
  PrimFloat.ltb 0 mu = true → PrimFloat.ltb mu infinity = true →
  (1 / ((infinity - 1) * mu))%float = 0%float.
Proof.
  intros Hp Hf. change (infinity - 1)%float with infinity. apply Prim2SF_inj.
  rewrite FloatAxioms.div_spec, FloatAxioms.mul_spec.
  change (Prim2SF infinity) with (SpecFloat.S754_infinity false).
  destruct (finite_positive_spec mu Hp Hf) as (m & e & ->). reflexivity.
Qed.


(** The order of binary64 on numbers that are not NaN. *)
Lemma SFcompare_not_lt_trans (a b c : SpecFloat.spec_float) :
  b ≠ SpecFloat.S754_nan →
  SpecFloat.SFltb a b = false → SpecFloat.SFltb b c = false →
  SpecFloat.SFltb a c = false.
Proof.
  unfold SpecFloat.SFltb.
  destruct a as [sa|sa| |sa ma ea], b as [sb|sb| |sb mb eb],
           c as [sc|sc| |sc mc ec]; try done;
    try destruct sa; try destruct sb; try destruct sc; cbn; try done.
  all: rewrite ?Pos.compare_cont_spec; cbn [Pos.switch_Eq].
  all: repeat match goal with
              | |- context [Z.compare ?x ?y] =>
                  destruct (Z.compare_spec x y)
              end; cbn; try done; try lia.
  all: repeat match goal with
              | |- context [Pos.compare ?x ?y] =>
                  destruct (Pos.compare_spec x y)
              end; cbn; try done; try lia.
Qed.

Lemma SFltb_asym (a b : SpecFloat.spec_float) :
  SpecFloat.SFltb a b = true → SpecFloat.SFltb b a = false.
Proof.
  unfold SpecFloat.SFltb.
  destruct a as [sa|sa| |sa ma ea], b as [sb|sb| |sb mb eb]; try done;
    try destruct sa; try destruct sb; cbn; try done.
  all: rewrite ?Pos.compare_cont_spec; cbn [Pos.switch_Eq].
  all: repeat match goal with
              | |- context [Z.compare ?x ?y] =>
                  destruct (Z.compare_spec x y)
              end; cbn; try done; try lia.
  all: repeat match goal with
              | |- context [Pos.compare ?x ?y] =>
                  destruct (Pos.compare_spec x y)
              end; cbn; try done; try lia.
Qed.

Lemma ltb_not_nan (a b : float) :
  PrimFloat.ltb a b = true →
  PrimFloat.is_nan a = false ∧ PrimFloat.is_nan b = false.
Proof.
  rewrite FloatAxioms.ltb_spec. intros Hlt.
  split; apply not_true_is_false; intros Hn; apply is_nan_spec in Hn;
    rewrite Hn in Hlt; [done |].
  by destruct (Prim2SF a).
Qed.

Lemma ltb_nan_l (a b : float) :
  PrimFloat.is_nan a = true → PrimFloat.ltb a b = false.
Proof.
  intros Hn. apply not_true_is_false. intros Hlt.
  apply ltb_not_nan in Hlt as [? _]. congruence.
Qed.

Lemma not_ltb_trans (a b c : float) :
  PrimFloat.is_nan b = false →
  PrimFloat.ltb a b = false → PrimFloat.ltb b c = false →
  PrimFloat.ltb a c = false.
Proof.
  rewrite !FloatAxioms.ltb_spec. intros Hn.
  apply SFcompare_not_lt_trans. intros Hb.
  apply is_nan_spec in Hb. congruence.
Qed.

(** Python's [max] on binary64 numbers: no item compares greater than the
    result.  A NaN in first position is returned, every comparison with it
    being false. *)
Lemma py_max_from_float (l : list float) :
  ∀ cur : float,
    (PrimFloat.is_nan cur = true → py_max_from cur l = cur)
    ∧ (PrimFloat.is_nan cur = false →
       PrimFloat.is_nan (py_max_from cur l) = false
       ∧ PrimFloat.ltb (py_max_from cur l) cur = false
       ∧ Forall (λ x, PrimFloat.ltb (py_max_from cur l) x = false) l).
Proof.
  induction l as [|x l IH]; intros cur; cbn [py_max_from sc_lt float64].
  - split; [done |]. intros Hn. split; [exact Hn |]. split; [| constructor].
    rewrite FloatAxioms.ltb_spec. unfold SpecFloat.SFltb.
    rewrite SFcompare_refl; [done |].
    intros Hc. apply is_nan_spec in Hc. congruence.
  - split.
    + intros Hn. rewrite (ltb_nan_l cur x Hn). by apply IH.
    + intros Hn. destruct (PrimFloat.ltb cur x) eqn:Hlt.
      * destruct (ltb_not_nan _ _ Hlt) as [_ Hx].
        destruct (proj2 (IH x) Hx) as (Hk & Hkx & Hl).
        split; [exact Hk |]. split; [| by constructor].
        apply (not_ltb_trans _ x _ Hx Hkx).
        rewrite FloatAxioms.ltb_spec in Hlt |- *. by apply SFltb_asym.
      * destruct (proj2 (IH cur) Hn) as (Hk & Hkc & Hl).
        split; [exact Hk |]. split; [exact Hkc |]. constructor; [| exact Hl].
        by apply (not_ltb_trans _ cur _ Hn).
Qed.

Lemma py_max_float (l : list float) (km : float) :
  py_max l = Ret km →
  km ∈ l ∧ Forall (λ x, PrimFloat.ltb km x = false) l.
Proof.
  destruct l as [|x l]; cbn [py_max]; [discriminate |].
  intros [= <-]. split.
  - destruct (py_max_from_elem x l) as [-> | Hin]; [left | by right].
  - destruct (py_max_from_float l x) as [Hnan Hnum].
    destruct (PrimFloat.is_nan x) eqn:Hx.
    + rewrite (Hnan eq_refl). apply Forall_forall. intros y _.
      by apply ltb_nan_l.
    + destruct (Hnum eq_refl) as (_ & Hkx & Hl). by constructor.
Qed.

(** ** Step sizes of the deterministic variant *)




(** A zero norm estimate: [kappa = 1], [tau] is infinite and the product
    [tau*mu_g*(kappa-1)] is a NaN. *)
Example pdhg_zero_norm_float64 :
  ∃ e' k t,
    choose_parameters rho 1%float 1%float [1%float] "pdhg" 1 1 [0%float]
                      unbound_env = Ret e'
    ∧ kappa e' = PNum k ∧ tau e' = PNum t
    ∧ k = 1%float ∧ t = infinity
    ∧ PrimFloat.is_nan (t * 1 * (k - 1))%float = true.
Proof. eexists _, _, _. repeat split; vm_compute; reflexivity. Qed.

(** With a norm of 2.1 and both moduli 0.5 the products are 1. *)
Example pdhg_identity_float64_sample :
  ∃ e' k s t,
    choose_parameters rho 0.5%float 0.5%float [0.5%float] "pdhg" 1 1
                      [0x1.0cccccccccccdp+1%float] unbound_env = Ret e'
    ∧ kappa e' = PNum k ∧ sigma e' = PList [s] ∧ tau e' = PNum t
    ∧ (t * 0.5 * (k - 1))%float = 1%float
    ∧ (s * 0.5 * (k - 1))%float = 1%float.
Proof. eexists _, _, _, _. repeat split; vm_compute; reflexivity. Qed.

(** ** Step sizes of the uniform stochastic variant *)

(** C2 (as amended).  For the uniform-probability stochastic variant with
    [n] subsets the calibrator computes
    [kappa_i = sqrt(1 + normA_i^2/(mu_g*mu_i)/rho^2)] for the pairs of
    [zip(normA, mu_i)] only, that is for the indices below the shorter of
    the two lengths: the subset norms against the first moduli of the data
    terms, not one per block.  [kappa_max] is Python's [max] of that list, in
    binary64 an entry of it than which no entry compares greater.  Then
    [p_i = 1/n], [sigma_i = 1/((kappa_max-1)*mu_i)] for every entry of
    [mu_i], [tau = 1/((n*kappa_max+n-2)*mu_g)] and
    [theta = 1 - 2/(n+n*kappa_max)]. *)
Theorem spdhg_step_sizes :
  (∀ (T : Type) (Sc : Scalar T) (r mu_f mu_g : T) (alg : string)
     (n' Y_size : nat) (a0 m0 : T) (normA mu_i : list T) (e : env T),
     String.prefix "spdhg" alg = true →
     let n := S n' in
     let nn := sc_int (Z.of_nat n) in
     let kappa_i := λ a m,
       sc_sqrt (sc_int 1 + a * a / (mu_g * m) / (r * r))%sc in
     ∃ (kappas : list T) (km : T),
       length kappas = length (a0 :: normA) `min` length (m0 :: mu_i)
       ∧ (∀ i a m, (a0 :: normA) !! i = Some a → (m0 :: mu_i) !! i = Some m →
                   kappas !! i = Some (kappa_i a m))
       ∧ py_max kappas = Ret km
       ∧ km ∈ kappas
       ∧ choose_parameters r mu_f mu_g (m0 :: mu_i) alg n Y_size
                           (a0 :: normA) e
         = Ret {| kappa := PList kappas;
                  kappa_max := PNum km;
                  prob_subset := PList (replicate n (sc_int 1 / nn)%sc);
                  prob := PList (replicate Y_size (sc_int 1 / nn)%sc);
                  sigma := PList (map (λ m, sc_int 1 / ((km - sc_int 1) * m))%sc
                                      (m0 :: mu_i));
                  tau := PNum (sc_int 1 / ((nn * km + nn - sc_int 2) * mu_g))%sc;
                  theta := PNum (sc_int 1 - sc_int 2 / (nn + nn * km))%sc |})
  ∧
  (∀ (l : list float) (km : float),
     py_max l = Ret km →
     km ∈ l ∧ Forall (λ x, PrimFloat.ltb km x = false) l).
Proof.
  split.
  - intros T Sc r mu_f mu_g alg n' Y_size a0 m0 normA mu_i e Hp n nn kappa_i.
    set (kappas := map (λ '(a, m), kappa_of r mu_g a m)
                       (py_zip (a0 :: normA) (m0 :: mu_i))).
    exists kappas, (py_max_from (kappa_i a0 m0)
                      (map (λ '(a, m), kappa_of r mu_g a m)
                           (py_zip normA mu_i))).
    split; [| split; [| split; [| split]]].
    + unfold kappas. by rewrite length_map, py_zip_length.
    + intros i a m Ha Hm. unfold kappas.
      rewrite list_lookup_fmap, (py_zip_lookup _ _ i a m Ha Hm).
      reflexivity.
    + reflexivity.
    + unfold kappas. cbn [py_zip map].
      destruct (py_max_from_elem (kappa_i a0 m0)
                  (map (λ '(a, m), kappa_of r mu_g a m) (py_zip normA mu_i)))
        as [-> | Hin]; [left | by right].
    + by rewrite choose_parameters_spdhg.
  - apply py_max_float.
Qed.

Lemma spdhg_step_sizes_witness :
  ∃ (kappas : list float) (km : float),
    length kappas = 2
    ∧ py_max kappas = Ret km
    ∧ ∃ e', choose_parameters rho 1%float 1%float [1%float; 1%float]
              "spdhg_uni10" 10 2 [1.5%float; 2%float] unbound_env = Ret e'
            ∧ kappa_max e' = PNum km.
Proof.
  destruct (proj1 spdhg_step_sizes float float64 rho 1%float 1%float
              "spdhg_uni10" 9 2 1.5%float 1%float [2%float] [1%float]
              unbound_env eq_refl)
    as (kappas & km & Hlen & _ & Hmax & _ & Hret).
  exists kappas, km. split; [exact Hlen |]. split; [exact Hmax |].
  eexists. split; [exact Hret | reflexivity].
Defined.

(** C2, as stated, fails: the [kappa_i] are not per block and [kappa_max]
    is not the maximum over the blocks.  With ten subsets of norm 2 and
    eleven data terms, the last of modulus 1/64 and the others of modulus 1,
    [kappa] has ten entries while [sigma] has eleven, and [kappa_max] is
    below the [kappa] of the last block, whichever subset norm it is given. *)
Lemma kappa_max_ignores_unpaired_blocks :
  ∃ e' ks km ss,
    choose_parameters rho 1%float 1%float
      (replicate 10 1%float ++ [0.015625%float]) "spdhg_uni10" 10 11
      (replicate 10 2%float) unbound_env = Ret e'
    ∧ kappa e' = PList ks ∧ kappa_max e' = PNum km ∧ sigma e' = PList ss
    ∧ length ks = 10 ∧ length ss = 11
    ∧ km = 0x1.20882957b9945p+1%float
    ∧ ∀ a, a ∈ replicate 10 2%float →
        PrimFloat.ltb km
          (PrimFloat.sqrt (1 + a * a / (1 * 0.015625) / (rho * rho)))%float
        = true.
Proof.
  eexists _, _, _, _. split; [reflexivity |].
  cbn [kappa kappa_max sigma].
  split; [reflexivity |]. split; [reflexivity |]. split; [reflexivity |].
  split; [reflexivity |]. split; [reflexivity |].
  split; [vm_compute; reflexivity |].
  intros a Ha. apply elem_of_replicate in Ha as [-> _].
  vm_compute. reflexivity.
Qed.

(** ** Zero moduli *)

(** C4, as stated, fails: with [mu_g = 0] the deterministic variant is
    configured without any error; [kappa] is infinite, [sigma] is [0],
    [tau] is a NaN and [theta] is [1]. *)
Lemma zero_modulus_is_not_rejected :
  choose_parameters rho 0.5%float 0%float [0.5%float] "pdhg" 1 1 [2%float]
                    unbound_env
  = Ret {| kappa := PNum infinity;
           prob_subset := PList [1%float];
           prob := PList [1%float];
           sigma := PList [0%float];
           tau := PNum nan;
           theta := PNum 1%float;
           kappa_max := PUnbound |}.
Proof. vm_compute. reflexivity. Qed.

(** C4 (as amended).  The calibration of an accelerated variant has no check
    of the moduli: for every value of [mu_f], [mu_g] and the [mu_i], zero
    included, it evaluates the accelerated formulas in binary64 arithmetic
    (a division by zero gives an infinity or a NaN) and returns the step
    sizes and a numeric [theta]; it raises no error and does not fall back
    to the non-accelerated variant. *)
Theorem accelerated_calibration_is_unguarded :
  ∀ (r mu_f mu_g m0 a0 : float) (mu_i normA : list float) (Y_size : nat)
    (e : env float),
    (∃ e' k,
        choose_parameters r mu_f mu_g (m0 :: mu_i) "pdhg" 1 Y_size
                          (a0 :: normA) e = Ret e'
        ∧ k = kappa_of r mu_g a0 mu_f
        ∧ sigma e' = PList (replicate Y_size (1 / ((k - 1) * mu_f))%float)
        ∧ tau e' = PNum (1 / ((k - 1) * mu_g))%float
        ∧ theta e' = PNum (1 - 2 / (1 + k))%float)
    ∧ (∃ e' km,
        choose_parameters r mu_f mu_g (m0 :: mu_i) "spdhg_uni10" 10 Y_size
                          (a0 :: normA) e = Ret e'
        ∧ kappa_max e' = PNum km
        ∧ sigma e' = PList (map (λ m, 1 / ((km - 1) * m))%float (m0 :: mu_i))
        ∧ tau e' = PNum (1 / ((10 * km + 10 - 2) * mu_g))%float
        ∧ theta e' = PNum (1 - 2 / (10 + 10 * km))%float)
    ∧ (∃ e' km,
        choose_parameters r mu_f mu_g (m0 :: mu_i) "spdhg_uni50" 50 Y_size
                          (a0 :: normA) e = Ret e'
        ∧ kappa_max e' = PNum km
        ∧ sigma e' = PList (map (λ m, 1 / ((km - 1) * m))%float (m0 :: mu_i))
        ∧ tau e' = PNum (1 / ((50 * km + 50 - 2) * mu_g))%float
        ∧ theta e' = PNum (1 - 2 / (50 + 50 * km))%float).
Proof.
  intros. split; [| split].
  - eexists _, _. split; [reflexivity |]. repeat split.
  - eexists _, _. split; [reflexivity |]. repeat split.
  - eexists _, _. split; [reflexivity |]. repeat split.
Qed.

(** ** Subset-selection probabilities *)

Lemma uniform_entries {T} (n : nat) (x : T) :
  length (replicate n x) = n ∧ Forall (λ y, y = x) (replicate n x).
Proof. split; [apply length_replicate | by apply Forall_replicate]. Qed.

(** The variants with [prob_subset = [1 / n] * n], in binary64 and in exact
    arithmetic. *)
Ltac uniform_case :=
  split; intros; eexists _, _;
  (split; [reflexivity |]); (split; [reflexivity |]);
  (split; [apply uniform_entries |]);
  [ split; [apply uniform_entries | vm_compute; reflexivity]
  | split; [| by apply py_sum_uniform; lia];
    rewrite INR_IZR_INZ; apply uniform_entries ].

(** C8.  For every algorithm variant, with its subset count [n] (1, 10 or
    50), the subset-selection probability vector has exactly [n] entries,
    each equal to [1/n]; its entries sum to 1 up to [2^-50] in binary64
    arithmetic, and to 1 exactly in exact arithmetic. *)
Theorem prob_subset_is_uniform :
  ∀ (alg : string) (n : nat),
    dict_get nsub alg = Ret n →
    (∀ (r mu_f mu_g m0 a0 : float) (mu_i normA : list float) (Y_size : nat)
       (e : env float),
       ∃ e' p,
         choose_parameters r mu_f mu_g (m0 :: mu_i) alg n Y_size
                           (a0 :: normA) e = Ret e'
         ∧ prob_subset e' = PList p
         ∧ length p = n
         ∧ Forall (λ x, x = (1 / sc_int (Z.of_nat n))%float) p
         ∧ PrimFloat.leb (PrimFloat.abs (py_sum p - 1)%float) 0x1p-50%float
           = true)
    ∧
    (∀ (r mu_f mu_g m0 a0 : R) (mu_i normA : list R) (Y_size : nat)
       (e : env R),
       ∃ e' p,
         choose_parameters r mu_f mu_g (m0 :: mu_i) alg n Y_size
                           (a0 :: normA) e = Ret e'
         ∧ prob_subset e' = PList p
         ∧ length p = n
         ∧ Forall (λ x, x = (1 / INR n)%R) p
         ∧ py_sum p = 1%R).
Proof.
  intros alg n Hn.
  destruct (nsub_names alg n Hn)
    as [[-> ->]|[[-> ->]|[[-> ->]|[[-> ->]|[-> ->]]]]].
  - (* the deterministic variant: prob_subset = [1] *)
    split; intros; eexists _, _;
      (split; [reflexivity |]); (split; [reflexivity |]);
      (split; [reflexivity |]).
    + split; [by repeat constructor | vm_compute; reflexivity].
    + split.
      * constructor; [| constructor]. simpl. field.
      * unfold py_sum; simpl. ring.
  - uniform_case.
  - uniform_case.
  - uniform_case.
  - uniform_case.
Qed.

Lemma prob_subset_is_uniform_witness :
  ∃ e' p,
    choose_parameters rho 0.5%float 0.5%float [0.5%float] "pesquet_uni50" 50 1
                      [2%float] unbound_env = Ret e'
    ∧ prob_subset e' = PList p
    ∧ length p = 50
    ∧ Forall (λ x, x = (1 / sc_int (Z.of_nat 50))%float) p
    ∧ PrimFloat.leb (PrimFloat.abs (py_sum p - 1)%float) 0x1p-50%float = true.
Proof.
  exact (proj1 (prob_subset_is_uniform "pesquet_uni50" 50 eq_refl)
           rho 0.5%float 0.5%float 0.5%float 2%float [] [] 1 unbound_env).
Defined.

(** ** The run harness *)

Section HarnessProperties.
Context `{Collaborators}.

Lemma put_gen_same (w : world) : put_gen (gen w) w = w.
Proof. by destruct w. Qed.

Lemma put_gen_twice (g g' : rng) (w : world) :
  put_gen g' (put_gen g w) = put_gen g' w.
Proof. reflexivity. Qed.

(** The loop of the solver computes [solver_loop_on] on the random source and
    touches nothing else. *)
Lemma solver_loop_on_spec step n p sub2ind cb budget :
  ∀ k s c log (w : world),
    prob_subset (vars w) = PList p →
    solver_loop step (fun_select n sub2ind) cb budget k s c log w
    = match solver_loop_on step n p sub2ind cb budget k s c log (gen w) with
      | Ret (s', c', log', g') => Ret ((s', c', log'), put_gen g' w)
      | Raise e => Raise e
      end.
Proof.
  induction budget as [|budget IH]; intros k s c log w Hp.
  - cbn. by rewrite put_gen_same.
  - cbn [solver_loop solver_loop_on].
    unfold mbind at 1, prog_bind, fun_select.
    unfold mbind at 1, prog_bind, get_vars. rewrite Hp.
    unfold mbind at 1, prog_bind, with_rng.
    destruct (np_random_choice n p (gen w)) as [j g'].
    unfold mbind at 1, prog_bind, lift.
    destruct (py_index sub2ind j) as [blocks|e]; [| reflexivity].
    cbn [mret prog_ret mbind py_bind].
    destruct (solver_xy (step blocks s)) as [x y].
    rewrite IH by exact Hp. reflexivity.
Qed.

(** With a positive subset count and a partition of that many subsets the
    loop returns; it draws [budget] indices and calls the callback [budget]
    times. *)
Lemma solver_loop_on_returns step n p sub2ind cb budget :
  0 < n → length sub2ind = n →
  ∀ k s c log g,
    ∃ s' c' g',
      solver_loop_on step n p sub2ind cb budget k s c log g
      = Ret (s', c', log ++ draws n p budget g, g').
Proof.
  intros Hn Hlen. induction budget as [|budget IH]; intros k s c log g.
  - cbn. rewrite app_nil_r. eauto.
  - cbn [solver_loop_on draws].
    pose proof (choice_in_range n p g Hn) as Hj.
    destruct (np_random_choice n p g) as [j g']. cbn [fst] in Hj.
    destruct (lookup_lt_is_Some_2 sub2ind j) as [blocks Hb]; [lia |].
    rewrite (py_index_lookup _ _ _ Hb). cbn [mbind py_bind].
    destruct (solver_xy (step blocks s)) as [x y].
    destruct (IH (S k) (step blocks s) (cb x y c) (log ++ [j]) g')
      as (s' & c' & g'' & ->).
    rewrite <- app_assoc. eauto.
Qed.


Lemma norms_of_run_unfold (k : nat) sub2ind (w : world) :
  file_normA w = Some k →
  norms_of_run sub2ind w
  = let '(normA, g, f) := norms_with_cache k sub2ind (fs w) (gen w) in
    Ret (normA, put_fs f (put_gen g w)).
Proof.
  intros Hk. unfold norms_of_run, norms_with_cache.
  unfold mbind at 1, prog_bind, get_file_normA. rewrite Hk.
  unfold mbind at 1, prog_bind, load_norms.
  unfold mbind at 1, prog_bind, get_fs. cbn [mret prog_ret].
  destruct (norms (fs w) !! k) as [normA|].
  - cbn. by destruct w.
  - unfold mbind at 1, prog_bind, estimate_norms, with_rng.
    destruct (norms_from sub2ind (gen w)) as [normA g']. reflexivity.
Qed.

Lemma select_norm_file_unfold (alg : string) (n : nat) (w : world) :
  dict_get nsub alg = Ret n →
  select_norm_file alg n w = Ret (tt, put_file_normA (norm_key alg n) w).
Proof.
  intros Hn.
  by destruct (nsub_names alg n Hn)
    as [[-> ->]|[[-> ->]|[[-> ->]|[[-> ->]|[-> ->]]]]].
Qed.

(** The first half of a pass in closed form. *)
Lemma configure_run_unfold (mu_f : float) (alg : string) (n : nat)
    (w : world) :
  dict_get nsub alg = Ret n →
  configure_run mu_f alg w
  = let sub2ind := sub2ind_of Y_size n in
    let '(normA, g, f) :=
      norms_with_cache (norm_key alg n) sub2ind (fs w)
                       (np_random_seed seed_value) in
    match choose_parameters rho mu_f mu_g mu_i alg n Y_size normA
                            (clear_variables (vars w)) with
    | Ret e =>
        Ret ((n, sub2ind),
             {| fs := f; gen := g; vars := e;
                file_normA := Some (norm_key alg n); saddle := saddle w |})
    | Raise ex => Raise ex
    end.
Proof.
  intros Hn. unfold configure_run.
  unfold mbind at 1, prog_bind, get_vars.
  unfold mbind at 1, prog_bind, set_vars.
  unfold mbind at 1, prog_bind, lift. rewrite Hn.
  unfold mbind at 1, prog_bind, random_seed.
  unfold mbind at 1, prog_bind. rewrite (select_norm_file_unfold _ _ _ Hn).
  unfold mbind at 1, prog_bind.
  rewrite (norms_of_run_unfold (norm_key alg n)) by reflexivity.
  cbn [fs gen put_file_normA put_gen put_vars].
  destruct (norms_with_cache _ _ _ _) as [[normA g] f].
  unfold mbind at 1, prog_bind, get_vars.
  unfold mbind at 1, prog_bind, lift.
  cbn [vars put_file_normA put_gen put_vars put_fs].
  destruct (choose_parameters _ _ _ _ _ _ _ _ _) as [e|ex]; reflexivity.
Qed.

(** The second half of a pass in closed form. *)
Lemma solve_run_unfold (alg : string) (n : nat) sub2ind (w : world)
    (t : target) (p : list float) (iter_save : list nat) step :
  saddle w = Some t →
  iter_save_of n = Ret iter_save →
  prob_subset (vars w) = PList p →
  select_solver alg (vars w) = Ret step →
  solve_run alg n sub2ind w
  = let cb := callback_call t iter_save in
    match solver_loop_on step n p sub2ind cb (niter_of n) 0
            (solver_init X_zero Y_zero)
            (cb X_zero Y_zero {| cb_iter := 0; cb_out := [] |}) [] (gen w)
    with
    | Ret (s, c, log, g') =>
        Ret (log,
             {| fs := {| norms := norms (fs w);
                         target_file := target_file (fs w);
                         outputs :=
                           <[alg := {| b_iter_save := iter_save;
                                       b_niter := niter_of n;
                                       b_x := (solver_xy s).1;
                                       b_out := cb_out c;
                                       b_nsub := n;
                                       b_theta := theta (vars w) |}]>
                             (outputs (fs w)) |};
                gen := g'; vars := vars w; file_normA := file_normA w;
                saddle := saddle w |})
    | Raise e => Raise e
    end.
Proof.
  destruct w as [f g e k sd]. cbn [saddle vars gen fs file_normA].
  intros -> Hs Hp Hstep. unfold solve_run.
  unfold mbind at 1, prog_bind, get_saddle. cbn [saddle].
  unfold mbind at 1, prog_bind, lift. rewrite Hs.
  unfold mbind at 1, prog_bind, get_vars.
  unfold mbind at 1, prog_bind, lift. cbn [vars]. rewrite Hstep.
  unfold mbind at 1, prog_bind.
  rewrite (solver_loop_on_spec _ _ p) by exact Hp.
  cbv zeta. cbn [gen].
  destruct (solver_loop_on _ _ _ _ _ _ _ _ _ _ _) as [[[[s c] log] g']|ex];
    reflexivity.
Qed.


Lemma norms_from_length (subsets : list (list nat)) (g : rng) :
  length (norms_from subsets g).1 = length subsets.
Proof.
  revert g; induction subsets as [|s rest IH]; intros g; [reflexivity |].
  cbn [norms_from]. destruct (subset_norm_estimate s g) as [v g1].
  specialize (IH g1). destruct (norms_from rest g1) as [vs g2].
  cbn [fst length] in *. by rewrite IH.
Qed.

Lemma norms_with_cache_frame k sub2ind (f : files) (g : rng) :
  let r := norms_with_cache k sub2ind f g in
  target_file r.2 = target_file f
  ∧ outputs r.2 = outputs f
  ∧ norms r.2 !! k = Some r.1.1
  ∧ (∀ k' l, norms f !! k' = Some l → norms r.2 !! k' = Some l)
  ∧ (∀ l, norms f !! k = Some l → r = (l, g, f)).
Proof.
  unfold norms_with_cache.
  destruct (norms f !! k) as [l|] eqn:Hk; cbn.
  - repeat split; auto. by intros ? [= <-].
  - destruct (norms_from sub2ind g) as [normA g']. cbn.
    repeat split.
    + apply lookup_insert_eq.
    + intros k' l Hk'. rewrite lookup_insert_ne; [done | congruence].
    + discriminate.
Qed.

Lemma norms_with_cache_nonempty k sub2ind (f : files) (g : rng) :
  caches_nonempty f → sub2ind ≠ [] →
  (norms_with_cache k sub2ind f g).1.1 ≠ []
  ∧ caches_nonempty (norms_with_cache k sub2ind f g).2.
Proof.
  intros Hf Hs. unfold norms_with_cache.
  destruct (norms f !! k) as [l|] eqn:Hk; cbn.
  - split; [by eapply Hf | exact Hf].
  - pose proof (norms_from_length sub2ind g) as Hlen.
    destruct (norms_from sub2ind g) as [normA g']. cbn in *.
    assert (normA ≠ []) as Hne.
    { intros ->. destruct sub2ind; [done | discriminate]. }
    split; [exact Hne |].
    intros k' l. cbn. rewrite lookup_insert.
    case_decide; [by intros [= <-] | apply Hf].
Qed.

Lemma iter_save_of_returns (n : nat) :
  0 < n → iter_save_of n = Ret (map (λ i, i * n) (seq 0 (nepoch + 1))).
Proof.
  intros Hn. unfold iter_save_of, py_range, niter_of.
  destruct n as [|n]; [lia |]. do 3 f_equal.
  replace (nepoch * S n + 1 + S n - 1) with ((nepoch + 1) * S n) by lia.
  apply Nat.div_mul. lia.
Qed.

Lemma select_solver_returns (alg : string) (n : nat) (e : env float) :
  dict_get nsub alg = Ret n → ∃ step, select_solver alg e = Ret step.
Proof.
  intros Hn.
  destruct (nsub_names alg n Hn)
    as [[-> ->]|[[-> ->]|[[-> ->]|[[-> ->]|[-> ->]]]]]; eexists; reflexivity.
Qed.

Lemma select_solver_same (alg : string) (e e' : env float) :
  same_parameters e e' → select_solver alg e = select_solver alg e'.
Proof.
  intros (Hp & Hs & Ht & Hth & _). unfold select_solver.
  by rewrite Hp, Hs, Ht, Hth.
Qed.

(** After the reset of line 240 the parameters chosen do not depend on what
    the variables held before. *)
Lemma choose_parameters_cleared (mu_f : float) alg n normA (e e' : env float) :
  match choose_parameters rho mu_f mu_g mu_i alg n Y_size normA
                          (clear_variables e),
        choose_parameters rho mu_f mu_g mu_i alg n Y_size normA
                          (clear_variables e') with
  | Ret e1, Ret e2 => same_parameters e1 e2
  | Raise x1, Raise x2 => x1 = x2
  | _, _ => False
  end.
Proof.
  unfold choose_parameters, choose_pdhg, choose_spdhg, choose_pesquet.
  destruct (String.eqb alg "pdhg").
  { destruct (py_index normA 0); cbn; [by repeat split | done]. }
  destruct (String.prefix "spdhg" alg).
  { destruct (py_max _); cbn; [| done].
    destruct (one_over n); cbn; [by repeat split | done]. }
  destruct (String.prefix "pesquet" alg); [| done].
  destruct (one_over n); cbn; [| done].
  destruct (py_index normA 0); cbn; [by repeat split | done].
Qed.

(** With its inputs in place the calibration of each of the five variants
    returns, with a list as [prob_subset]; for the Pesquet-Repetti variants
    [theta] keeps the [None] of the reset. *)
Lemma choose_parameters_returns (mu_f : float) alg n normA (e0 : env float) :
  dict_get nsub alg = Ret n → normA ≠ [] → mu_i ≠ [] →
  ∃ e p,
    choose_parameters rho mu_f mu_g mu_i alg n Y_size normA
                      (clear_variables e0) = Ret e
    ∧ prob_subset e = PList p
    ∧ (String.prefix "pesquet" alg = true → theta e = PNone)
    ∧ (String.prefix "pesquet" alg = false → ∃ x, theta e = PNum x).
Proof.
  intros Hn Ha Hm.
  destruct normA as [|a0 normA]; [done |].
  destruct mu_i as [|m0 ms] eqn:Hmu; [done |].
  destruct (nsub_names alg n Hn)
    as [[-> ->]|[[-> ->]|[[-> ->]|[[-> ->]|[-> ->]]]]];
    eexists _, _; (split; [reflexivity |]); (split; [reflexivity |]);
    (split; [solve [discriminate | reflexivity] |]);
    solve [discriminate | intros _; eexists; reflexivity].
Qed.

Lemma choose_parameters_prob_subset (mu_f : float) alg n normA
    (e0 e : env float) :
  dict_get nsub alg = Ret n →
  choose_parameters rho mu_f mu_g mu_i alg n Y_size normA e0 = Ret e →
  ∃ p, prob_subset e = PList p.
Proof.
  intros Hn.
  destruct (nsub_names alg n Hn)
    as [[-> ->]|[[-> ->]|[[-> ->]|[[-> ->]|[-> ->]]]]].
  - rewrite choose_parameters_pdhg. unfold choose_pdhg.
    destruct (py_index normA 0); cbn; [| discriminate].
    intros [= <-]. eauto.
  - rewrite choose_parameters_spdhg by reflexivity. unfold choose_spdhg.
    destruct (py_max _); cbn; [| discriminate]. intros [= <-]. eauto.
  - rewrite choose_parameters_spdhg by reflexivity. unfold choose_spdhg.
    destruct (py_max _); cbn; [| discriminate]. intros [= <-]. eauto.
  - rewrite choose_parameters_pesquet by reflexivity. unfold choose_pesquet.
    cbn. destruct (py_index normA 0); cbn; [| discriminate].
    intros [= <-]. eauto.
  - rewrite choose_parameters_pesquet by reflexivity. unfold choose_pesquet.
    cbn. destruct (py_index normA 0); cbn; [| discriminate].
    intros [= <-]. eauto.
Qed.


Lemma nsub_positive (alg : string) (n : nat) :
  dict_get nsub alg = Ret n → 0 < n.
Proof.
  intros Hn.
  destruct (nsub_names alg n Hn)
    as [[-> ->]|[[-> ->]|[[-> ->]|[[-> ->]|[-> ->]]]]]; lia.
Qed.

Lemma sub2ind_nonempty (n : nat) : 0 < n → sub2ind_of Y_size n ≠ [].
Proof.
  intros Hn Hnil. pose proof (sub2ind_length Y_size n) as Hlen.
  rewrite Hnil in Hlen. cbn in Hlen. lia.
Qed.

(** One pass of the loop in closed form: with the saddle point defined, no
    empty norm file and at least one data term, the pass returns; the
    indices it selects are those drawn from the source left by the seeding
    and the norm estimation, and the bundle it saves is the one shown. *)
Lemma run_alg_returns (mu_f : float) (alg : string) (n : nat) (w : world)
    (t : target) :
  dict_get nsub alg = Ret n →
  saddle w = Some t →
  caches_nonempty (fs w) →
  mu_i ≠ [] →
  let sub2ind := sub2ind_of Y_size n in
  let r := norms_with_cache (norm_key alg n) sub2ind (fs w)
                            (np_random_seed seed_value) in
  let iter_save := map (λ i, i * n) (seq 0 (nepoch + 1)) in
  let cb := callback_call t iter_save in
  ∃ e p step s c g',
    choose_parameters rho mu_f mu_g mu_i alg n Y_size r.1.1
                      (clear_variables (vars w)) = Ret e
    ∧ prob_subset e = PList p
    ∧ select_solver alg e = Ret step
    ∧ solver_loop_on step n p sub2ind cb (niter_of n) 0
        (solver_init X_zero Y_zero)
        (cb X_zero Y_zero {| cb_iter := 0; cb_out := [] |}) [] r.1.2
      = Ret (s, c, draws n p (niter_of n) r.1.2, g')
    ∧ run_alg mu_f alg w
      = Ret (draws n p (niter_of n) r.1.2,
             {| fs := {| norms := norms r.2;
                         target_file := target_file r.2;
                         outputs :=
                           <[alg := {| b_iter_save := iter_save;
                                       b_niter := niter_of n;
                                       b_x := (solver_xy s).1;
                                       b_out := cb_out c;
                                       b_nsub := n;
                                       b_theta := theta e |}]>
                             (outputs r.2) |};
                gen := g'; vars := e;
                file_normA := Some (norm_key alg n);
                saddle := Some t |}).
Proof.
  intros Hn Ht Hc Hmu sub2ind r iter_save cb.
  pose proof (nsub_positive alg n Hn) as Hpos.
  destruct (norms_with_cache_nonempty (norm_key alg n) sub2ind (fs w)
              (np_random_seed seed_value) Hc (sub2ind_nonempty n Hpos))
    as [Hne _].
  fold r in Hne.
  destruct (choose_parameters_returns mu_f alg n r.1.1 (vars w) Hn Hne Hmu)
    as (e & p & He & Hp & _).
  destruct (select_solver_returns alg n e Hn) as [step Hstep].
  destruct (solver_loop_on_returns step n p sub2ind cb (niter_of n) Hpos
              (sub2ind_length Y_size n) 0 (solver_init X_zero Y_zero)
              (cb X_zero Y_zero {| cb_iter := 0; cb_out := [] |}) [] r.1.2)
    as (s & c & g' & Hloop).
  rewrite app_nil_l in Hloop.
  exists e, p, step, s, c, g'.
  split; [exact He |]. split; [exact Hp |]. split; [exact Hstep |].
  split; [exact Hloop |].
  unfold run_alg. unfold mbind at 1, prog_bind.
  rewrite (configure_run_unfold mu_f alg n w Hn). cbv zeta.
  fold sub2ind. fold r.
  destruct r as [[normA g] f] eqn:Hr. cbn [fst snd] in *.
  rewrite He.
  rewrite (solve_run_unfold alg n sub2ind _ t p iter_save step);
    [| exact Ht | by apply iter_save_of_returns | exact Hp | exact Hstep].
  cbv zeta. cbn [gen fs vars file_normA saddle]. fold cb.
  rewrite Hloop. by rewrite Ht.
Qed.


(** A pass that gets as far as the solver, in closed form. *)
Lemma run_alg_unfold (mu_f : float) (alg : string) (n : nat) (w : world)
    (t : target) (e : env float) :
  dict_get nsub alg = Ret n →
  saddle w = Some t →
  let sub2ind := sub2ind_of Y_size n in
  let r := norms_with_cache (norm_key alg n) sub2ind (fs w)
                            (np_random_seed seed_value) in
  let iter_save := map (λ i, i * n) (seq 0 (nepoch + 1)) in
  let cb := callback_call t iter_save in
  choose_parameters rho mu_f mu_g mu_i alg n Y_size r.1.1
                    (clear_variables (vars w)) = Ret e →
  ∃ p step,
    prob_subset e = PList p
    ∧ select_solver alg e = Ret step
    ∧ run_alg mu_f alg w
      = match solver_loop_on step n p sub2ind cb (niter_of n) 0
                (solver_init X_zero Y_zero)
                (cb X_zero Y_zero {| cb_iter := 0; cb_out := [] |}) [] r.1.2
        with
        | Ret (s, c, log, g') =>
            Ret (log,
                 {| fs := {| norms := norms r.2;
                             target_file := target_file r.2;
                             outputs :=
                               <[alg := {| b_iter_save := iter_save;
                                           b_niter := niter_of n;
                                           b_x := (solver_xy s).1;
                                           b_out := cb_out c;
                                           b_nsub := n;
                                           b_theta := theta e |}]>
                                 (outputs r.2) |};
                    gen := g'; vars := e;
                    file_normA := Some (norm_key alg n);
                    saddle := Some t |})
        | Raise x => Raise x
        end.
Proof.
  intros Hn Ht sub2ind r iter_save cb He.
  destruct (choose_parameters_prob_subset mu_f alg n _ _ e Hn He) as [p Hp].
  destruct (select_solver_returns alg n e Hn) as [step Hstep].
  exists p, step. split; [exact Hp |]. split; [exact Hstep |].
  unfold run_alg. unfold mbind at 1, prog_bind.
  rewrite (configure_run_unfold mu_f alg n w Hn). cbv zeta.
  fold sub2ind. fold r.
  destruct r as [[normA g] f] eqn:Hr. cbn [fst snd] in *.
  rewrite He.
  rewrite (solve_run_unfold alg n sub2ind _ t p iter_save step);
    [| exact Ht | by apply iter_save_of_returns, (nsub_positive alg)
     | exact Hp | exact Hstep].
  cbv zeta. cbn [gen fs vars file_normA saddle]. fold cb.
  by rewrite Ht.
Qed.

Lemma run_alg_unknown (mu_f : float) (alg : string) (w : world) (x : exn) :
  dict_get nsub alg = Raise x → run_alg mu_f alg w = Raise x.
Proof.
  intros Hn. unfold run_alg, configure_run.
  unfold mbind at 1, prog_bind. unfold mbind at 1, prog_bind, get_vars.
  unfold mbind at 1, prog_bind, set_vars.
  unfold mbind at 1, prog_bind, lift. by rewrite Hn.
Qed.

Lemma run_alg_not_configured (mu_f : float) (alg : string) (n : nat)
    (w : world) (x : exn) :
  dict_get nsub alg = Ret n →
  choose_parameters rho mu_f mu_g mu_i alg n Y_size
    (norms_with_cache (norm_key alg n) (sub2ind_of Y_size n) (fs w)
                      (np_random_seed seed_value)).1.1
    (clear_variables (vars w)) = Raise x →
  run_alg mu_f alg w = Raise x.
Proof.
  intros Hn He. unfold run_alg. unfold mbind at 1, prog_bind.
  rewrite (configure_run_unfold mu_f alg n w Hn). cbv zeta.
  destruct (norms_with_cache _ _ _ _) as [[normA g] f]. cbn [fst] in He.
  by rewrite He.
Qed.

Lemma run_alg_no_saddle (mu_f : float) (alg : string) (n : nat)
    (w : world) (e : env float) :
  dict_get nsub alg = Ret n →
  saddle w = None →
  choose_parameters rho mu_f mu_g mu_i alg n Y_size
    (norms_with_cache (norm_key alg n) (sub2ind_of Y_size n) (fs w)
                      (np_random_seed seed_value)).1.1
    (clear_variables (vars w)) = Ret e →
  run_alg mu_f alg w = Raise NameError.
Proof.
  intros Hn Ht He. unfold run_alg. unfold mbind at 1, prog_bind.
  rewrite (configure_run_unfold mu_f alg n w Hn). cbv zeta.
  destruct (norms_with_cache _ _ _ _) as [[normA g] f]. cbn [fst] in He.
  rewrite He. unfold solve_run.
  unfold mbind at 1, prog_bind, get_saddle. cbn [saddle]. by rewrite Ht.
Qed.

(** No pass writes the target or rebinds the saddle-point variables, and a
    norm file, once written, keeps its contents. *)
Lemma run_alg_frame (mu_f : float) (alg : string) (w w' : world)
    (log : list nat) :
  run_alg mu_f alg w = Ret (log, w') →
  saddle w' = saddle w
  ∧ target_file (fs w') = target_file (fs w)
  ∧ (∀ k l, norms (fs w) !! k = Some l → norms (fs w') !! k = Some l).
Proof.
  intros Hrun.
  destruct (dict_get nsub alg) as [n|x] eqn:Hn;
    [| by rewrite (run_alg_unknown _ _ _ _ Hn) in Hrun].
  destruct (choose_parameters rho mu_f mu_g mu_i alg n Y_size
              (norms_with_cache (norm_key alg n) (sub2ind_of Y_size n) (fs w)
                 (np_random_seed seed_value)).1.1
              (clear_variables (vars w))) as [e|x] eqn:He;
    [| by rewrite (run_alg_not_configured _ _ _ _ _ Hn He) in Hrun].
  destruct (saddle w) as [t|] eqn:Ht;
    [| by rewrite (run_alg_no_saddle _ _ _ _ _ Hn Ht He) in Hrun].
  destruct (run_alg_unfold mu_f alg n w t e Hn Ht He)
    as (p & step & _ & _ & Heq).
  rewrite Heq in Hrun. clear Heq.
  destruct (solver_loop_on _ _ _ _ _ _ _ _ _ _ _) as [[[[s c] lg] g']|x];
    [| discriminate].
  injection Hrun as _ <-. cbn [saddle fs target_file norms].
  destruct (norms_with_cache_frame (norm_key alg n) (sub2ind_of Y_size n)
              (fs w) (np_random_seed seed_value)) as (Htf & _ & _ & Hmono & _).
  auto.
Qed.


Lemma run_algs_frame (mu_f : float) (l : list string) :
  ∀ (w w' : world) (logs : list (list nat)),
    run_algs mu_f l w = Ret (logs, w') →
    saddle w' = saddle w
    ∧ target_file (fs w') = target_file (fs w)
    ∧ (∀ k normA, norms (fs w) !! k = Some normA →
                  norms (fs w') !! k = Some normA).
Proof.
  induction l as [|alg l IH]; intros w w' logs Hrun.
  - injection Hrun as _ <-. auto.
  - cbn [run_algs] in Hrun. unfold mbind at 1, prog_bind in Hrun.
    destruct (run_alg mu_f alg w) as [[log w1]|x] eqn:H1; [| discriminate].
    unfold mbind at 1, prog_bind in Hrun.
    destruct (run_algs mu_f l w1) as [[logs' w2]|x] eqn:H2; [| discriminate].
    injection Hrun as _ <-.
    destruct (run_alg_frame _ _ _ _ _ H1) as (Hs1 & Ht1 & Hn1).
    destruct (IH _ _ _ H2) as (Hs2 & Ht2 & Hn2).
    split; [congruence |]. split; [congruence | auto].
Qed.

Lemma analyse_frame (w w' : world) res :
  analyse w = Ret (res, w') → w' = w.
Proof.
  unfold analyse. unfold mbind at 1, prog_bind, get_fs.
  unfold mbind at 1, prog_bind, get_saddle.
  destruct (saddle w) as [t|]; [| discriminate].
  unfold mbind at 1, prog_bind, lift.
  destruct (load_outputs (fs w)) as [ld|]; [| discriminate].
  unfold lift.
  destruct (post_process (obj_opt t) ld); [| discriminate].
  by intros [= _ <-].
Qed.

(** ** The saddle-point target *)

(** C7.  Without a cached target the harness computes the saddle point by
    one run of the reference PDHG solver over [niter_target = 2000]
    iterations from zero, with the step sizes of the deterministic variant,
    and saves the bundle [(x_opt, y_opt, -A.adjoint(y_opt), A(x_opt),
    obj_fun(x_opt))]; with
    a cached target it loads the bundle and computes nothing.  The passes
    over the algorithms and the analysis leave the saddle-point variables
    and the target file as they are. *)
Theorem target_is_computed_once (mu_f : float) :
  (∀ w : world,
     target_file (fs w) = None → caches_nonempty (fs w) →
     ∃ normA g k s t th x y w',
       (norms (fs w) !! 1 = Some normA ∧ g = gen w
        ∨ norms (fs w) !! 1 = None
          ∧ normA = [PrimFloat.mul tol_norm (A_norm_estimate (gen w)).1]
          ∧ g = (A_norm_estimate (gen w)).2)
       ∧ target_step_sizes rho mu_f mu_g normA = Ret (k, s, t, th)
       ∧ niter_target = 2000
       ∧ odl_pdhg niter_target t s th X_zero Y_zero = (x, y)
       ∧ target_stage mu_f w = Ret (tt, w')
       ∧ saddle w' = Some {| x_opt := x; y_opt := y;
                             subx_opt := X_neg (A_adjoint y);
                             suby_opt := A_apply x;
                             obj_opt := obj_fun x |}
       ∧ target_file (fs w') = saddle w'
       ∧ gen w' = g)
  ∧ (∀ (w : world) (t : target),
       target_file (fs w) = Some t →
       target_stage mu_f w = Ret (tt, put_saddle t w))
  ∧ (∀ (l : list string) (w w' : world) logs,
       run_algs mu_f l w = Ret (logs, w') →
       saddle w' = saddle w ∧ target_file (fs w') = target_file (fs w))
  ∧ (∀ (w w' : world) res, analyse w = Ret (res, w') → w' = w).
Proof.
  split; [| split; [| split]].
  - intros [f g e fk sd] Hnone Hc. cbn [fs gen] in *.
    unfold target_stage.
    unfold mbind at 1, prog_bind, get_fs. cbn [fs]. rewrite Hnone.
    unfold mbind at 1, prog_bind, set_file_normA.
    unfold mbind at 1, prog_bind, load_norms.
    unfold mbind at 1 2, prog_bind, get_fs. cbn [mret prog_ret fs put_file_normA].
    destruct (norms f !! 1) as [normA|] eqn:Hk.
    + destruct normA as [|a0 rest]; [by destruct (Hc _ _ Hk) |].
      destruct (odl_pdhg niter_target
                  (sc_int 1 / ((kappa_of rho mu_g a0 mu_f - sc_int 1) * mu_g))%sc
                  (sc_int 1 / ((kappa_of rho mu_g a0 mu_f - sc_int 1) * mu_f))%sc
                  (sc_int 1 - sc_int 2 / (sc_int 1 + kappa_of rho mu_g a0 mu_f))%sc
                  X_zero Y_zero) as [x y] eqn:Hxy.
      eexists (a0 :: rest), g, _, _, _, _, x, y, _.
      split; [by left |]. split; [reflexivity |]. split; [reflexivity |].
      split; [exact Hxy |].
      split.
      { unfold mbind at 1, prog_bind. cbn [mret prog_ret].
        unfold mbind at 1, prog_bind, lift. cbn [target_step_sizes py_index
          lookup list_lookup mbind py_bind].
        unfold mbind at 1, prog_bind, get_vars.
        unfold mbind at 1, prog_bind, set_vars.
        rewrite Hxy. reflexivity. }
      by repeat split.
    + destruct (A_norm_estimate g) as [v g'] eqn:Hv.
      set (a0 := PrimFloat.mul tol_norm v).
      destruct (odl_pdhg niter_target
                  (sc_int 1 / ((kappa_of rho mu_g a0 mu_f - sc_int 1) * mu_g))%sc
                  (sc_int 1 / ((kappa_of rho mu_g a0 mu_f - sc_int 1) * mu_f))%sc
                  (sc_int 1 - sc_int 2 / (sc_int 1 + kappa_of rho mu_g a0 mu_f))%sc
                  X_zero Y_zero) as [x y] eqn:Hxy.
      eexists [a0], g', _, _, _, _, x, y, _.
      split; [by right |]. split; [reflexivity |].
      split; [reflexivity |]. split; [exact Hxy |].
      split.
      { unfold mbind at 1, prog_bind.
        unfold mbind at 1, prog_bind, with_rng.
        cbn [gen put_file_normA]. rewrite Hv.
        unfold mbind at 1, prog_bind, save_norms.
        unfold mbind at 1, prog_bind, get_fs. cbn [mret prog_ret set_fs].
        unfold mbind at 1, prog_bind, lift. fold a0.
        cbn [target_step_sizes py_index lookup list_lookup mbind py_bind].
        unfold mbind at 1, prog_bind, get_vars.
        unfold mbind at 1, prog_bind, set_vars.
        rewrite Hxy. reflexivity. }
      by repeat split.
  - intros w t Ht. unfold target_stage.
    unfold mbind at 1, prog_bind, get_fs. by rewrite Ht.
  - intros l w w' logs Hrun.
    destruct (run_algs_frame mu_f l w w' logs Hrun) as (? & ? & _). auto.
  - apply analyse_frame.
Qed.


(** ** The Pesquet-Repetti variant *)

(** C3.  For the non-accelerated Pesquet-Repetti variants the calibrator
    reads the norm file of the 1-subset case although [n > 1], and with
    [normA[0]] the first norm of that file it sets [sigma_i = rho/normA[0]]
    for every block, [tau = rho/normA[0]], [p_i = 1/n], and leaves [theta]
    at the [None] of the reset.  That file is in place whenever the variant
    is configured in the script: the pass of the deterministic variant, which
    runs first, leaves it behind, holding the single norm estimate of the
    1-subset partition if it had to be computed, and no pass changes a norm
    file that exists. *)
Theorem pesquet_step_sizes (mu_f : float) :
  (∀ (alg : string) (n : nat) (w : world) (a0 : float) (rest : list float),
     (alg = "pesquet_uni10" ∧ n = 10) ∨ (alg = "pesquet_uni50" ∧ n = 50) →
     norms (fs w) !! 1 = Some (a0 :: rest) →
     let p := (1 / sc_int (Z.of_nat n))%float in
     ∃ w',
       configure_run mu_f alg w = Ret ((n, sub2ind_of Y_size n), w')
       ∧ fs w' = fs w
       ∧ file_normA w' = Some 1
       ∧ sigma (vars w') = PList (replicate Y_size (rho / a0)%float)
       ∧ tau (vars w') = PNum (rho / a0)%float
       ∧ prob_subset (vars w') = PList (replicate n p)
       ∧ prob (vars w') = PList (replicate Y_size p)
       ∧ theta (vars w') = PNone)
  ∧ (∀ (w : world) (t : target),
       saddle w = Some t → caches_nonempty (fs w) → mu_i ≠ [] →
       ∃ log w' normA,
         run_alg mu_f "pdhg" w = Ret (log, w')
         ∧ norms (fs w') !! 1 = Some normA
         ∧ (norms (fs w) !! 1 = None →
            normA = (norms_from (sub2ind_of Y_size 1)
                                (np_random_seed seed_value)).1
            ∧ length normA = 1))
  ∧ (∀ (alg : string) (w w' : world) log k normA,
       run_alg mu_f alg w = Ret (log, w') →
       norms (fs w) !! k = Some normA → norms (fs w') !! k = Some normA).
Proof.
  split; [| split].
  - intros alg n w a0 rest Halg Hk p.
    assert (dict_get nsub alg = Ret n ∧ norm_key alg n = 1
            ∧ String.prefix "pesquet" alg = true) as (Hn & Hkey & Hp).
    { destruct Halg as [[-> ->]|[-> ->]]; by repeat split. }
    rewrite (configure_run_unfold mu_f alg n w Hn). cbv zeta.
    rewrite Hkey.
    destruct (norms_with_cache_frame 1 (sub2ind_of Y_size n) (fs w)
                (np_random_seed seed_value)) as (_ & _ & _ & _ & Hr).
    rewrite (Hr _ Hk).
    rewrite (choose_parameters_pesquet _ _ _ _ _ _ _ _ _ Hp).
    assert (one_over (T:=float) n = Ret p) as Hone.
    { destruct Halg as [[_ ->]|[_ ->]]; reflexivity. }
    unfold choose_pesquet. rewrite Hone. cbn [mbind py_bind py_index
      lookup list_lookup].
    eexists. split; [reflexivity |]. by repeat split.
  - intros w t Ht Hc Hmu.
    destruct (run_alg_returns mu_f "pdhg" 1 w t eq_refl Ht Hc Hmu)
      as (e & p & step & s & c & g' & _ & _ & _ & _ & Hrun).
    destruct (norms_with_cache_frame (norm_key "pdhg" 1)
                (sub2ind_of Y_size 1) (fs w) (np_random_seed seed_value))
      as (_ & _ & Hin & _ & _).
    eexists _, _, _. split; [exact Hrun |]. split; [exact Hin |].
    intros Hnone. unfold norms_with_cache.
    change (norm_key "pdhg" 1) with 1. rewrite Hnone.
    pose proof (norms_from_length (sub2ind_of Y_size 1)
                  (np_random_seed seed_value)) as Hlen.
    rewrite sub2ind_length in Hlen.
    destruct (norms_from _ _) as [normA g0]. by split.
  - intros alg w w' log k normA Hrun Hk.
    destruct (run_alg_frame mu_f alg w w' log Hrun) as (_ & _ & Hmono).
    auto.
Qed.

(** C9.  For the Pesquet-Repetti variants the slot of the extrapolation
    parameter in the saved bundle [(iter_save, niter, x, trace, nsub, theta)]
    holds [None], whatever [theta] was before the pass: the reset sets it to
    [None] and the parameter branch does not assign it.  For the other
    variants the slot holds a number. *)
Theorem pesquet_bundle_theta_is_none (mu_f : float) (alg : string) (n : nat)
    (w : world) (t : target) :
  dict_get nsub alg = Ret n →
  saddle w = Some t → caches_nonempty (fs w) → mu_i ≠ [] →
  ∃ log w' b,
    run_alg mu_f alg w = Ret (log, w')
    ∧ outputs (fs w') !! alg = Some b
    ∧ b_nsub b = n ∧ b_niter b = niter_of n
    ∧ theta (clear_variables (vars w)) = PNone
    ∧ (String.prefix "pesquet" alg = true →
       b_theta b = PNone ∧ theta (vars w') = PNone)
    ∧ (String.prefix "pesquet" alg = false → ∃ x, b_theta b = PNum x).
Proof.
  intros Hn Ht Hc Hmu.
  destruct (run_alg_returns mu_f alg n w t Hn Ht Hc Hmu)
    as (e & p & step & s & c & g' & He & _ & _ & _ & Hrun).
  pose proof (nsub_positive alg n Hn) as Hpos.
  destruct (norms_with_cache_nonempty (norm_key alg n) (sub2ind_of Y_size n)
              (fs w) (np_random_seed seed_value) Hc
              (sub2ind_nonempty n Hpos)) as [Hne _].
  destruct (choose_parameters_returns mu_f alg n _ (vars w) Hn Hne Hmu)
    as (e' & p' & He' & _ & Hpes & Hacc).
  rewrite He in He'. injection He' as <-.
  eexists _, _, _. split; [exact Hrun |].
  cbn [fs outputs vars]. split; [apply lookup_insert_eq |].
  cbn [b_nsub b_niter b_theta]. repeat split; auto.
Qed.

(** ** Reproducibility *)

(** C5.  Every pass re-seeds the random source with the seed 1807 before
    anything is drawn, and the subsets of the iterations are drawn from it
    through [fun_select].  Hence two executions of a pass that start from the same
    files and the same saddle point, whatever the state of the random source
    and of the variables, select the same sequence of subsets and save the
    same files, or fail alike; and with its inputs in place the pass does
    return, its selections being the [niter] indices drawn from the source
    as the seeding (and the norm estimation, when no norm file is cached)
    left it. *)
Theorem selection_is_reproducible (mu_f : float) (alg : string)
    (w1 w2 : world) :
  fs w1 = fs w2 → saddle w1 = saddle w2 →
  match run_alg mu_f alg w1, run_alg mu_f alg w2 with
  | Ret (log1, w1'), Ret (log2, w2') =>
      log1 = log2 ∧ fs w1' = fs w2' ∧ gen w1' = gen w2'
      ∧ same_parameters (vars w1') (vars w2')
  | Raise x1, Raise x2 => x1 = x2
  | _, _ => False
  end
  ∧ (∀ (n : nat) (t : target),
       dict_get nsub alg = Ret n →
       saddle w1 = Some t → caches_nonempty (fs w1) → mu_i ≠ [] →
       ∃ p log w1',
         run_alg mu_f alg w1 = Ret (log, w1')
         ∧ prob_subset (vars w1') = PList p
         ∧ log = draws n p (niter_of n)
                   (norms_with_cache (norm_key alg n) (sub2ind_of Y_size n)
                      (fs w1) (np_random_seed 1807%Z)).1.2
         ∧ (is_Some (norms (fs w1) !! norm_key alg n) →
            log = draws n p (niter_of n) (np_random_seed 1807%Z))).
Proof.
  change 1807%Z with seed_value.
  intros Hfs Hsd. split.
  - destruct w2 as [f2 g2 v2 k2 s2]. cbn [fs saddle] in Hfs, Hsd.
    subst f2 s2.
    set (w2 := {| fs := fs w1; gen := g2; vars := v2; file_normA := k2;
                  saddle := saddle w1 |}).
    destruct (dict_get nsub alg) as [n|x] eqn:Hn;
      [| by rewrite !(run_alg_unknown _ _ _ _ Hn)].
    pose proof (choose_parameters_cleared mu_f alg n
                  (norms_with_cache (norm_key alg n) (sub2ind_of Y_size n)
                     (fs w1) (np_random_seed seed_value)).1.1
                  (vars w1) v2) as Hch.
    destruct (choose_parameters _ _ _ _ _ _ _ _ (clear_variables (vars w1)))
      as [e1|x1] eqn:He1;
      destruct (choose_parameters _ _ _ _ _ _ _ _ (clear_variables v2))
      as [e2|x2] eqn:He2; try done.
    2:{ rewrite (run_alg_not_configured mu_f alg n w1 x1 Hn He1).
        by rewrite (run_alg_not_configured mu_f alg n w2 x2 Hn He2). }
    destruct (saddle w1) as [t|] eqn:Ht.
    2:{ rewrite (run_alg_no_saddle mu_f alg n w1 e1 Hn Ht He1).
        by rewrite (run_alg_no_saddle mu_f alg n w2 e2 Hn eq_refl He2). }
    destruct (run_alg_unfold mu_f alg n w1 t e1 Hn Ht He1)
      as (p1 & step1 & Hp1 & Hs1 & ->).
    destruct (run_alg_unfold mu_f alg n w2 t e2 Hn eq_refl He2)
      as (p2 & step2 & Hp2 & Hs2 & ->).
    cbn [fs w2].
    assert (p2 = p1) as ->.
    { destruct Hch as (_ & _ & _ & _ & Hps). congruence. }
    assert (step2 = step1) as ->.
    { rewrite (select_solver_same alg e1 e2 Hch) in Hs1. congruence. }
    destruct (solver_loop_on _ _ _ _ _ _ _ _ _ _ _) as [[[[s c] lg] g']|x];
      [| done].
    cbn [fs gen vars]. destruct Hch as (? & ? & ? & Hth & ?).
    rewrite Hth. by repeat split.
  - intros n t Hn Ht Hc Hmu.
    destruct (run_alg_returns mu_f alg n w1 t Hn Ht Hc Hmu)
      as (e & p & step & s & c & g' & _ & Hp & _ & _ & Hrun).
    eexists p, _, _. split; [exact Hrun |]. split; [exact Hp |].
    split; [reflexivity |].
    intros [l Hl].
    destruct (norms_with_cache_frame (norm_key alg n) (sub2ind_of Y_size n)
                (fs w1) (np_random_seed seed_value)) as (_ & _ & _ & _ & Hr).
    by rewrite (Hr _ Hl).
Qed.

End HarnessProperties.

(** ** Post-processing *)

Section AnalysisProperties.
Context `{Collaborators}.

(** Filling an array entry by entry. *)
Lemma fill_loop (item : nat → py float) (g : nat → float) (m : nat) :
  ∀ (a : nat) (arr : list float),
    a + m ≤ length arr →
    (∀ k, a ≤ k < a + m → item k = Ret (g k)) →
    for_each (seq a m) (λ k arr, v ← item k; Ret (<[k := v]> arr)) arr
    = Ret (take a arr ++ map g (seq a m) ++ drop (a + m) arr).
Proof.
  induction m as [|m IH]; intros a arr Hlen Hitem.
  - cbn. by rewrite Nat.add_0_r, take_drop.
  - cbn [seq for_each]. rewrite (Hitem a) by lia. cbn [mbind py_bind].
    rewrite IH; [| rewrite length_insert; lia | intros; apply Hitem; lia].
    f_equal.
    destruct (lookup_lt_is_Some_2 arr a) as [x Hx]; [lia |].
    rewrite (take_S_r (<[a := g a]> arr) a (g a))
      by (apply list_lookup_insert_eq; lia).
    rewrite take_insert_ge by lia.
    rewrite drop_insert_lt by lia.
    replace (a + S m) with (S a + m) by lia.
    cbn [map]. by rewrite <- app_assoc.
Qed.

Lemma fill_spec (K : nat) (item : nat → py float) (g : nat → float) :
  (∀ k, k < K → item k = Ret (g k)) →
  fill K item = Ret (map g (seq 0 K)).
Proof.
  intros Hitem. unfold fill.
  rewrite (fill_loop item g K 0);
    [| rewrite length_replicate; lia | intros; apply Hitem; lia].
  rewrite take_0, drop_ge by (rewrite length_replicate; lia).
  by rewrite app_nil_l, app_nil_r.
Qed.

Lemma map_seq_lookup {A B} (l : list A) (f : A → B) (d : A) :
  map (λ k, f (nth k l d)) (seq 0 (length l)) = map f l.
Proof.
  induction l as [|x l IH]; [reflexivity |].
  cbn [length seq map nth]. f_equal.
  rewrite <- seq_shift, map_map. exact IH.
Qed.

(** The clamping loop over the first [K] entries of an array. *)
Lemma clamp_loop (m : nat) :
  ∀ (a : nat) (arr : list float),
    a + m ≤ length arr →
    for_each (seq a m)
      (λ k arr, v ← py_index arr k;
                Ret (if PrimFloat.leb v 0 then <[k := nan]> arr else arr))
      arr
    = Ret (take a arr ++ map clamp (take m (drop a arr)) ++ drop (a + m) arr).
Proof.
  induction m as [|m IH]; intros a arr Hlen.
  - cbn [seq for_each take map]. rewrite Nat.add_0_r, app_nil_l.
    by rewrite take_drop.
  - cbn [seq for_each].
    destruct (lookup_lt_is_Some_2 arr a) as [v Hv]; [lia |].
    rewrite (py_index_lookup _ _ _ Hv). cbn [mbind py_bind].
    assert ((if PrimFloat.leb v 0 then <[a := nan]> arr else arr)
            = <[a := clamp v]> arr) as ->.
    { unfold clamp. destruct (PrimFloat.leb v 0); [done |].
      symmetry. by apply list_insert_id. }
    rewrite IH by (rewrite length_insert; lia).
    f_equal.
    rewrite (take_S_r (<[a := clamp v]> arr) a (clamp v))
      by (apply list_lookup_insert_eq; lia).
    rewrite take_insert_ge by lia.
    rewrite !drop_insert_lt by lia.
    rewrite (drop_S arr v a Hv).
    replace (a + S m) with (S a + m) by lia.
    cbn [take map]. by rewrite <- app_assoc.
Qed.

Lemma clamp_array_spec (K : nat) (arr : list float) :
  length arr = K → clamp_array K arr = Ret (map clamp arr).
Proof.
  intros <-. unfold clamp_array. rewrite clamp_loop by lia.
  rewrite Nat.add_0_l, take_0, drop_0, firstn_all, drop_all.
  by rewrite app_nil_l, app_nil_r.
Qed.


Lemma true_divide_returns (a b : float) :
  numpy_scalars = true ∨ PrimFloat.eqb b 0 = false →
  true_divide a b = Ret (PrimFloat.div a b).
Proof.
  unfold true_divide. intros [-> | Hb]; [reflexivity |].
  rewrite Hb. by destruct numpy_scalars.
Qed.

(** Filling an array from the stored measurements. *)
Lemma fill_samples (samples : list sample) (q : dict float → py float)
    (f : sample → float) :
  (∀ s, s ∈ samples → q (sample_dict s) = Ret (f s)) →
  fill (length samples)
       (λ k, r ← py_index (map sample_dict samples) k; q r)
  = Ret (map f samples).
Proof.
  intros Hq. destruct samples as [|s0 rest]; [reflexivity |].
  set (samples := s0 :: rest) in *.
  rewrite (fill_spec _ _ (λ k, f (nth k samples s0))).
  - by rewrite map_seq_lookup.
  - intros k Hk.
    assert (samples !! k = Some (nth k samples s0)) as Hl
      by (destruct (nth_lookup_or_length samples k s0); [done | lia]).
    rewrite (py_index_lookup _ k (sample_dict (nth k samples s0)))
      by (by rewrite list_lookup_fmap, Hl).
    cbn [mbind py_bind]. apply Hq. by eapply list_elem_of_lookup_2.
Qed.

(** Lines 337-353 for one algorithm whose trace has as many measurements as
    [iter_save] has entries. *)
Lemma resort_alg_spec (obj_star : float) (b : bundle) (s0 : sample)
    (rest : list sample) :
  b_out b = map sample_dict (s0 :: rest) →
  length (b_iter_save b) = length (s0 :: rest) →
  numpy_scalars = true
  ∨ PrimFloat.eqb (PrimFloat.sub (s_obj s0) obj_star) 0 = false →
  resort_alg obj_star b
  = Ret (length (s0 :: rest), resorted obj_star (s0 :: rest)).
Proof.
  intros Hout Hlen Hdiv. unfold resort_alg. rewrite Hout, Hlen.
  set (samples := s0 :: rest).
  change (py_index (map sample_dict samples) 0) with (Ret (sample_dict s0)).
  cbn [mbind py_bind sample_dict dict_keys map fst for_each].
  rewrite (fill_samples samples (λ r, dict_get r "obj") s_obj) by done.
  cbn [mbind py_bind].
  rewrite (fill_samples samples (λ r, dict_get r "dist") s_dist) by done.
  cbn [mbind py_bind].
  rewrite (fill_samples samples (λ r, dict_get r "dist_x") s_dist_x) by done.
  cbn [mbind py_bind].
  rewrite (fill_samples samples (λ r, dict_get r "dist_y") s_dist_y) by done.
  cbn [mbind py_bind].
  rewrite (fill_samples samples
             (λ r, objk ← dict_get r "obj";
                   obj0 ← dict_get (sample_dict s0) "obj";
                   true_divide (PrimFloat.sub objk obj_star)
                               (PrimFloat.sub obj0 obj_star))
             (λ s, PrimFloat.div (PrimFloat.sub (s_obj s) obj_star)
                                 (PrimFloat.sub (s_obj s0) obj_star))).
  - reflexivity.
  - intros s _. change (dict_get (sample_dict s) "obj") with (Ret (s_obj s)).
    cbn [mbind py_bind].
    change (dict_get (sample_dict s0) "obj") with (Ret (s_obj s0)).
    cbn [mbind py_bind]. by apply true_divide_returns.
Qed.

(** Lines 356-359 for one algorithm whose arrays all have [K] entries. *)
Lemma clamp_measures_spec (obj_star : float) (samples : list sample) :
  clamp_measures (length samples) (resorted obj_star samples)
  = Ret (clamped (resorted obj_star samples)).
Proof.
  unfold clamp_measures, resorted.
  set (rel := map _ samples).
  assert (length rel = length samples) as Hrel
    by (unfold rel; apply length_map).
  clearbody rel.
  cbn [dict_keys map fst for_each].
  repeat (
    match goal with
    | |- context [dict_get ?d ?k] =>
        let r := eval cbv in (dict_get d k) in
        change (dict_get d k) with r
    end;
    cbn [mbind py_bind];
    rewrite clamp_array_spec by (try apply length_map; exact Hrel);
    cbn [mbind py_bind];
    match goal with
    | |- context [dict_set ?d ?k ?v] =>
        let r := eval cbv [dict_set String.eqb Ascii.eqb Bool.eqb] in
                 (dict_set d k v) in
        change (dict_set d k v) with r
    end).
  reflexivity.
Qed.


Lemma resort_alg_trace (obj_star : float) (b : bundle)
    (samples : list sample) (K : nat) :
  0 < K →
  b_out b = map sample_dict samples →
  length samples = K →
  length (b_iter_save b) = K →
  numpy_scalars = true
  ∨ PrimFloat.eqb (PrimFloat.sub (first_obj samples) obj_star) 0 = false →
  resort_alg obj_star b = Ret (K, resorted obj_star samples)
  ∧ clamp_measures K (resorted obj_star samples)
    = Ret (clamped (resorted obj_star samples)).
Proof.
  intros HK Hout Hs Hi Hdiv.
  destruct samples as [|s0 rest]; [cbn in Hs; lia |].
  split.
  - rewrite <- Hs. apply resort_alg_spec; [done | congruence | done].
  - rewrite <- Hs. apply clamp_measures_spec.
Qed.

(** Lines 334-359 in closed form. *)
Lemma post_process_spec (obj_star : float) (loaded : dict bundle)
    (trace : string → list sample) (K : nat) :
  0 < K →
  traces_loaded loaded trace K →
  ratios_defined obj_star trace →
  post_process obj_star loaded
  = Ret (map (λ a, (a, clamped (resorted obj_star (trace a)))) algs).
Proof.
  intros HK Hl Hdiv.
  assert (∀ a, a ∈ algs →
            ∃ b, dict_get loaded a = Ret b
                 ∧ resort_alg obj_star b = Ret (K, resorted obj_star (trace a))
                 ∧ clamp_measures K (resorted obj_star (trace a))
                   = Ret (clamped (resorted obj_star (trace a)))) as Hall.
  { intros a Ha. destruct (Hl a Ha) as (b & Hb & Hout & Hs & Hi).
    exists b. split; [exact Hb |].
    apply resort_alg_trace; try done.
    destruct Hdiv as [Hnp | Hne]; [by left | right; by apply Hne]. }
  destruct (Hall "pdhg") as (b1 & Hb1 & Hr1 & Hc1); [by repeat constructor |].
  destruct (Hall "spdhg_uni10") as (b2 & Hb2 & Hr2 & Hc2); [by repeat constructor |].
  destruct (Hall "spdhg_uni50") as (b3 & Hb3 & Hr3 & Hc3); [by repeat constructor |].
  destruct (Hall "pesquet_uni10") as (b4 & Hb4 & Hr4 & Hc4); [by repeat constructor |].
  destruct (Hall "pesquet_uni50") as (b5 & Hb5 & Hr5 & Hc5); [by repeat constructor |].
  clear Hall Hl Hdiv.
  unfold post_process, resort_all, clamp_all, algs.
  cbn [for_each map].
  rewrite Hb1. cbn [mbind py_bind]. rewrite Hr1. cbn [mbind py_bind].
  rewrite Hb2. cbn [mbind py_bind]. rewrite Hr2. cbn [mbind py_bind].
  rewrite Hb3. cbn [mbind py_bind]. rewrite Hr3. cbn [mbind py_bind].
  rewrite Hb4. cbn [mbind py_bind]. rewrite Hr4. cbn [mbind py_bind].
  rewrite Hb5. cbn [mbind py_bind]. rewrite Hr5. cbn [mbind py_bind].
  set (d1 := resorted obj_star (trace "pdhg")) in *.
  set (d2 := resorted obj_star (trace "spdhg_uni10")) in *.
  set (d3 := resorted obj_star (trace "spdhg_uni50")) in *.
  set (d4 := resorted obj_star (trace "pesquet_uni10")) in *.
  set (d5 := resorted obj_star (trace "pesquet_uni50")) in *.
  clearbody d1 d2 d3 d4 d5.
  cbn [dict_set dict_get String.eqb Ascii.eqb Bool.eqb mbind py_bind].
  rewrite Hc1.
  cbn [dict_set dict_get String.eqb Ascii.eqb Bool.eqb mbind py_bind].
  rewrite Hc2.
  cbn [dict_set dict_get String.eqb Ascii.eqb Bool.eqb mbind py_bind].
  rewrite Hc3.
  cbn [dict_set dict_get String.eqb Ascii.eqb Bool.eqb mbind py_bind].
  rewrite Hc4.
  cbn [dict_set dict_get String.eqb Ascii.eqb Bool.eqb mbind py_bind].
  rewrite Hc5.
  reflexivity.
Qed.


Lemma clamp_positive (v : float) : PrimFloat.leb (clamp v) 0 = false.
Proof. unfold clamp. by destruct (PrimFloat.leb v 0) eqn:Hv. Qed.

Lemma clamped_positive (d : dict (list float)) (meas : string)
    (arr : list float) (v : float) :
  dict_get (clamped d) meas = Ret arr → v ∈ arr → PrimFloat.leb v 0 = false.
Proof.
  induction d as [|[m0 arr0] d IH]; cbn [clamped map dict_get];
    [discriminate |].
  destruct (String.eqb m0 meas); [| exact IH].
  intros [= <-]. rewrite list_elem_of_fmap.
  intros (x & -> & _). apply clamp_positive.
Qed.

Lemma algs_cases (a : string) :
  a ∈ algs →
  a = "pdhg" ∨ a = "spdhg_uni10" ∨ a = "spdhg_uni50"
  ∨ a = "pesquet_uni10" ∨ a = "pesquet_uni50".
Proof.
  unfold algs. rewrite !elem_of_cons, elem_of_nil. tauto.
Qed.

Lemma for_each_app {A S} (l1 l2 : list A) (body : A → S → py S) (s : S) :
  for_each (l1 ++ l2) body s
  = (s' ← for_each l1 body s; for_each l2 body s').
Proof.
  revert s; induction l1 as [|a l1 IH]; intros s; [reflexivity |].
  cbn [app for_each]. destruct (body a s) as [s1|x]; cbn; [apply IH | done].
Qed.

Lemma fill_fails (K m : nat) (item : nat → py float) (g : nat → float)
    (x : exn) :
  m < K → (∀ k, k < m → item k = Ret (g k)) → item m = Raise x →
  fill K item = Raise x.
Proof.
  intros Hm Hitem Hx. unfold fill.
  replace K with (m + S (K - m - 1)) at 1 by lia.
  rewrite seq_app, for_each_app.
  rewrite (fill_loop item g m 0);
    [| rewrite length_replicate; lia | intros; apply Hitem; lia].
  cbn [mbind py_bind seq for_each]. rewrite Nat.add_0_l. by rewrite Hx.
Qed.

(** A loop raises when one of its passes always does and the passes before
    it return or raise the same. *)
Lemma for_each_raises {A S} (l : list A) (body : A → S → py S) (x : exn) :
  (∀ a s, a ∈ l → (∃ s', body a s = Ret s') ∨ body a s = Raise x) →
  (∃ a, a ∈ l ∧ ∀ s, body a s = Raise x) →
  ∀ s, for_each l body s = Raise x.
Proof.
  induction l as [|a l IH]; intros Hall (a0 & Ha0 & Hfail) s.
  - by apply elem_of_nil in Ha0.
  - cbn [for_each].
    destruct (Hall a s) as [[s' Hs'] | Hx]; [left | | by rewrite Hx].
    rewrite Hs'. cbn [mbind py_bind]. apply IH.
    + intros a' s1 Ha'. apply Hall. by right.
    + exists a0. split; [| exact Hfail].
      apply elem_of_cons in Ha0 as [-> | Ha0]; [| exact Ha0].
      rewrite Hfail in Hs'. discriminate.
Qed.

(** Line 352 with Python floats and [obj_0 = obj_opt]. *)
Lemma resort_alg_zero_division (obj_star : float) (b : bundle)
    (samples : list sample) :
  b_out b = map sample_dict samples →
  samples ≠ [] → length samples = length (b_iter_save b) →
  numpy_scalars = false →
  PrimFloat.eqb (PrimFloat.sub (first_obj samples) obj_star) 0 = true →
  resort_alg obj_star b = Raise ZeroDivisionError.
Proof.
  intros Hout Hne Hlen Hnp Hz. unfold resort_alg. rewrite Hout.
  destruct samples as [|s0 rest]; [done |].
  set (samples := s0 :: rest) in *.
  change (py_index (map sample_dict samples) 0) with (Ret (sample_dict s0)).
  cbn [mbind py_bind sample_dict dict_keys map fst for_each].
  rewrite <- Hlen.
  rewrite (fill_samples samples (λ r, dict_get r "obj") s_obj) by done.
  cbn [mbind py_bind].
  rewrite (fill_samples samples (λ r, dict_get r "dist") s_dist) by done.
  cbn [mbind py_bind].
  rewrite (fill_samples samples (λ r, dict_get r "dist_x") s_dist_x)
    by done.
  cbn [mbind py_bind].
  rewrite (fill_samples samples (λ r, dict_get r "dist_y") s_dist_y)
    by done.
  cbn [mbind py_bind].
  rewrite (fill_fails _ 0 _ (λ _, nan) ZeroDivisionError);
    [reflexivity | cbn; lia | intros; lia |].
  change (py_index (map sample_dict samples) 0)
    with (Ret (sample_dict s0)).
  cbn [mbind py_bind].
  change (dict_get (sample_dict s0) "obj") with (Ret (s_obj s0)).
  cbn [mbind py_bind]. unfold true_divide. rewrite Hnp.
  cbn [first_obj samples] in Hz. by rewrite Hz.
Qed.

(** Lines 334-353 abort when one algorithm's first objective is the
    objective of the saddle point. *)
Lemma post_process_zero_division (obj_star : float) (loaded : dict bundle)
    (trace : string → list sample) (K : nat) :
  0 < K →
  traces_loaded loaded trace K →
  numpy_scalars = false →
  (∃ a, a ∈ algs
        ∧ PrimFloat.eqb (PrimFloat.sub (first_obj (trace a)) obj_star) 0
          = true) →
  post_process obj_star loaded = Raise ZeroDivisionError.
Proof.
  intros HK Hl Hnp (a0 & Ha0 & Hz0).
  unfold post_process, resort_all.
  rewrite (for_each_raises algs _ ZeroDivisionError); [reflexivity | |].
  - intros a [K0 res0] Ha.
    destruct (Hl a Ha) as (b & Hb & Hout & Hs & Hi).
    rewrite Hb. cbn [mbind py_bind].
    destruct (PrimFloat.eqb (PrimFloat.sub (first_obj (trace a)) obj_star) 0)
      eqn:Hz.
    + right. rewrite (resort_alg_zero_division obj_star b (trace a));
        [reflexivity | exact Hout | | congruence | exact Hnp | exact Hz].
      intros Hnil. rewrite Hnil in Hs. cbn in Hs. lia.
    + left.
      destruct (resort_alg_trace obj_star b (trace a) K HK Hout Hs Hi
                  (or_intror Hz)) as [-> _].
      eexists. reflexivity.
  - exists a0. split; [exact Ha0 |]. intros [K0 res0].
    destruct (Hl a0 Ha0) as (b & Hb & Hout & Hs & Hi).
    rewrite Hb. cbn [mbind py_bind].
    rewrite (resort_alg_zero_division obj_star b (trace a0));
      [reflexivity | exact Hout | | congruence | exact Hnp | exact Hz0].
    intros Hnil. rewrite Hnil in Hs. cbn in Hs. lia.
Qed.

(** C6 (as amended).  When the post-processing returns, then for every
    algorithm and every recorded iteration [k] the relative objective error
    is [(obj_k - obj_opt) / (obj_0 - obj_opt)], with [obj_0] the first
    recorded objective, unless that value is [<= 0], in which case the entry
    is NaN.  It returns when the first objective of every algorithm differs
    from [obj_opt], or when the values are NumPy scalars.  When the values
    are Python floats and the first objective of some algorithm equals
    [obj_opt], the division of line 352 raises [ZeroDivisionError] and the
    run aborts before any value is replaced. *)
Theorem relative_objective_error (obj_star : float) (loaded : dict bundle)
    (trace : string → list sample) (K : nat) :
  0 < K →
  traces_loaded loaded trace K →
  (ratios_defined obj_star trace →
   ∃ res,
     post_process obj_star loaded = Ret res
     ∧ ∀ a, a ∈ algs →
         ∃ d rel,
           dict_get res a = Ret d
           ∧ dict_get d "obj_rel" = Ret rel
           ∧ length rel = K
           ∧ ∀ k s, trace a !! k = Some s →
               let ratio :=
                 PrimFloat.div (PrimFloat.sub (s_obj s) obj_star)
                   (PrimFloat.sub (first_obj (trace a)) obj_star) in
               rel !! k = Some (if PrimFloat.leb ratio 0 then nan else ratio))
  ∧ (numpy_scalars = false →
     (∃ a, a ∈ algs
           ∧ PrimFloat.eqb (PrimFloat.sub (first_obj (trace a)) obj_star) 0
             = true) →
     post_process obj_star loaded = Raise ZeroDivisionError).
Proof.
  intros HK Hl. split;
    [| intros Hnp Hz; by apply (post_process_zero_division _ _ trace K)].
  intros Hdiv.
  eexists. split; [by apply (post_process_spec _ _ trace K) |].
  intros a Ha.
  assert (length (trace a) = K) as Hlen
    by (destruct (Hl a Ha) as (? & ? & ? & ? & ?); done).
  exists (clamped (resorted obj_star (trace a))).
  eexists. split.
  { destruct (algs_cases a Ha) as [->|[->|[->|[->| ->]]]]; reflexivity. }
  split; [reflexivity |]. split; [by rewrite !length_map |].
  intros k s Hk. cbv zeta. rewrite !list_lookup_fmap, Hk. reflexivity.
Qed.

(** C10.  The clamping runs over every measure of every algorithm: the raw
    objective value, the total, primal and dual distances to the saddle
    point and the relative objective error.  Each entry of each of the five
    arrays is the recorded value, or NaN where the recorded value is [<= 0],
    so that no entry [<= 0] is left. *)
Theorem clamping_covers_every_measure (obj_star : float)
    (loaded : dict bundle) (trace : string → list sample) (K : nat) :
  0 < K →
  traces_loaded loaded trace K →
  ratios_defined obj_star trace →
  ∃ res,
    post_process obj_star loaded = Ret res
    ∧ ∀ a, a ∈ algs →
        ∃ d,
          dict_get res a = Ret d
          ∧ dict_keys d = ["obj"; "dist"; "dist_x"; "dist_y"; "obj_rel"]
          ∧ dict_get d "obj" = Ret (map (λ s, clamp (s_obj s)) (trace a))
          ∧ dict_get d "dist" = Ret (map (λ s, clamp (s_dist s)) (trace a))
          ∧ dict_get d "dist_x"
            = Ret (map (λ s, clamp (s_dist_x s)) (trace a))
          ∧ dict_get d "dist_y"
            = Ret (map (λ s, clamp (s_dist_y s)) (trace a))
          ∧ dict_get d "obj_rel"
            = Ret (map (λ s, clamp (PrimFloat.div
                                      (PrimFloat.sub (s_obj s) obj_star)
                                      (PrimFloat.sub (first_obj (trace a))
                                                     obj_star)))
                       (trace a))
          ∧ ∀ meas arr v,
              dict_get d meas = Ret arr → v ∈ arr →
              PrimFloat.leb v 0 = false.
Proof.
  intros HK Hl Hdiv.
  eexists. split; [by apply (post_process_spec _ _ trace K) |].
  intros a Ha.
  exists (clamped (resorted obj_star (trace a))).
  split.
  { destruct (algs_cases a Ha) as [->|[->|[->|[->| ->]]]]; reflexivity. }
  split; [reflexivity |].
  repeat split; try apply clamped_positive.
  all: unfold clamped, resorted;
    cbn [map dict_get String.eqb Ascii.eqb Bool.eqb];
    by rewrite map_map.
Qed.


(** ** The traces that the passes save *)

(** The callback stores one measurement for every call whose number is in
    [iter_save]. *)
Lemma solver_loop_on_trace step n p sub2ind (t : target)
    (iter_save : list nat) (budget : nat) :
  ∀ k s c log g s' c' log' g',
    solver_loop_on step n p sub2ind (callback_call t iter_save) budget
                   k s c log g = Ret (s', c', log', g') →
    ∃ ss,
      cb_out c' = cb_out c ++ map sample_dict ss
      ∧ length ss
        = length (filter (λ i, i ∈ iter_save) (seq (cb_iter c) budget)).
Proof.
  induction budget as [|budget IH]; intros k s c log g s' c' log' g'.
  - intros [= _ <- _ _]. exists []. by rewrite app_nil_r.
  - cbn [solver_loop_on].
    destruct (np_random_choice n p g) as [j g1].
    destruct (py_index sub2ind j) as [blocks|x]; [| discriminate].
    cbn [mbind py_bind].
    destruct (solver_xy (step blocks s)) as [x y].
    intros Hloop. destruct (IH _ _ _ _ _ _ _ _ _ Hloop) as (ss & Hout & Hlen).
    cbn [callback_call cb_iter cb_out] in Hout, Hlen.
    cbn [seq]. rewrite filter_cons.
    case_bool_decide as Hin.
    + rewrite decide_True by done.
      exists (measure t x y :: ss). cbn [map length].
      split; [by rewrite Hout, <- app_assoc | by rewrite Hlen].
    + rewrite decide_False by done. exists ss. by split.
Qed.

Lemma iter_save_count (n : nat) :
  0 < n →
  let iter_save := map (λ i, i * n) (seq 0 (nepoch + 1)) in
  length (filter (λ i, i ∈ iter_save) (seq 0 (S (niter_of n))))
  = nepoch + 1.
Proof.
  intros Hn iter_save.
  assert (length iter_save = nepoch + 1) as <-
    by (unfold iter_save; by rewrite length_map, length_seq).
  apply Permutation_length, NoDup_Permutation.
  - apply NoDup_filter, NoDup_seq.
  - unfold iter_save. apply NoDup_fmap_2_strong.
    + intros i i' _ _ Heq. nia.
    + apply NoDup_seq.
  - intros i. rewrite list_elem_of_filter, elem_of_seq.
    split; [tauto |]. intros Hi. split; [done |].
    unfold iter_save in Hi. apply list_elem_of_fmap in Hi as (q & -> & Hq).
    apply elem_of_seq in Hq. unfold niter_of. nia.
Qed.

(** With its inputs in place a pass saves a bundle whose trace has
    [nepoch + 1] measurements, as many as [iter_save] has entries. *)
Lemma run_alg_bundle_shape (mu_f : float) (alg : string) (n : nat)
    (w : world) (t : target) :
  dict_get nsub alg = Ret n →
  saddle w = Some t → caches_nonempty (fs w) → mu_i ≠ [] →
  ∃ log w' b samples,
    run_alg mu_f alg w = Ret (log, w')
    ∧ outputs (fs w') !! alg = Some b
    ∧ b_out b = map sample_dict samples
    ∧ length samples = nepoch + 1
    ∧ length (b_iter_save b) = nepoch + 1.
Proof.
  intros Hn Ht Hc Hmu.
  destruct (run_alg_returns mu_f alg n w t Hn Ht Hc Hmu)
    as (e & p & step & s & c & g' & _ & _ & _ & Hloop & Hrun).
  apply solver_loop_on_trace in Hloop as (ss & Hout & Hlen).
  cbn [callback_call cb_iter cb_out seq] in Hout, Hlen.
  pose proof (iter_save_count n (nsub_positive alg n Hn)) as Hcount.
  cbv zeta in Hcount. cbn [seq] in Hcount. rewrite filter_cons in Hcount.
  eexists _, _, _.
  exists ((if bool_decide (0 ∈ map (λ i, i * n) (seq 0 (nepoch + 1)))
           then [measure t X_zero Y_zero] else []) ++ ss).
  split; [exact Hrun |]. cbn [fs outputs].
  split; [apply lookup_insert_eq |]. cbn [b_out b_iter_save].
  split; [| split].
  - rewrite Hout, map_app. f_equal; by case_bool_decide.
  - rewrite length_app, Hlen.
    case_bool_decide;
      [rewrite decide_True in Hcount by done
      | rewrite decide_False in Hcount by done];
      cbn [length] in *; lia.
  - by rewrite length_map, length_seq.
Qed.

End AnalysisProperties.

(** ** The script as a whole *)

Section WholeScript.
Context `{Collaborators}.

(** A pass in place: what it leaves behind for the passes that follow and
    for the analysis. *)
Lemma run_alg_leaves (mu_f : float) (alg : string) (n : nat) (w : world)
    (t : target) :
  dict_get nsub alg = Ret n →
  saddle w = Some t → caches_nonempty (fs w) → mu_i ≠ [] →
  ∃ log w' b ss,
    run_alg mu_f alg w = Ret (log, w')
    ∧ saddle w' = Some t
    ∧ caches_nonempty (fs w')
    ∧ target_file (fs w') = target_file (fs w)
    ∧ outputs (fs w') = <[alg := b]> (outputs (fs w))
    ∧ b_out b = map sample_dict (measure t X_zero Y_zero :: ss)
    ∧ length (measure t X_zero Y_zero :: ss) = nepoch + 1
    ∧ length (b_iter_save b) = nepoch + 1.
Proof.
  intros Hn Ht Hc Hmu.
  pose proof (nsub_positive alg n Hn) as Hpos.
  destruct (run_alg_returns mu_f alg n w t Hn Ht Hc Hmu)
    as (e & p & step & s & c & g' & _ & _ & _ & Hloop & Hrun).
  apply solver_loop_on_trace in Hloop as (ss & Hout & Hlen).
  cbn [callback_call cb_iter cb_out seq] in Hout, Hlen.
  pose proof (iter_save_count n Hpos) as Hcount.
  cbv zeta in Hcount. cbn [seq] in Hcount. rewrite filter_cons in Hcount.
  assert (0 ∈ map (λ i, i * n) (seq 0 (nepoch + 1))) as H0.
  { apply list_elem_of_fmap. exists 0. split; [done |].
    apply elem_of_seq. lia. }
  rewrite bool_decide_eq_true_2 in Hout by exact H0.
  rewrite decide_True in Hcount by exact H0. cbn [length] in Hcount.
  destruct (norms_with_cache_frame (norm_key alg n) (sub2ind_of Y_size n)
              (fs w) (np_random_seed seed_value)) as (Htf & Ho & _ & _ & _).
  destruct (norms_with_cache_nonempty (norm_key alg n) (sub2ind_of Y_size n)
              (fs w) (np_random_seed seed_value) Hc
              (sub2ind_nonempty n Hpos)) as [_ Hc'].
  eexists _, _, _, ss. split; [exact Hrun |].
  cbn [saddle fs target_file outputs norms b_out b_iter_save].
  split; [done |]. split; [exact Hc' |]. split; [exact Htf |].
  split; [by rewrite Ho |]. split; [by rewrite Hout |].
  split; [cbn [length]; lia |].
  cbn [b_iter_save]. rewrite length_map. apply length_seq.
Qed.

Lemma algs_nodup : NoDup algs.
Proof. apply (bool_decide_unpack _). vm_compute. exact I. Qed.

(** What the passes over a list of distinct algorithms leave behind. *)
Lemma run_algs_leave (mu_f : float) (t : target) (l : list string) :
  NoDup l →
  (∀ a, a ∈ l → ∃ n, dict_get nsub a = Ret n) →
  mu_i ≠ [] →
  ∀ w : world,
    saddle w = Some t → caches_nonempty (fs w) →
    ∃ logs w',
      run_algs mu_f l w = Ret (logs, w')
      ∧ length logs = length l
      ∧ saddle w' = Some t
      ∧ target_file (fs w') = target_file (fs w)
      ∧ (∀ a, a ∈ l → bundle_in_place t (fs w') a)
      ∧ (∀ a, a ∉ l → outputs (fs w') !! a = outputs (fs w) !! a).
Proof.
  intros Hnd Hl Hmu. induction l as [|alg l IH]; intros w Ht Hc.
  - exists [], w. split; [reflexivity |]. split; [reflexivity |].
    split; [exact Ht |]. split; [reflexivity |]. split; [| done].
    intros a Ha. by apply elem_of_nil in Ha.
  - apply NoDup_cons in Hnd as [Hnotin Hnd].
    destruct (Hl alg) as [n Hn]; [left |].
    destruct (run_alg_leaves mu_f alg n w t Hn Ht Hc Hmu)
      as (log & w1 & b & ss & Hrun & Ht1 & Hc1 & Htf1 & Ho1 & Hb).
    destruct (IH Hnd (λ a Ha, Hl a (list_elem_of_further _ _ _ Ha)) w1 Ht1 Hc1)
      as (logs & w' & Hruns & Hlen & Ht' & Htf' & Hin & Hout).
    exists (log :: logs), w'. split.
    { cbn [run_algs]. unfold mbind at 1, prog_bind. rewrite Hrun.
      unfold mbind at 1, prog_bind. by rewrite Hruns. }
    split; [cbn [length]; by rewrite Hlen |].
    split; [exact Ht' |]. split; [congruence |]. split.
    + intros a Ha. apply elem_of_cons in Ha as [-> | Ha]; [| by apply Hin].
      exists b, ss. split; [| exact Hb].
      rewrite (Hout alg Hnotin), Ho1. apply lookup_insert_eq.
    + intros a Ha. apply not_elem_of_cons in Ha as [Hne Ha].
      rewrite (Hout a Ha), Ho1. by apply lookup_insert_ne.
Qed.

Lemma load_outputs_in_place (t : target) (f : files) :
  (∀ a, a ∈ algs → bundle_in_place t f a) →
  ∃ loaded trace,
    load_outputs f = Ret loaded
    ∧ traces_loaded loaded trace (nepoch + 1)
    ∧ ∀ a, a ∈ algs → first_obj (trace a) = obj_fun X_zero.
Proof.
  intros Hall.
  destruct (Hall "pdhg") as (b1 & s1 & Hb1 & Ho1 & Hl1 & Hi1);
    [by repeat constructor |].
  destruct (Hall "spdhg_uni10") as (b2 & s2 & Hb2 & Ho2 & Hl2 & Hi2);
    [by repeat constructor |].
  destruct (Hall "spdhg_uni50") as (b3 & s3 & Hb3 & Ho3 & Hl3 & Hi3);
    [by repeat constructor |].
  destruct (Hall "pesquet_uni10") as (b4 & s4 & Hb4 & Ho4 & Hl4 & Hi4);
    [by repeat constructor |].
  destruct (Hall "pesquet_uni50") as (b5 & s5 & Hb5 & Ho5 & Hl5 & Hi5);
    [by repeat constructor |].
  set (trace := λ a : string,
         measure t X_zero Y_zero ::
         (if String.eqb a "pdhg" then s1
          else if String.eqb a "spdhg_uni10" then s2
          else if String.eqb a "spdhg_uni50" then s3
          else if String.eqb a "pesquet_uni10" then s4 else s5)).
  exists [("pdhg", b1); ("spdhg_uni10", b2); ("spdhg_uni50", b3);
          ("pesquet_uni10", b4); ("pesquet_uni50", b5)], trace.
  split; [| split].
  - unfold load_outputs, algs. cbn [for_each].
    rewrite Hb1. cbn [mbind py_bind]. rewrite Hb2. cbn [mbind py_bind].
    rewrite Hb3. cbn [mbind py_bind]. rewrite Hb4. cbn [mbind py_bind].
    rewrite Hb5. reflexivity.
  - intros a Ha.
    destruct (algs_cases a Ha) as [->|[->|[->|[->| ->]]]];
      eexists; (split; [reflexivity |]); by repeat split.
  - intros a _. reflexivity.
Qed.

(** The target computation returns and leaves the saddle point defined. *)
Lemma target_stage_returns (mu_f : float) (w : world) :
  caches_nonempty (fs w) →
  ∃ t w',
    target_stage mu_f w = Ret (tt, w')
    ∧ saddle w' = Some t
    ∧ target_file (fs w') = Some t
    ∧ caches_nonempty (fs w')
    ∧ outputs (fs w') = outputs (fs w).
Proof.
  intros Hc. destruct w as [f g e fk sd]. cbn [fs] in Hc.
  unfold target_stage. unfold mbind at 1, prog_bind, get_fs. cbn [fs].
  destruct (target_file f) as [t|] eqn:Htf.
  { exists t. eexists. split; [reflexivity |]. by repeat split. }
  unfold mbind at 1, prog_bind, set_file_normA.
  unfold mbind at 1, prog_bind, load_norms.
  unfold mbind at 1 2, prog_bind, get_fs.
  cbn [mret prog_ret fs put_file_normA].
  destruct (norms f !! 1) as [normA|] eqn:Hk.
  - destruct normA as [|a0 rest]; [by destruct (Hc _ _ Hk) |].
    unfold mbind at 1, prog_bind. cbn [mret prog_ret].
    unfold mbind at 1, prog_bind, lift.
    cbn [target_step_sizes py_index lookup list_lookup mbind py_bind].
    unfold mbind at 1, prog_bind, get_vars.
    unfold mbind at 1, prog_bind, set_vars.
    destruct (odl_pdhg _ _ _ _ _ _) as [x y].
    eexists _, _. split; [reflexivity |]. by repeat split.
  - unfold mbind at 1, prog_bind.
    unfold mbind at 1, prog_bind, with_rng. cbn [gen put_file_normA].
    destruct (A_norm_estimate g) as [v g'].
    unfold mbind at 1, prog_bind, save_norms.
    unfold mbind at 1, prog_bind, get_fs. cbn [mret prog_ret set_fs].
    unfold mbind at 1, prog_bind, lift.
    cbn [target_step_sizes py_index lookup list_lookup mbind py_bind].
    unfold mbind at 1, prog_bind, get_vars.
    unfold mbind at 1, prog_bind, set_vars.
    destruct (odl_pdhg _ _ _ _ _ _) as [x y].
    eexists _, _. split; [reflexivity |].
    split; [reflexivity |]. split; [reflexivity |]. split; [| reflexivity].
    intros k normA.
    cbn [fs norms put_saddle put_fs put_vars put_gen put_file_normA].
    rewrite lookup_insert.
    case_decide; [by intros [= <-] | apply Hc].
Qed.

(** X14.
    The script returns whenever there is a data term, no norm file is empty
    and the relative objective error is defined, that is, the values are
    NumPy scalars or the objective at zero differs from the objective of the
    saddle point.  Its result is, for each of the five algorithms, the
    clamped arrays of the five measures, each of [nepoch + 1] entries. *)
Theorem experiment_returns (w : world) :
  mu_i ≠ [] →
  caches_nonempty (fs w) →
  (∀ mu_f t w0,
     target_stage mu_f w = Ret (tt, w0) → saddle w0 = Some t →
     numpy_scalars = true
     ∨ PrimFloat.eqb (PrimFloat.sub (obj_fun X_zero) (obj_opt t)) 0 = false) →
  ∃ logs trace t w',
    experiment w
    = Ret ((logs,
            map (λ a, (a, clamped (resorted (obj_opt t) (trace a)))) algs),
           w')
    ∧ saddle w' = Some t
    ∧ length logs = 5
    ∧ ∀ a, a ∈ algs →
        length (trace a) = nepoch + 1
        ∧ first_obj (trace a) = obj_fun X_zero.
Proof.
  intros Hmu Hc Hdiv. unfold experiment.
  destruct mu_i as [|m0 ms] eqn:Hmui; [done |].
  unfold mbind at 1, prog_bind, lift. cbn [np_min].
  set (mu_f := fold_left np_minimum ms m0).
  destruct (target_stage_returns mu_f w Hc)
    as (t & w0 & Hts & Ht0 & _ & Hc0 & _).
  unfold mbind at 1, prog_bind. rewrite Hts.
  assert (mu_i ≠ []) as Hmu' by (by rewrite Hmui).
  destruct (run_algs_leave mu_f t algs algs_nodup
              (λ a Ha, let '(ex_intro _ n (conj Hn _)) := algs_nsub a Ha in
                       ex_intro _ n Hn)
              Hmu' w0 Ht0 Hc0)
    as (logs & w1 & Hruns & Hlen & Ht1 & _ & Hin & _).
  unfold mbind at 1, prog_bind. rewrite Hruns.
  destruct (load_outputs_in_place t (fs w1) Hin)
    as (loaded & trace & Hload & Htr & Hfirst).
  unfold mbind at 1, prog_bind, analyse.
  unfold mbind at 1, prog_bind, get_fs.
  unfold mbind at 1, prog_bind, get_saddle. rewrite Ht1.
  unfold mbind at 1, prog_bind, lift. rewrite Hload.
  rewrite (post_process_spec (obj_opt t) loaded trace (nepoch + 1));
    [| lia | exact Htr |].
  - exists logs, trace, t, w1. split; [reflexivity |].
    split; [exact Ht1 |]. split; [exact Hlen |].
    intros a Ha. split; [| by apply Hfirst].
    by destruct (Htr a Ha) as (? & ? & ? & ? & ?).
  - destruct (Hdiv mu_f t w0 Hts Ht0) as [Hnp | Hne]; [by left | right].
    intros a Ha. by rewrite (Hfirst a Ha).
Qed.

End WholeScript.

(** * Further properties of the script *)

Lemma py_range_elem (stop step i : nat) (l : list nat) :
  py_range stop step = Ret l → (i ∈ l ↔ i < stop ∧ (step | i)).
Proof.
  intros Hr.
  assert (0 < step) as Hs by (destruct step; [discriminate | lia]).
  assert (py_range stop step
          = Ret (map (λ i, i * step) (seq 0 ((stop + step - 1) `div` step))))
    as Heq by (destruct step; [lia | reflexivity]).
  rewrite Heq in Hr. injection Hr as <-.
  rewrite list_elem_of_fmap. setoid_rewrite elem_of_seq.
  rewrite Nat.add_0_l.
  pose proof (Nat.Div0.mul_div_le (stop + step - 1) step) as Hd.
  pose proof (Nat.mul_succ_div_gt (stop + step - 1) step ltac:(lia)) as Hu.
  set (d := (stop + step - 1) `div` step) in *. clearbody d.
  split.
  - intros (q & -> & _ & Hq). split; [| by exists q].
    assert (step * (q + 1) ≤ step * d) by (apply Nat.mul_le_mono_l; lia).
    lia.
  - intros [Hi [q ->]]. exists q. split; [done |]. split; [lia |].
    destruct (Nat.lt_ge_cases q d) as [|Hge]; [done |].
    assert (step * S d ≤ step * S q) by (apply Nat.mul_le_mono_l; lia).
    lia.
Qed.

(** X1.
    Lines 230-231.  [iter_save] lists the multiples of the subset count up
    to [niter]: one entry per epoch, the last one being
    [niter] itself; a subset count of zero would make [range] raise. *)
Theorem iter_save_schedule :
  iter_save_of 0 = Raise ValueError
  ∧ ∀ n, 0 < n →
      ∃ l, iter_save_of n = Ret l
           ∧ length l = nepoch + 1
           ∧ (∀ k, k ≤ nepoch → l !! k = Some (k * n))
           ∧ (∀ i, i ∈ l ↔ i ≤ niter_of n ∧ (n | i))
           ∧ last l = Some (niter_of n).
Proof.
  split; [reflexivity |]. intros n Hn.
  exists (map (λ i, i * n) (seq 0 (nepoch + 1))).
  pose proof (iter_save_of_returns n Hn) as Hret.
  split; [exact Hret |]. split; [by rewrite length_map, length_seq |].
  split; [| split].
  - intros k Hk. rewrite list_lookup_fmap, lookup_seq_lt by lia. reflexivity.
  - intros i. unfold iter_save_of in Hret.
    rewrite (py_range_elem _ _ i _ Hret).
    split; intros [? ?]; split; (done || lia).
  - rewrite fmap_last.
    replace (nepoch + 1) with (S nepoch) by lia. rewrite seq_S, last_snoc.
    reflexivity.
Qed.

Lemma iter_save_schedule_witness :
  ∃ l, iter_save_of 10 = Ret l
       ∧ length l = nepoch + 1
       ∧ (∀ k, k ≤ nepoch → l !! k = Some (k * 10))
       ∧ (∀ i, i ∈ l ↔ i ≤ niter_of 10 ∧ (10 | i))
       ∧ last l = Some (niter_of 10).
Proof. apply (proj2 iter_save_schedule 10). lia. Defined.

(** ** Failures of the calibration *)

Section CalibrationFailures.
Context {T : Type} `{Scalar T}.
Implicit Types (rho mu_f mu_g : T) (mu_i normA : list T) (e : env T).

(** The names the dispatch of lines 265-290 knows. *)
Lemma choose_parameters_assert rho mu_f mu_g mu_i alg n Y_size normA e :
  choose_parameters rho mu_f mu_g mu_i alg n Y_size normA e
  = Raise AssertionError
  ↔ String.eqb alg "pdhg" || String.prefix "spdhg" alg
    || String.prefix "pesquet" alg = false.
Proof.
  unfold choose_parameters, choose_pdhg, choose_spdhg, choose_pesquet.
  destruct (String.eqb alg "pdhg"); cbn [orb].
  { destruct (py_index normA 0) as [a|x] eqn:Hi; cbn; [done |].
    unfold py_index in Hi. destruct (normA !! 0); [done |].
    injection Hi as <-. done. }
  destruct (String.prefix "spdhg" alg); cbn [orb].
  { destruct (py_max _) as [k|x] eqn:Hm; cbn.
    - destruct n; cbn; done.
    - unfold py_max in Hm. destruct (map _ _); [| done].
      injection Hm as <-. done. }
  destruct (String.prefix "pesquet" alg); [| done].
  destruct n; cbn; [done |].
  destruct (py_index normA 0) as [a|x] eqn:Hi; cbn; [done |].
  unfold py_index in Hi. destruct (normA !! 0); [done |].
  injection Hi as <-. done.
Qed.

(** X2.
    Lines 264-290.  What makes the calibration fail, and how: a name that
    no branch knows ends in the [assert]; the deterministic and the
    Pesquet-Repetti branches read [normA[0]] and raise [IndexError] on an
    empty norm array; the stochastic branch takes [max] of the list built
    from [zip(normA, mu_i)] and raises [ValueError] when either is empty;
    [1 / n] raises [ZeroDivisionError] for [n = 0], in the stochastic
    branch after [max], in the Pesquet-Repetti branch before [normA[0]]. *)
Theorem calibration_failures rho mu_f mu_g mu_i alg n Y_size normA e :
  (String.eqb alg "pdhg" || String.prefix "spdhg" alg
   || String.prefix "pesquet" alg = false →
   choose_parameters rho mu_f mu_g mu_i alg n Y_size normA e
   = Raise AssertionError)
  ∧ (normA = [] →
     choose_parameters rho mu_f mu_g mu_i "pdhg" n Y_size normA e
     = Raise IndexError)
  ∧ (String.prefix "spdhg" alg = true → normA = [] ∨ mu_i = [] →
     choose_parameters rho mu_f mu_g mu_i alg n Y_size normA e
     = Raise ValueError)
  ∧ (String.prefix "spdhg" alg = true →
     normA ≠ [] → mu_i ≠ [] → n = 0 →
     choose_parameters rho mu_f mu_g mu_i alg n Y_size normA e
     = Raise ZeroDivisionError)
  ∧ (String.prefix "pesquet" alg = true → n = 0 →
     choose_parameters rho mu_f mu_g mu_i alg n Y_size normA e
     = Raise ZeroDivisionError)
  ∧ (String.prefix "pesquet" alg = true → 0 < n → normA = [] →
     choose_parameters rho mu_f mu_g mu_i alg n Y_size normA e
     = Raise IndexError).
Proof.
  split; [by intros ?; apply choose_parameters_assert |].
  split; [by intros -> |].
  split; [| split; [| split]].
  - intros Hp Hnil. rewrite choose_parameters_spdhg by exact Hp.
    unfold choose_spdhg.
    assert (py_zip normA mu_i = []) as ->; [| reflexivity].
    destruct Hnil as [-> | ->]; [reflexivity | by destruct normA].
  - intros Hp Ha Hm ->. rewrite choose_parameters_spdhg by exact Hp.
    unfold choose_spdhg.
    destruct normA as [|a0 normA]; [done |].
    destruct mu_i as [|m0 mu_i]; [done |]. reflexivity.
  - intros Hp ->. by rewrite choose_parameters_pesquet.
  - intros Hp Hn ->. rewrite choose_parameters_pesquet by exact Hp.
    destruct n; [lia |]. reflexivity.
Qed.

End CalibrationFailures.

Lemma calibration_failures_witness :
  choose_parameters rho 1%float 1%float [1%float] "pdhg_uni10" 10 2
                    [2%float] unbound_env = Raise AssertionError
  ∧ choose_parameters rho 1%float 1%float [] "spdhg_uni10" 10 2
                      [2%float] unbound_env = Raise ValueError
  ∧ choose_parameters rho 1%float 1%float [1%float] "spdhg_uni10" 0 2
                      [2%float] unbound_env = Raise ZeroDivisionError
  ∧ choose_parameters rho 1%float 1%float [1%float] "pesquet_uni10" 0 2
                      [] unbound_env = Raise ZeroDivisionError
  ∧ choose_parameters rho 1%float 1%float [1%float] "pesquet_uni10" 10 2
                      [] unbound_env = Raise IndexError.
Proof.
  split; [| split; [| split; [| split]]].
  - by apply (proj1 (calibration_failures (T:=float) _ _ _ _ _ _ _ _ _)).
  - apply (proj1 (proj2 (proj2 (calibration_failures (T:=float)
                                  _ _ _ _ _ _ _ _ _))));
      [reflexivity | by right].
  - by apply (proj1 (proj2 (proj2 (proj2 (calibration_failures (T:=float)
                                            _ _ _ _ _ _ _ _ _))))).
  - by apply (proj1 (proj2 (proj2 (proj2 (proj2
               (calibration_failures (T:=float) _ _ _ _ _ _ _ _ _)))))).
  - apply (proj2 (proj2 (proj2 (proj2 (proj2
             (calibration_failures (T:=float) _ _ _ _ _ _ _ _ _))))));
      [reflexivity | lia | reflexivity].
Defined.

(** ** The three dispatches on the algorithm name *)

Lemma substring_prefix (p s : string) :
  String.eqb (substring 0 (String.length p) s) p = String.prefix p s.
Proof.
  destruct (String.prefix p s) eqn:Hp.
  - apply prefix_correct in Hp. rewrite Hp. apply String.eqb_refl.
  - apply String.eqb_neq. intros Hs. apply prefix_correct in Hs. congruence.
Qed.

Lemma prefix_exclusive (alg : string) :
  (String.prefix "spdhg" alg = true → String.prefix "pesquet" alg = false
                                      ∧ String.prefix "pdhg" alg = false)
  ∧ (String.prefix "pdhg" alg = true → String.prefix "pesquet" alg = false
                                       ∧ String.prefix "spdhg" alg = false).
Proof.
  destruct alg as [|c alg]; [by split |].
  split; intros Hp; cbn [String.prefix] in *.
  - destruct (Ascii.ascii_dec _ c) as [<-|]; [| discriminate Hp].
    split; by destruct (Ascii.ascii_dec _ _).
  - destruct (Ascii.ascii_dec _ c) as [<-|]; [| discriminate Hp].
    split; [| by destruct (Ascii.ascii_dec _ _)].
    destruct alg as [|c' alg]; [done |].
    cbn [String.prefix] in *.
    destruct (Ascii.ascii_dec _ c') as [<-|]; [| discriminate Hp].
    by destruct (Ascii.ascii_dec _ _).
Qed.

Section DispatchConsistency.
Context `{Collaborators}.

(** X3.
    Lines 249-253, 264-290 and 308-317.  A name that the calibration
    accepts is accepted by the other two dispatches: the norm file is
    chosen (the slices [alg[0:5]] and [alg[0:7]] of lines 249-252 select as
    [startswith] does), and the [assert] of line 317 is not reached.  A name
    that the calibration rejects leaves the norm-file variable as it was.
    The solver dispatch alone tests [startswith('pdhg')]: it would accept a
    longer name with that prefix, which the calibration rejects. *)
Theorem dispatch_is_consistent (mu_f : float) (alg : string) (n : nat)
    (normA : list float) (e0 : env float) (w : world) :
  (choose_parameters rho mu_f mu_g mu_i alg n Y_size normA e0
   ≠ Raise AssertionError →
   select_norm_file alg n w = Ret (tt, put_file_normA (norm_key alg n) w)
   ∧ ∀ e, ∃ step, select_solver alg e = Ret step)
  ∧ (choose_parameters rho mu_f mu_g mu_i alg n Y_size normA e0
     = Raise AssertionError →
     select_norm_file alg n w = Ret (tt, w)
     ∧ ∀ e, select_solver alg e = Raise AssertionError
            ∨ String.prefix "pdhg" alg = true)
  ∧ (String.prefix "pdhg" alg = true → alg ≠ "pdhg" →
     choose_parameters rho mu_f mu_g mu_i alg n Y_size normA e0
     = Raise AssertionError
     ∧ ∀ e, ∃ step, select_solver alg e = Ret step).
Proof.
  rewrite choose_parameters_assert.
  unfold select_norm_file, select_solver, norm_key.
  pose proof (substring_prefix "spdhg" alg) as E5.
  pose proof (substring_prefix "pesquet" alg) as E7.
  cbn [String.length] in E5, E7. rewrite E5, E7. clear E5 E7.
  destruct (prefix_exclusive alg) as [Hs Hp].
  split; [| split].
  - intros Hk.
    destruct (String.eqb_spec alg "pdhg") as [->|Hne];
      [split; [reflexivity | intros e; eexists; reflexivity] |].
    destruct (String.prefix "spdhg" alg) eqn:Hsp.
    { destruct (Hs eq_refl) as [-> ->].
      split; [reflexivity | intros e; eexists; reflexivity]. }
    destruct (String.prefix "pesquet" alg) eqn:Hpe; [| done].
    split; [reflexivity |]. intros e. rewrite orb_false_r.
    destruct (String.prefix "pdhg" alg); eexists; reflexivity.
  - intros Hk. apply orb_false_elim in Hk as [Hk ->].
    apply orb_false_elim in Hk as [-> ->].
    split; [reflexivity |]. intros e. rewrite orb_false_r.
    destruct (String.prefix "pdhg" alg); [by right | by left].
  - intros Hpd Hne. destruct (Hp Hpd) as [-> ->].
    rewrite Hpd. split.
    + destruct (String.eqb_spec alg "pdhg"); done.
    + intros e. eexists. reflexivity.
Qed.

End DispatchConsistency.

(** ** What a pass selects and what it saves *)

Section PassProperties.
Context `{Collaborators}.

Lemma draws_length (n : nat) (p : list float) (budget : nat) :
  ∀ g, length (draws n p budget g) = budget.
Proof.
  induction budget as [|budget IH]; intros g; [reflexivity |].
  cbn [draws]. destruct (np_random_choice n p g) as [j g'].
  cbn [length]. by rewrite IH.
Qed.

Lemma draws_in_range (n : nat) (p : list float) (budget : nat) :
  0 < n → ∀ g, Forall (λ j, j < n) (draws n p budget g).
Proof.
  intros Hn. induction budget as [|budget IH]; intros g; [constructor |].
  cbn [draws]. pose proof (choice_in_range n p g Hn) as Hj.
  destruct (np_random_choice n p g) as [j g']. by constructor.
Qed.

Lemma draws_of_one_subset (p : list float) (budget : nat) (g : rng) :
  draws 1 p budget g = replicate budget 0.
Proof.
  apply list_eq_Forall2. apply Forall2_same_length_lookup_2.
  { by rewrite draws_length, length_replicate. }
  intros i j j' Hj Hj'. apply lookup_replicate in Hj' as [-> _].
  pose proof (draws_in_range 1 p budget ltac:(lia) g) as Hall.
  rewrite Forall_lookup in Hall. specialize (Hall i j Hj). lia.
Qed.

(** X8.
    Lines 293-294 and 308-314.  With its inputs in place a pass selects
    [niter = nepoch * n] subsets, each by an index below [n] that names a
    subset of the partition; the deterministic variant, with its one subset,
    selects index [0] in every iteration, whatever the random source
    draws. *)
Theorem selections_name_subsets (mu_f : float) (alg : string) (n : nat)
    (w : world) (t : target) :
  dict_get nsub alg = Ret n →
  saddle w = Some t → caches_nonempty (fs w) → mu_i ≠ [] →
  ∃ log w',
    run_alg mu_f alg w = Ret (log, w')
    ∧ length log = nepoch * n
    ∧ Forall (λ j, j < n ∧ is_Some (sub2ind_of Y_size n !! j)) log
    ∧ (alg = "pdhg" → log = replicate nepoch 0).
Proof.
  intros Hn Ht Hc Hmu.
  pose proof (nsub_positive alg n Hn) as Hpos.
  destruct (run_alg_returns mu_f alg n w t Hn Ht Hc Hmu)
    as (e & p & step & s & c & g' & _ & _ & _ & _ & Hrun).
  eexists _, _. split; [exact Hrun |].
  split; [apply draws_length |]. split.
  - eapply Forall_impl; [by apply draws_in_range |].
    intros j Hj. split; [exact Hj |].
    apply lookup_lt_is_Some_2. by rewrite sub2ind_length.
  - intros ->. injection Hn as <-.
    rewrite draws_of_one_subset. unfold niter_of. by rewrite Nat.mul_1_r.
Qed.

(** The callback of the last iteration is called on the iterate that the
    loop returns. *)
Lemma solver_loop_on_last step n p sub2ind (t : target)
    (iter_save : list nat) (budget : nat) :
  ∀ k s c log g s' c' log' g',
    solver_loop_on step n p sub2ind (callback_call t iter_save) (S budget)
                   k s c log g = Ret (s', c', log', g') →
    ∃ c'',
      c' = callback_call t iter_save (solver_xy s').1 (solver_xy s').2 c''
      ∧ cb_iter c'' = cb_iter c + budget.
Proof.
  induction budget as [|budget IH]; intros k s c log g s' c' log' g'.
  - cbn [solver_loop_on].
    destruct (np_random_choice n p g) as [j g1].
    destruct (py_index sub2ind j) as [blocks|x]; [| discriminate].
    cbn [mbind py_bind].
    destruct (solver_xy (step blocks s)) as [x y] eqn:Hxy.
    intros [= <- <- _ _]. exists c. rewrite Hxy. split; [reflexivity | lia].
  - remember (S budget) as b eqn:Hb. cbn [solver_loop_on]. subst b.
    destruct (np_random_choice n p g) as [j g1].
    destruct (py_index sub2ind j) as [blocks|x]; [| discriminate].
    cbn [mbind py_bind].
    destruct (solver_xy (step blocks s)) as [x y].
    intros Hloop. destruct (IH _ _ _ _ _ _ _ _ _ Hloop) as (c'' & -> & Hit).
    exists c''. split; [reflexivity |].
    rewrite Hit. cbn [callback_call cb_iter]. lia.
Qed.

(** X9.
    Lines 297-305 and 319-321.  With its inputs in place a pass writes one
    output file, the one of its own name, and leaves the other output files
    and the target file as they are.  The bundle holds [iter_save],
    [niter] and [nsub] of the variant and a trace of [nepoch + 1]
    measurements: the first one is taken at the zero iterate, before the
    first iteration, the last one at the iterate that the bundle stores. *)
Theorem pass_saves_its_bundle (mu_f : float) (alg : string) (n : nat)
    (w : world) (t : target) :
  dict_get nsub alg = Ret n →
  saddle w = Some t → caches_nonempty (fs w) → mu_i ≠ [] →
  ∃ log w' b,
    run_alg mu_f alg w = Ret (log, w')
    ∧ outputs (fs w') = <[alg := b]> (outputs (fs w))
    ∧ target_file (fs w') = target_file (fs w)
    ∧ b_iter_save b = map (λ i, i * n) (seq 0 (nepoch + 1))
    ∧ b_niter b = nepoch * n
    ∧ b_nsub b = n
    ∧ length (b_out b) = nepoch + 1
    ∧ b_out b !! 0 = Some (sample_dict (measure t X_zero Y_zero))
    ∧ ∃ y, last (b_out b) = Some (sample_dict (measure t (b_x b) y)).
Proof.
  intros Hn Ht Hc Hmu.
  pose proof (nsub_positive alg n Hn) as Hpos.
  destruct (run_alg_returns mu_f alg n w t Hn Ht Hc Hmu)
    as (e & p & step & s & c & g' & _ & _ & _ & Hloop & Hrun).
  destruct (norms_with_cache_frame (norm_key alg n) (sub2ind_of Y_size n)
              (fs w) (np_random_seed seed_value)) as (Htf & Ho & _ & _ & _).
  pose proof (solver_loop_on_trace _ _ _ _ _ _ _ _ _ _ _ _ _ _ _ _ Hloop)
    as (ss & Hout & Hlen).
  cbn [callback_call cb_iter cb_out seq] in Hout, Hlen.
  pose proof (iter_save_count n Hpos) as Hcount.
  cbv zeta in Hcount. cbn [seq] in Hcount. rewrite filter_cons in Hcount.
  assert (0 ∈ map (λ i, i * n) (seq 0 (nepoch + 1))) as H0.
  { apply list_elem_of_fmap. exists 0. split; [done |].
    apply elem_of_seq. lia. }
  rewrite bool_decide_eq_true_2 in Hout by exact H0.
  rewrite decide_True in Hcount by exact H0. cbn [length] in Hcount.
  eexists _, _, _. split; [exact Hrun |].
  cbn [fs outputs target_file].
  split; [by rewrite Ho |]. split; [exact Htf |].
  cbn [b_iter_save b_niter b_nsub b_out b_x].
  split; [reflexivity |]. split; [reflexivity |]. split; [reflexivity |].
  split; [rewrite Hout; cbn [app length]; rewrite length_map; lia |].
  split; [by rewrite Hout |].
  assert (∃ m, niter_of n = S m) as [m Hm].
  { unfold niter_of, nepoch. destruct n; [lia |]. eexists. reflexivity. }
  rewrite Hm in Hloop.
  destruct (solver_loop_on_last _ _ _ _ _ _ _ _ _ _ _ _ _ _ _ _ Hloop)
    as (c'' & -> & Hit).
  cbn [callback_call cb_iter cb_out] in Hit |- *.
  exists (solver_xy s).2.
  rewrite bool_decide_eq_true_2; [by rewrite last_snoc |].
  replace (cb_iter c'') with (niter_of n) by lia.
  apply list_elem_of_fmap. exists nepoch.
  split; [reflexivity |]. apply elem_of_seq. lia.
Qed.

(** X10.
    Lines 249-262.  The norm file of a pass: a file that exists is read and
    no norm file changes; without it the pass estimates one norm per subset
    of its partition, from the freshly seeded random source, and saves them
    under the name selected in lines 249-253.  For a Pesquet-Repetti variant
    that name is the one of the 1-subset file, which then holds [n] norms. *)
Theorem pass_norm_file (mu_f : float) (alg : string) (n : nat)
    (w : world) (t : target) :
  dict_get nsub alg = Ret n →
  saddle w = Some t → caches_nonempty (fs w) → mu_i ≠ [] →
  ∃ log w',
    run_alg mu_f alg w = Ret (log, w')
    ∧ file_normA w' = Some (if String.prefix "pesquet" alg then 1 else n)
    ∧ (is_Some (norms (fs w) !! norm_key alg n) →
       norms (fs w') = norms (fs w))
    ∧ (norms (fs w) !! norm_key alg n = None →
       ∃ normA,
         norms (fs w') = <[norm_key alg n := normA]> (norms (fs w))
         ∧ normA = (norms_from (sub2ind_of Y_size n)
                               (np_random_seed seed_value)).1
         ∧ length normA = n).
Proof.
  intros Hn Ht Hc Hmu.
  destruct (run_alg_returns mu_f alg n w t Hn Ht Hc Hmu)
    as (e & p & step & s & c & g' & _ & _ & _ & _ & Hrun).
  eexists _, _. split; [exact Hrun |].
  cbn [fs norms file_normA]. split; [reflexivity |].
  unfold norms_with_cache. split.
  - intros [l ->]. reflexivity.
  - intros ->.
    pose proof (norms_from_length (sub2ind_of Y_size n)
                  (np_random_seed seed_value)) as Hlen.
    rewrite sub2ind_length in Hlen.
    destruct (norms_from _ _) as [normA g0]. cbn [fst snd norms] in *.
    exists normA. by repeat split.
Qed.

End PassProperties.

(** ** Running a stage twice, and the failures of a stage *)

Section StageProperties.
Context `{Collaborators}.

Lemma choose_parameters_again (mu_f : float) alg n normA (e0 e : env float) :
  choose_parameters rho mu_f mu_g mu_i alg n Y_size normA
                    (clear_variables e0) = Ret e →
  choose_parameters rho mu_f mu_g mu_i alg n Y_size normA
                    (clear_variables e) = Ret e.
Proof.
  unfold choose_parameters, choose_pdhg, choose_spdhg, choose_pesquet.
  destruct (String.eqb alg "pdhg").
  { destruct (py_index normA 0); cbn; [| discriminate]. by intros [= <-]. }
  destruct (String.prefix "spdhg" alg).
  { destruct (py_max _); cbn; [| discriminate].
    destruct (one_over n); cbn; [| discriminate]. by intros [= <-]. }
  destruct (String.prefix "pesquet" alg); [| discriminate].
  destruct (one_over n); cbn; [| discriminate].
  destruct (py_index normA 0); cbn; [| discriminate]. by intros [= <-].
Qed.

Lemma configure_run_unknown (mu_f : float) (alg : string) (w : world)
    (x : exn) :
  dict_get nsub alg = Raise x → configure_run mu_f alg w = Raise x.
Proof.
  intros Hn. unfold configure_run.
  unfold mbind at 1, prog_bind, get_vars.
  unfold mbind at 1, prog_bind, set_vars.
  unfold mbind at 1, prog_bind, lift. by rewrite Hn.
Qed.

(** X11.
    Lines 239-290.  Configuring the same variant a second time changes
    nothing but the random source: the norms saved or read the first time
    are read back, the same parameters are chosen, and the source is left as
    the seeding of line 247 sets it, no norm being estimated. *)
Theorem configuration_is_idempotent (mu_f : float) (alg : string)
    (w w1 : world) (r : nat * list (list nat)) :
  configure_run mu_f alg w = Ret (r, w1) →
  configure_run mu_f alg w1
  = Ret (r, put_gen (np_random_seed seed_value) w1).
Proof.
  intros Hrun.
  destruct (dict_get nsub alg) as [n|x] eqn:Hn;
    [| by rewrite (configure_run_unknown _ _ _ _ Hn) in Hrun].
  rewrite (configure_run_unfold mu_f alg n w Hn) in Hrun.
  rewrite (configure_run_unfold mu_f alg n w1 Hn).
  cbv zeta in Hrun |- *.
  destruct (norms_with_cache_frame (norm_key alg n) (sub2ind_of Y_size n)
              (fs w) (np_random_seed seed_value)) as (_ & _ & Hin & _ & _).
  destruct (norms_with_cache (norm_key alg n) (sub2ind_of Y_size n) (fs w)
              (np_random_seed seed_value)) as [[normA g] f].
  cbn [fst snd] in Hin.
  destruct (choose_parameters _ _ _ _ _ _ _ _ _) as [e|x] eqn:He;
    [| discriminate].
  injection Hrun as <- <-. cbn [fs vars saddle].
  destruct (norms_with_cache_frame (norm_key alg n) (sub2ind_of Y_size n)
              f (np_random_seed seed_value)) as (_ & _ & _ & _ & Hr).
  rewrite (Hr _ Hin).
  by rewrite (choose_parameters_again mu_f alg n normA _ e He).
Qed.

Lemma put_saddle_same (t : target) (w : world) :
  saddle w = Some t → put_saddle t w = w.
Proof. destruct w. cbn. by intros ->. Qed.

(** What the target computation leaves behind, and its one failure. *)
Lemma target_stage_cases (mu_f : float) (w : world) :
  match target_stage mu_f w with
  | Ret (_, w1) =>
      ∃ t, target_file (fs w1) = Some t ∧ saddle w1 = Some t
  | Raise x =>
      x = IndexError ∧ target_file (fs w) = None
      ∧ norms (fs w) !! 1 = Some []
  end.
Proof.
  destruct w as [f g e fk sd].
  unfold target_stage. unfold mbind at 1, prog_bind, get_fs. cbn [fs].
  destruct (target_file f) as [t|] eqn:Htf.
  { exists t. split; [exact Htf | reflexivity]. }
  unfold mbind at 1, prog_bind, set_file_normA.
  unfold mbind at 1, prog_bind, load_norms.
  unfold mbind at 1 2, prog_bind, get_fs.
  cbn [mret prog_ret fs put_file_normA].
  destruct (norms f !! 1) as [normA|] eqn:Hk.
  - unfold mbind at 1, prog_bind. cbn [mret prog_ret].
    destruct normA as [|a0 rest]; [done |].
    unfold mbind at 1, prog_bind, lift.
    cbn [target_step_sizes py_index lookup list_lookup mbind py_bind].
    unfold mbind at 1, prog_bind, get_vars.
    unfold mbind at 1, prog_bind, set_vars.
    destruct (odl_pdhg _ _ _ _ _ _) as [x y].
    eexists. split; reflexivity.
  - unfold mbind at 1, prog_bind.
    unfold mbind at 1, prog_bind, with_rng. cbn [gen put_file_normA].
    destruct (A_norm_estimate g) as [v g'].
    unfold mbind at 1, prog_bind, save_norms.
    unfold mbind at 1, prog_bind, get_fs. cbn [mret prog_ret set_fs].
    unfold mbind at 1, prog_bind, lift.
    cbn [target_step_sizes py_index lookup list_lookup mbind py_bind].
    unfold mbind at 1, prog_bind, get_vars.
    unfold mbind at 1, prog_bind, set_vars.
    destruct (odl_pdhg _ _ _ _ _ _) as [x y].
    eexists. split; reflexivity.
Qed.

(** X12.
    Lines 140-188.  The target computation is idempotent: run on the state
    it left, it loads the bundle it saved and changes nothing.  It fails in
    one case only: there is no target file and the 1-subset norm file holds
    an empty array, on which [normA[0]] raises [IndexError]. *)
Theorem target_stage_is_idempotent (mu_f : float) (w : world) :
  (∀ w1, target_stage mu_f w = Ret (tt, w1) →
         target_stage mu_f w1 = Ret (tt, w1))
  ∧ (∀ x, target_stage mu_f w = Raise x ↔
          x = IndexError ∧ target_file (fs w) = None
          ∧ norms (fs w) !! 1 = Some []).
Proof.
  pose proof (target_stage_cases mu_f w) as Hc. split.
  - intros w1 Hrun. rewrite Hrun in Hc. destruct Hc as (t & Htf & Hs).
    unfold target_stage. unfold mbind at 1, prog_bind, get_fs.
    rewrite Htf. unfold set_saddle. by rewrite (put_saddle_same t w1 Hs).
  - intros x. split.
    + intros Hrun. by rewrite Hrun in Hc.
    + intros (-> & Htf & Hk). destruct w as [f g e fk sd]. cbn [fs] in *.
      unfold target_stage. unfold mbind at 1, prog_bind, get_fs. cbn [fs].
      rewrite Htf.
      unfold mbind at 1, prog_bind, set_file_normA.
      unfold mbind at 1, prog_bind, load_norms.
      unfold mbind at 1 2, prog_bind, get_fs.
      cbn [mret prog_ret fs put_file_normA]. rewrite Hk.
      reflexivity.
Qed.

Lemma nsub_unknown (alg : string) :
  alg ∉ algs → dict_get nsub alg = Raise KeyError.
Proof.
  unfold algs. rewrite !not_elem_of_cons. intros (H1 & H2 & H3 & H4 & H5 & _).
  unfold nsub. cbn [dict_get].
  repeat (match goal with
          | |- context [String.eqb ?a alg] =>
              destruct (String.eqb_spec a alg) as [<-|_]; [done |]
          end).
  reflexivity.
Qed.

(** X13.
    Lines 243-290 and 297-305.  How a pass fails: a name that is not a key
    of [nsub] raises [KeyError] at line 243, before anything else is done;
    an empty norm file makes the parameter choice raise, [IndexError] from
    [normA[0]] for the deterministic and the Pesquet-Repetti variants and
    [ValueError] from [max] of an empty list for the stochastic ones; the
    stochastic variants raise the same [ValueError] when there is no data
    term; and a pass that is configured but finds the saddle point unbound
    raises [NameError]. *)
Theorem pass_failures (mu_f : float) (alg : string) (w : world) :
  (alg ∉ algs → run_alg mu_f alg w = Raise KeyError)
  ∧ (∀ n, dict_get nsub alg = Ret n →
          norms (fs w) !! norm_key alg n = Some [] →
          run_alg mu_f alg w
          = Raise (if String.prefix "spdhg" alg then ValueError
                   else IndexError))
  ∧ (∀ n, dict_get nsub alg = Ret n → String.prefix "spdhg" alg = true →
          mu_i = [] → run_alg mu_f alg w = Raise ValueError)
  ∧ (∀ n, dict_get nsub alg = Ret n →
          caches_nonempty (fs w) → mu_i ≠ [] → saddle w = None →
          run_alg mu_f alg w = Raise NameError).
Proof.
  split; [| split; [| split]].
  - intros Hn. by apply run_alg_unknown, nsub_unknown.
  - intros n Hn Hk. apply (run_alg_not_configured mu_f alg n w _ Hn).
    destruct (norms_with_cache_frame (norm_key alg n) (sub2ind_of Y_size n)
                (fs w) (np_random_seed seed_value)) as (_ & _ & _ & _ & Hr).
    rewrite (Hr _ Hk). cbn [fst].
    destruct (nsub_names alg n Hn)
      as [[-> ->]|[[-> ->]|[[-> ->]|[[-> ->]|[-> ->]]]]]; reflexivity.
  - intros n Hn Hp Hmu. apply (run_alg_not_configured mu_f alg n w _ Hn).
    rewrite choose_parameters_spdhg by exact Hp.
    unfold choose_spdhg. rewrite Hmu.
    by destruct (norms_with_cache _ _ _ _).1.1.
  - intros n Hn Hc Hmu Hs.
    pose proof (nsub_positive alg n Hn) as Hpos.
    destruct (norms_with_cache_nonempty (norm_key alg n)
                (sub2ind_of Y_size n) (fs w) (np_random_seed seed_value) Hc
                (sub2ind_nonempty n Hpos)) as [Hne _].
    destruct (choose_parameters_returns mu_f alg n _ (vars w) Hn Hne Hmu)
      as (e & p & He & _).
    exact (run_alg_no_saddle mu_f alg n w e Hn Hs He).
Qed.

End StageProperties.

(** ** Edge cases of the post-processing *)

Section AnalysisEdges.
Context `{Collaborators}.

Lemma clamp_clamp (v : float) : clamp (clamp v) = clamp v.
Proof.
  unfold clamp. destruct (PrimFloat.leb v 0) eqn:Hv; [done | by rewrite Hv].
Qed.

(** X15.
    Lines 357-359 for one array and any bound [K], as the loop meets it with
    the [K] that lines 334-353 leave behind.  The first [K] entries are
    clamped and the entries from [K] on are left as they are; an array with
    fewer than [K] entries makes the loop raise [IndexError]; clamping a
    clamped array changes nothing. *)
Theorem clamp_array_any_bound (K : nat) (arr : list float) :
  (K ≤ length arr →
   clamp_array K arr = Ret (map clamp (take K arr) ++ drop K arr))
  ∧ (length arr < K → clamp_array K arr = Raise IndexError)
  ∧ (∀ arr',
       clamp_array K arr = Ret arr' → clamp_array K arr' = Ret arr').
Proof.
  assert (∀ a : list float, K ≤ length a →
            clamp_array K a = Ret (map clamp (take K a) ++ drop K a)) as Hle.
  { intros a Ha. unfold clamp_array. rewrite clamp_loop by lia.
    by rewrite Nat.add_0_l, take_0, drop_0, app_nil_l. }
  assert (length arr < K → clamp_array K arr = Raise IndexError) as Hgt.
  { intros Hlt. unfold clamp_array.
    replace K with (length arr + S (K - length arr - 1)) at 1 by lia.
    rewrite seq_app, for_each_app, clamp_loop by lia.
    rewrite Nat.add_0_l, take_0, drop_0, firstn_all, drop_all.
    rewrite app_nil_l, app_nil_r. cbn [mbind py_bind seq for_each].
    unfold py_index. rewrite lookup_ge_None_2; [reflexivity |].
    rewrite length_map. lia. }
  split; [apply Hle |]. split; [exact Hgt |].
  intros arr' Hret.
  destruct (Nat.le_gt_cases K (length arr)) as [HK | HK];
    [| by rewrite (Hgt HK) in Hret].
  rewrite (Hle arr HK) in Hret. injection Hret as <-.
  rewrite Hle.
  - rewrite take_app_le, drop_app_ge
      by (rewrite length_map, length_take; lia).
    rewrite length_map, length_take, Nat.min_l, Nat.sub_diag, drop_0 by lia.
    rewrite take_ge by (rewrite length_map, length_take; lia).
    rewrite map_map. do 2 f_equal. apply map_ext. intros v. apply clamp_clamp.
  - rewrite length_app, length_map, length_take, length_drop. lia.
Qed.

Lemma for_each_snoc_ret {A S} (l : list A) (a : A) (body : A → S → py S)
    (s r : S) :
  for_each (l ++ [a]) body s = Ret r → ∃ s', body a s' = Ret r.
Proof.
  rewrite for_each_app. intros Hr.
  apply py_bind_ret in Hr as (s' & _ & Hr). cbn [for_each] in Hr.
  exists s'. destruct (body a s'); [exact Hr | discriminate].
Qed.

(** X16.
    Lines 334-359.  The bound [K] of the clamping loop is not computed for
    the array at hand: it is the value that the last pass of the resort loop
    left, the number of recorded iterations of the last algorithm of
    [algs]. *)
Theorem clamping_bound_is_the_last_count (obj_star : float)
    (loaded : dict bundle) (K : nat) (res : dict (dict (list float))) :
  resort_all obj_star loaded = Ret (K, res) →
  ∃ b, dict_get loaded "pesquet_uni50" = Ret b
       ∧ K = length (b_iter_save b)
       ∧ post_process obj_star loaded
         = clamp_all (length (b_iter_save b)) res.
Proof.
  intros Hr. unfold post_process. rewrite Hr. cbn [mbind py_bind].
  unfold resort_all in Hr.
  change algs with (["pdhg"; "spdhg_uni10"; "spdhg_uni50"; "pesquet_uni10"]
                    ++ ["pesquet_uni50"]) in Hr.
  apply for_each_snoc_ret in Hr as ([K0 res0] & Hr).
  apply py_bind_ret in Hr as (b & Hb & Hr).
  apply py_bind_ret in Hr as ([K1 d] & Hra & Hr).
  injection Hr as <- <-. exists b. split; [exact Hb |].
  unfold resort_alg in Hra.
  apply py_bind_ret in Hra as (first & _ & Hra).
  apply py_bind_ret in Hra as (d0 & _ & Hra).
  apply py_bind_ret in Hra as (rel & _ & Hra).
  injection Hra as <- _. by split.
Qed.

(** X17.
    Lines 338-353 on a bundle that does not have the shape a pass saves.
    An empty trace raises [IndexError] at [out_v[a][0]]; so does a trace
    with fewer measurements than [iter_save] has entries, at the first
    missing one; and when the functional values are Python floats and the
    first objective equals the objective of the saddle point, the relative
    error raises [ZeroDivisionError]. *)
Theorem resort_failures (obj_star : float) (b : bundle)
    (samples : list sample) :
  b_out b = map sample_dict samples →
  (samples = [] → resort_alg obj_star b = Raise IndexError)
  ∧ (samples ≠ [] → length samples < length (b_iter_save b) →
     resort_alg obj_star b = Raise IndexError)
  ∧ (samples ≠ [] → length samples = length (b_iter_save b) →
     numpy_scalars = false →
     PrimFloat.eqb (PrimFloat.sub (first_obj samples) obj_star) 0 = true →
     resort_alg obj_star b = Raise ZeroDivisionError).
Proof.
  intros Hout. unfold resort_alg. rewrite Hout.
  split; [by intros -> |].
  destruct samples as [|s0 rest]; [by split |].
  set (samples := s0 :: rest) in *.
  change (py_index (map sample_dict samples) 0) with (Ret (sample_dict s0)).
  cbn [mbind py_bind sample_dict dict_keys map fst for_each].
  split.
  - intros _ Hlt.
    rewrite (fill_fails _ (length samples)
               (λ k, r ← py_index (map sample_dict samples) k;
                     dict_get r "obj")
               (λ k, s_obj (nth k samples s0)) IndexError);
      [reflexivity | exact Hlt | |].
    + intros k Hk.
      assert (samples !! k = Some (nth k samples s0)) as Hl
        by (destruct (nth_lookup_or_length samples k s0); [done | lia]).
      rewrite (py_index_lookup _ k (sample_dict (nth k samples s0)))
        by (by rewrite list_lookup_fmap, Hl).
      reflexivity.
    + unfold py_index. rewrite lookup_ge_None_2; [reflexivity |].
      by rewrite length_map.
  - intros _ Hlen Hnp Hz. rewrite <- Hlen.
    rewrite (fill_samples samples (λ r, dict_get r "obj") s_obj) by done.
    cbn [mbind py_bind].
    rewrite (fill_samples samples (λ r, dict_get r "dist") s_dist) by done.
    cbn [mbind py_bind].
    rewrite (fill_samples samples (λ r, dict_get r "dist_x") s_dist_x)
      by done.
    cbn [mbind py_bind].
    rewrite (fill_samples samples (λ r, dict_get r "dist_y") s_dist_y)
      by done.
    cbn [mbind py_bind].
    rewrite (fill_fails _ 0 _ (λ _, nan) ZeroDivisionError);
      [reflexivity | cbn; lia | intros; lia |].
    change (py_index (map sample_dict samples) 0)
      with (Ret (sample_dict s0)).
    cbn [mbind py_bind].
    change (dict_get (sample_dict s0) "obj") with (Ret (s_obj s0)).
    cbn [mbind py_bind]. unfold true_divide. rewrite Hnp.
    cbn [first_obj samples] in Hz. by rewrite Hz.
Qed.

End AnalysisEdges.

(** ** The step sizes at the ends of the binary64 range *)

(** X4.
    Lines 265-271 where [kappa] leaves the range in which the step sizes are
    numbers of use, for moduli that are positive and finite.  The pdhg
    branch returns with
    [kappa = sqrt(1 + normA[0]^2/(mu_g*mu_f)/rho^2)] evaluated in binary64.
    When this is 1, as for a norm estimate of [1e-9], every [sigma] and
    [tau] are infinite and [theta] is 0; when it is infinite, as for a norm
    estimate of [1e200], every [sigma] and [tau] are 0 and [theta] is 1.
    No error is raised in either case. *)
Theorem pdhg_degenerate_kappa (mu_f mu_g : float) (mu_i : list float)
    (n Y_size : nat) (a0 : float) (normA : list float) (e : env float) :
  PrimFloat.ltb 0 mu_f = true → PrimFloat.ltb mu_f infinity = true →
  PrimFloat.ltb 0 mu_g = true → PrimFloat.ltb mu_g infinity = true →
  let k := PrimFloat.sqrt (1 + a0 * a0 / (mu_g * mu_f) / (rho * rho))%float in
  ∃ e',
    choose_parameters rho mu_f mu_g mu_i "pdhg" n Y_size (a0 :: normA) e
    = Ret e'
    ∧ kappa e' = PNum k
    ∧ (k = 1%float →
       sigma e' = PList (replicate Y_size infinity)
       ∧ tau e' = PNum infinity ∧ theta e' = PNum 0%float)
    ∧ (k = infinity →
       sigma e' = PList (replicate Y_size 0%float)
       ∧ tau e' = PNum 0%float ∧ theta e' = PNum 1%float).
Proof.
  intros Hf Hff Hg Hgf k.
  eexists. split; [reflexivity |]. cbn [kappa sigma tau theta].
  split; [reflexivity |].
  cbn [sc_int sc_sub sc_mul sc_div sc_sqrt sc_add float64 kappa_of sqr].
  change (PrimFloat.of_uint63 (Uint63.of_Z 1)) with 1%float.
  change (PrimFloat.of_uint63 (Uint63.of_Z 2)) with 2%float.
  fold k. clearbody k.
  split; intros ->.
  - rewrite !step_at_kappa_one by done. by repeat split.
  - rewrite !step_at_kappa_infinite by done. by repeat split.
Qed.

Lemma pdhg_degenerate_kappa_witness :
  (∃ e',
     choose_parameters rho 1%float 1%float [1%float] "pdhg" 1 2
       [0x1.12e0be826d695p-30%float] unbound_env = Ret e'
     ∧ kappa e' = PNum 1%float
     ∧ sigma e' = PList [infinity; infinity]
     ∧ tau e' = PNum infinity ∧ theta e' = PNum 0%float)
  ∧ (∃ e',
       choose_parameters rho 1%float 1%float [1%float] "pdhg" 1 2
         [0x1.4e718d7d7625ap+664%float] unbound_env = Ret e'
       ∧ kappa e' = PNum infinity
       ∧ sigma e' = PList [0%float; 0%float]
       ∧ tau e' = PNum 0%float ∧ theta e' = PNum 1%float).
Proof.
  split.
  - destruct (pdhg_degenerate_kappa 1%float 1%float [1%float] 1 2
                0x1.12e0be826d695p-30%float [] unbound_env
                eq_refl eq_refl eq_refl eq_refl)
      as (e' & Hret & Hk & Hone & _).
    exists e'. split; [exact Hret |]. split; [exact Hk |].
    apply Hone. vm_compute. reflexivity.
  - destruct (pdhg_degenerate_kappa 1%float 1%float [1%float] 1 2
                0x1.4e718d7d7625ap+664%float [] unbound_env
                eq_refl eq_refl eq_refl eq_refl)
      as (e' & Hret & Hk & _ & Hinf).
    exists e'. split; [exact Hret |]. split; [exact Hk |].
    apply Hinf. vm_compute. reflexivity.
Defined.

(** X6.
    Lines 265-281 with one subset.  For one norm estimate and the modulus
    [mu_f] for every data term, the spdhg branch with [n = 1] computes the
    pdhg [kappa] as its [kappa_max], and the [sigma], [prob] and
    [prob_subset] of the pdhg branch.  Its [tau] is
    [1/((1*kappa+1-2)*mu_g)], which binary64 does not always round to the
    [1/((kappa-1)*mu_g)] of the pdhg branch: with a norm estimate of 1 and
    both moduli 1 the two differ. *)
Theorem spdhg_with_one_subset_against_pdhg :
  (∀ (mu_f mu_g a0 : float) (alg : string) (Y_size : nat) (e : env float),
     String.prefix "spdhg" alg = true → 0 < Y_size →
     ∃ e1 e2 k,
       choose_parameters rho mu_f mu_g (replicate Y_size mu_f) alg 1 Y_size
                         [a0] e = Ret e1
       ∧ choose_parameters rho mu_f mu_g (replicate Y_size mu_f) "pdhg" 1
                           Y_size [a0] e = Ret e2
       ∧ kappa e2 = PNum k ∧ kappa_max e1 = PNum k
       ∧ sigma e1 = sigma e2
       ∧ prob e1 = prob e2 ∧ prob_subset e1 = prob_subset e2
       ∧ tau e1 = PNum (1 / ((1 * k + 1 - 2) * mu_g))%float
       ∧ tau e2 = PNum (1 / ((k - 1) * mu_g))%float)
  ∧ (∃ e1 e2,
       choose_parameters rho 1%float 1%float [1%float] "spdhg_uni10" 1 1
                         [1%float] unbound_env = Ret e1
       ∧ choose_parameters rho 1%float 1%float [1%float] "pdhg" 1 1
                           [1%float] unbound_env = Ret e2
       ∧ tau e1 = PNum 0x1.2fc4a55d685b5p+1%float
       ∧ tau e2 = PNum 0x1.2fc4a55d685b8p+1%float).
Proof.
  split.
  - intros mu_f mu_g a0 alg Y_size e Hp HY.
    rewrite (choose_parameters_spdhg _ _ _ _ _ _ _ _ _ Hp).
    destruct Y_size as [|Y']; [lia |].
    eexists _, _, _. split; [reflexivity |]. split; [reflexivity |].
    cbn [kappa kappa_max sigma prob prob_subset tau].
    split; [reflexivity |]. split; [reflexivity |].
    split; [| split; [reflexivity |]; split; [reflexivity |];
              split; reflexivity].
    cbn [py_max_from]. f_equal. generalize (S Y'). intros m.
    induction m as [|m IH]; [reflexivity |].
    cbn [replicate map]. by rewrite IH.
  - eexists _, _. repeat split; vm_compute; reflexivity.
Qed.

Lemma spdhg_with_one_subset_against_pdhg_witness :
  ∃ e1 e2 k,
    choose_parameters rho 0.5%float 0.5%float (replicate 2 0.5%float)
                      "spdhg_uni10" 1 2 [2%float] unbound_env = Ret e1
    ∧ choose_parameters rho 0.5%float 0.5%float (replicate 2 0.5%float)
                        "pdhg" 1 2 [2%float] unbound_env = Ret e2
    ∧ kappa e2 = PNum k ∧ kappa_max e1 = PNum k
    ∧ sigma e1 = sigma e2.
Proof.
  destruct (proj1 spdhg_with_one_subset_against_pdhg 0.5%float 0.5%float
              2%float "spdhg_uni10" 2 unbound_env eq_refl ltac:(lia))
    as (e1 & e2 & k & H1 & H2 & Hk & Hkm & Hs & _).
  exists e1, e2, k. by repeat split.
Defined.

(** ** The images that the callback saves *)

Lemma filter_none {A} (P : A → Prop) `{∀ x, Decision (P x)} (l : list A) :
  Forall (λ x, ¬ P x) l → filter P l = [].
Proof.
  induction 1 as [|x l Hx _ IH]; [reflexivity |].
  by rewrite filter_cons, decide_False.
Qed.

Lemma filter_agree {A} (P Q : A → Prop) `{∀ x, Decision (P x)}
    `{∀ x, Decision (Q x)} (l : list A) :
  Forall (λ x, P x ↔ Q x) l → filter P l = filter Q l.
Proof.
  induction 1 as [|x l Hx _ IH]; [reflexivity |].
  rewrite !filter_cons, IH.
  destruct (decide (P x)), (decide (Q x)); tauto.
Qed.

(** Filtering a range by membership in an increasing list of its numbers
    gives that list. *)
Lemma filter_seq_increasing (l : list nat) :
  ∀ a m, StronglySorted lt l → Forall (λ i, a ≤ i < a + m) l →
         filter (λ i, i ∈ l) (seq a m) = l.
Proof.
  induction l as [|x l IH]; intros a m Hs Hr.
  - apply filter_none, Forall_forall. intros i _. apply not_elem_of_nil.
  - apply StronglySorted_inv in Hs as [Hs Hx].
    apply Forall_cons in Hr as [Hxr Hr].
    replace m with ((x - a) + S (a + m - S x)) by lia.
    rewrite seq_app, filter_app. cbn [seq].
    replace (a + (x - a)) with x by lia.
    rewrite filter_cons, decide_True by left.
    rewrite filter_none.
    + cbn [app]. f_equal.
      rewrite (filter_agree _ (λ i, i ∈ l)).
      * apply IH; [exact Hs |].
        rewrite Forall_forall in Hx, Hr |- *. intros i Hi.
        specialize (Hx i Hi). specialize (Hr i Hi). lia.
      * apply Forall_forall. intros i Hi. apply elem_of_seq in Hi.
        rewrite elem_of_cons. split; [intros [-> | ?]; [lia | done] | auto].
    + apply Forall_forall. intros i Hi. apply elem_of_seq in Hi.
      rewrite elem_of_cons. intros [-> | Hin]; [lia |].
      rewrite Forall_forall in Hx. specialize (Hx i Hin). lia.
Qed.

(** The iterations of [iter_plot] that a run of [niter] iterations meets. *)
Lemma iter_plot_met (n : nat) :
  0 < n →
  filter (λ i, i ∈ iter_plot_of n) (seq 0 (niter_of n + 1))
  = map (λ e, e * n) [10; 20; 30; 40; 100].
Proof.
  intros Hn. unfold iter_plot_of, niter_of, nepoch.
  rewrite (filter_agree _
             (λ i, i ∈ map (λ e, e * n) [10; 20; 30; 40; 100])).
  - apply filter_seq_increasing.
    + cbn [map]. repeat (constructor; [| repeat constructor; lia]).
      constructor.
    + cbn [map]. repeat constructor; lia.
  - apply Forall_forall. intros i Hi. apply elem_of_seq in Hi.
    cbn [map]. rewrite !elem_of_cons, !elem_of_nil. lia.
Qed.

Section CallbackImages.
Context `{Collaborators}.

Lemma callback_calls_images (alg : string) (t : target)
    (iter_save iter_plot : list nat) (xs : list (X * Y)) :
  ∀ c,
    let c' := callback_calls alg t iter_save iter_plot xs c in
    cb_iter (ci_store c') = cb_iter (ci_store c) + length xs
    ∧ map fst (ci_images c')
      = map fst (ci_images c)
        ++ map (λ i, (alg, i))
               (filter (λ i, i ∈ iter_plot)
                       (seq (cb_iter (ci_store c)) (length xs)))
    ∧ (∀ a i x, (a, i, x) ∈ ci_images c' →
         (a, i, x) ∈ ci_images c
         ∨ ∃ y, cb_iter (ci_store c) ≤ i
                ∧ xs !! (i - cb_iter (ci_store c)) = Some (x, y)).
Proof.
  induction xs as [|[x y] xs IH]; intros c; cbv zeta.
  - cbn [callback_calls fold_left length seq]. rewrite filter_nil.
    cbn [map]. rewrite app_nil_r. split; [lia |]. split; [done | auto].
  - cbn [callback_calls fold_left].
    fold (callback_calls alg t iter_save iter_plot xs
            (callback_with_images alg t iter_save iter_plot x y c)).
    destruct (IH (callback_with_images alg t iter_save iter_plot x y c))
      as (Hit & Hnames & Hin).
    cbn [callback_with_images ci_store ci_images callback_call cb_iter]
      in Hit, Hnames, Hin.
    split; [cbn [length]; lia |]. split.
    + rewrite Hnames. cbn [length seq]. rewrite filter_cons.
      case_bool_decide as Hp.
      * rewrite decide_True by done.
        rewrite map_app. cbn [map fst app]. by rewrite <- app_assoc.
      * by rewrite decide_False by done.
    + intros a i x' Hi. destruct (Hin a i x' Hi) as [Hold | (y' & Hle & Hl)].
      * case_bool_decide as Hp; [| by left].
        apply elem_of_app in Hold as [Hold | Hnew]; [by left |].
        apply list_elem_of_singleton in Hnew as [= -> -> ->].
        right. exists y. split; [lia |]. by rewrite Nat.sub_diag.
      * right. exists y'. split; [lia |].
        replace (i - cb_iter (ci_store c))
          with (S (i - S (cb_iter (ci_store c)))) by lia.
        exact Hl.
Qed.

(** X19.
    Lines 216-218 and 232.  Over a run of a variant with [n] subsets the
    callback is called [niter + 1] times, once before the first iteration
    and once after each iteration.  It saves five images, those of the
    iterates after 10, 20, 30, 40 and 100 epochs, in this order, each under
    the name of the algorithm and the iteration number; the entry
    [300 * n] of [iter_plot] lies beyond the [nepoch = 100] epochs of the run
    and no image is saved for it. *)
Theorem images_of_a_run (alg : string) (t : target) (n : nat)
    (iter_save : list nat) (xs : list (X * Y)) :
  0 < n → length xs = niter_of n + 1 →
  let c := callback_calls alg t iter_save (iter_plot_of n) xs callback_new in
  cb_iter (ci_store c) = niter_of n + 1
  ∧ map fst (ci_images c) = map (λ e, (alg, e * n)) [10; 20; 30; 40; 100]
  ∧ (∀ a i x, (a, i, x) ∈ ci_images c → ∃ y, xs !! i = Some (x, y))
  ∧ (∀ x, (alg, 300 * n, x) ∉ ci_images c).
Proof.
  intros Hn Hlen c.
  destruct (callback_calls_images alg t iter_save (iter_plot_of n) xs
              callback_new) as (Hit & Hnames & Hin).
  fold c in Hit, Hnames, Hin.
  cbn [callback_new ci_store ci_images cb_iter map app] in Hit, Hnames, Hin.
  rewrite Hlen in Hit, Hnames. rewrite iter_plot_met in Hnames by exact Hn.
  rewrite map_map in Hnames.
  split; [exact Hit |]. split; [exact Hnames |]. split.
  - intros a i x Hi. destruct (Hin a i x Hi) as [Hnil | (y & _ & Hl)].
    + by apply elem_of_nil in Hnil.
    + exists y. by rewrite Nat.sub_0_r in Hl.
  - intros x Hx.
    assert ((alg, 300 * n) ∈ map fst (ci_images c)) as Hname.
    { apply list_elem_of_fmap. by exists (alg, 300 * n, x). }
    rewrite Hnames in Hname. cbn [map] in Hname.
    rewrite !elem_of_cons, elem_of_nil in Hname.
    destruct Hname as [[= ?]|[[= ?]|[[= ?]|[[= ?]|[[= ?]|[]]]]]]; lia.
Qed.

End CallbackImages.

(** ** The curves of the final figures *)

Lemma np_and_same (a b : list bool) :
  length a = length b → np_and a b = Ret (zip_with andb a b).
Proof. intros Hl. unfold np_and. by rewrite decide_True. Qed.

Lemma np_and_cases (a b : list bool) :
  match np_and a b with
  | Ret c => (length a = length b ∧ length c = length a)
             ∨ (length a = 1 ∧ length c = length b)
             ∨ (length b = 1 ∧ length c = length a)
  | Raise e => e = ValueError ∧ length a ≠ length b
  end.
Proof.
  unfold np_and. case_decide as Hl.
  - rewrite length_zip_with. left. lia.
  - destruct a as [|u [|u' a]], b as [|v [|v' b]];
      cbn [length] in *; try done;
      rewrite ?length_map; cbn [length]; auto.
Qed.

Lemma np_select_window (xlim ylim : float * float) (x y : list float) :
  length x = length y →
  let mask := map (in_window xlim ylim) (zip x y) in
  zip_with andb
    (zip_with andb
       (zip_with andb (map (λ v, PrimFloat.leb v xlim.2) x)
                      (map (λ v, PrimFloat.leb xlim.1 v) x))
       (map (λ v, PrimFloat.leb v ylim.2) y))
    (map (λ v, PrimFloat.leb ylim.1 v) y) = mask
  ∧ length mask = length x
  ∧ zip (np_select x mask) (np_select y mask)
    = filter (λ p, in_window xlim ylim p = true) (zip x y)
  ∧ length (np_select x mask) = length (np_select y mask).
Proof.
  revert y; induction x as [|a x IH]; intros [|b y] Hl; try done.
  injection Hl as Hl. destruct (IH y Hl) as (Hm & Hlen & Hz & Hls).
  cbv zeta in *. cbn [map zip zip_with length np_select].
  fold (zip x y). rewrite Hm, Hlen, filter_cons.
  split; [reflexivity |]. split; [reflexivity |].
  destruct (in_window xlim ylim (a, b)) eqn:Hw.
  - rewrite decide_True by done. cbn [zip_with length].
    fold (zip (np_select x (map (in_window xlim ylim) (zip x y)))
              (np_select y (map (in_window xlim ylim) (zip x y)))).
    by rewrite Hz, Hls.
  - by rewrite decide_False by done.
Qed.

Lemma in_window_spec (xlim ylim : float * float) (p : float * float) :
  in_window xlim ylim p = true →
  (PrimFloat.leb xlim.1 p.1 = true ∧ PrimFloat.leb p.1 xlim.2 = true
   ∧ PrimFloat.is_nan p.1 = false)
  ∧ (PrimFloat.leb ylim.1 p.2 = true ∧ PrimFloat.leb p.2 ylim.2 = true
     ∧ PrimFloat.is_nan p.2 = false).
Proof.
  unfold in_window. rewrite !andb_true_iff. intros [[[H1 H2] H3] H4].
  pose proof (leb_not_nan _ _ H1) as [? _].
  pose proof (leb_not_nan _ _ H3) as [? _]. auto.
Qed.

Lemma figure_curve_returns (xlim ylim : float * float) (x y : list float) :
  length x = length y →
  ∃ xs ys,
    figure_curve xlim ylim x y = Ret (xs, ys)
    ∧ length xs = length ys
    ∧ zip xs ys = filter (λ p, in_window xlim ylim p = true) (zip x y)
    ∧ Forall (λ v, PrimFloat.leb xlim.1 v = true
                   ∧ PrimFloat.leb v xlim.2 = true
                   ∧ PrimFloat.is_nan v = false) xs
    ∧ Forall (λ v, PrimFloat.leb ylim.1 v = true
                   ∧ PrimFloat.leb v ylim.2 = true
                   ∧ PrimFloat.is_nan v = false) ys.
Proof.
  intros Hl. destruct (np_select_window xlim ylim x y Hl)
    as (Hm & Hlen & Hz & Hls). cbv zeta in *.
  set (mask := map (in_window xlim ylim) (zip x y)) in *.
  exists (np_select x mask), (np_select y mask). split.
  { unfold figure_curve.
    rewrite np_and_same by (by rewrite !length_map).
    cbn [mbind py_bind].
    rewrite np_and_same
      by (by rewrite length_zip_with, !length_map, Nat.min_id).
    cbn [mbind py_bind].
    rewrite np_and_same
      by (rewrite !length_zip_with, !length_map; lia).
    cbn [mbind py_bind]. rewrite Hm. unfold np_mask.
    rewrite !decide_True by congruence. reflexivity. }
  split; [exact Hls |]. split; [exact Hz |].
  assert (Forall (λ p, in_window xlim ylim p = true)
            (zip (np_select x mask) (np_select y mask))) as Hall.
  { rewrite Hz. apply Forall_forall. intros p Hp.
    by apply list_elem_of_filter in Hp as [? _]. }
  split; apply Forall_forall; intros v Hv.
  + apply list_elem_of_lookup in Hv as [k Hk].
    destruct (lookup_lt_is_Some_2 (np_select y mask) k) as [v' Hk'].
    { rewrite <- Hls. by eapply lookup_lt_Some. }
    rewrite Forall_lookup in Hall.
    apply (in_window_spec xlim ylim (v, v')), (Hall k).
    apply lookup_zip_with_Some. by exists v, v'.
  + apply list_elem_of_lookup in Hv as [k Hk].
    destruct (lookup_lt_is_Some_2 (np_select x mask) k) as [v' Hk'].
    { rewrite Hls. by eapply lookup_lt_Some. }
    rewrite Forall_lookup in Hall.
    apply (in_window_spec xlim ylim (v', v)), (Hall k).
    apply lookup_zip_with_Some. by exists v', v.
Qed.

(** X20.
    Lines 452-454 and 471-473.  For arrays of the same length the masks
    select the points that lie in the window, in their order: every plotted
    abscissa is within [xlim] and every plotted ordinate within [ylim], and
    no NaN is plotted, a comparison with a NaN being false.  Arrays of
    different lengths make the statement raise: [ValueError] where the masks
    are combined, or [IndexError] where a mask of the wrong length indexes an
    array. *)
Theorem figure_curve_cuts_to_window (xlim ylim : float * float)
    (x y : list float) :
  (length x = length y →
   ∃ xs ys,
     figure_curve xlim ylim x y = Ret (xs, ys)
     ∧ length xs = length ys
     ∧ zip xs ys = filter (λ p, in_window xlim ylim p = true) (zip x y)
     ∧ Forall (λ v, PrimFloat.leb xlim.1 v = true
                    ∧ PrimFloat.leb v xlim.2 = true
                    ∧ PrimFloat.is_nan v = false) xs
     ∧ Forall (λ v, PrimFloat.leb ylim.1 v = true
                    ∧ PrimFloat.leb v ylim.2 = true
                    ∧ PrimFloat.is_nan v = false) ys)
  ∧ (length x ≠ length y →
     ∃ e, figure_curve xlim ylim x y = Raise e
          ∧ (e = ValueError ∨ e = IndexError)).
Proof.
  split; [apply figure_curve_returns |].
  - intros Hne. unfold figure_curve.
    pose proof (np_and_cases (map (λ v, PrimFloat.leb v xlim.2) x)
                  (map (λ v, PrimFloat.leb xlim.1 v) x)) as H1.
    destruct (np_and _ _) as [i1|e1];
      [| destruct H1 as [-> _]; exists ValueError;
         split; [reflexivity | by left]].
    rewrite !length_map in H1. cbn [mbind py_bind].
    pose proof (np_and_cases i1 (map (λ v, PrimFloat.leb v ylim.2) y)) as H2.
    destruct (np_and i1 _) as [i2|e2];
      [| destruct H2 as [-> _]; exists ValueError;
         split; [reflexivity | by left]].
    rewrite length_map in H2. cbn [mbind py_bind].
    pose proof (np_and_cases i2 (map (λ v, PrimFloat.leb ylim.1 v) y)) as H3.
    destruct (np_and i2 _) as [i|e3];
      [| destruct H3 as [-> _]; exists ValueError;
         split; [reflexivity | by left]].
    rewrite length_map in H3. cbn [mbind py_bind]. unfold np_mask.
    destruct (decide (length x = length i)) as [Hx|Hx],
             (decide (length y = length i)) as [Hy|Hy];
      first [lia | exists IndexError; split; [reflexivity | by right]].
Qed.

Lemma figure_curve_cuts_to_window_witness :
  ∃ xs ys,
    figure_curve xlim ylim_obj [0; 1; 2; 200]%float [1; nan; 0.25; 0.125]%float
    = Ret (xs, ys)
    ∧ length xs = length ys
    ∧ zip xs ys
      = filter (λ p, in_window xlim ylim_obj p = true)
               (zip [0; 1; 2; 200]%float [1; nan; 0.25; 0.125]%float)
    ∧ Forall (λ v, PrimFloat.leb xlim.1 v = true
                   ∧ PrimFloat.leb v xlim.2 = true
                   ∧ PrimFloat.is_nan v = false) xs
    ∧ Forall (λ v, PrimFloat.leb ylim_obj.1 v = true
                   ∧ PrimFloat.leb v ylim_obj.2 = true
                   ∧ PrimFloat.is_nan v = false) ys.
Proof.
  apply (proj1 (figure_curve_cuts_to_window xlim ylim_obj
                  [0; 1; 2; 200]%float [1; nan; 0.25; 0.125]%float)).
  reflexivity.
Defined.

(** ** The figures of the whole analysis *)

Lemma leb_zero_false (v : float) :
  PrimFloat.leb v 0 = false → PrimFloat.is_nan v = false →
  PrimFloat.ltb 0 v = true.
Proof.
  rewrite FloatAxioms.leb_spec, FloatAxioms.ltb_spec. intros Hle Hn.
  assert (Prim2SF v ≠ SpecFloat.S754_nan) as Hv.
  { intros Hv. apply is_nan_spec in Hv. congruence. }
  change (Prim2SF 0) with (SpecFloat.S754_zero false) in *.
  destruct (Prim2SF v) as [s|s| |s m e]; try done; by destruct s.
Qed.

(** X18.
    Lines 355-359, for the logarithmic axes of lines 381, 394, 454 and 473.
    What the clamping leaves in an array is a NaN or a strictly positive
    number, and it is a NaN exactly where the value was a NaN or [<= 0]. *)
Theorem clamp_leaves_positive_or_nan (v : float) :
  (clamp v = nan ∨ PrimFloat.ltb 0 (clamp v) = true)
  ∧ (PrimFloat.is_nan (clamp v) = true
     ↔ PrimFloat.is_nan v = true ∨ PrimFloat.leb v 0 = true)
  ∧ (PrimFloat.ltb 0 (clamp v) = true → clamp v = v).
Proof.
  unfold clamp. destruct (PrimFloat.leb v 0) eqn:Hle.
  - split; [by left |]. split; [by split; [right |] |]. by intros ?.
  - destruct (PrimFloat.is_nan v) eqn:Hn.
    + split; [left; by apply is_nan_eq |]. split; [| done].
      split; [by left | done].
    + split; [right; by apply leb_zero_false |]. split; [| done].
      split; [congruence | by intros [?|?]].
Qed.

Lemma dict_get_map_key {V} (g : string → V) (l : list string) (a : string) :
  a ∈ l → dict_get (map (λ a, (a, g a)) l) a = Ret (g a).
Proof.
  induction l as [|a0 l IH]; [by intros ?%elem_of_nil |].
  cbn [map dict_get]. destruct (String.eqb_spec a0 a) as [->|Hne]; [done |].
  rewrite elem_of_cons. intros [-> | Hin]; [done | by apply IH].
Qed.

Section FinalFigures.
Context `{Collaborators}.

Lemma final_figure_loop (curve : list float → list float
                                 → py (list float * list float))
    (meas : string) (loaded : dict bundle) (res : dict (dict (list float)))
    (P : list float * list float → Prop) (l : list string) :
  (∀ a, a ∈ l →
     ∃ b d arr c,
       dict_get loaded a = Ret b ∧ dict_get res a = Ret d
       ∧ dict_get d meas = Ret arr
       ∧ curve (epochs_save_of b) arr = Ret c ∧ P c) →
  ∀ acc,
    ∃ f,
      for_each l
        (λ a acc,
           b ← dict_get loaded a;
           d ← dict_get res a;
           arr ← dict_get d meas;
           c ← curve (epochs_save_of b) arr;
           Ret (acc ++ [(a, c)]))
        acc = Ret (acc ++ f)
      ∧ map fst f = l
      ∧ Forall (λ ac, P ac.2) f.
Proof.
  induction l as [|a l IH]; intros Hall acc.
  - exists []. by rewrite app_nil_r.
  - destruct (Hall a) as (b & d & arr & c & Hb & Hd & Harr & Hc & HP);
      [left |].
    destruct (IH (λ a' Ha', Hall a' (list_elem_of_further _ _ _ Ha'))
                 (acc ++ [(a, c)])) as (f & Hf & Hnames & HPs).
    exists ((a, c) :: f). cbn [for_each].
    rewrite Hb. cbn [mbind py_bind]. rewrite Hd. cbn [mbind py_bind].
    rewrite Harr. cbn [mbind py_bind]. rewrite Hc. cbn [mbind py_bind].
    rewrite Hf, <- app_assoc. split; [reflexivity |].
    cbn [map fst]. split; [by rewrite Hnames | by constructor].
Qed.

(** X22.
    Lines 332 and 444-475 after the post-processing.  For bundles as the
    passes save them the two figures are drawn without an exception: each
    has one curve per algorithm, in the order of [algs]; a curve has at most
    as many points as iterations were recorded; its points lie between 0 and
    100 epochs and between [1e-8] and the upper limit, 0.5 for the relative
    distance and 1 for the relative objective; and no NaN is plotted, so
    that the entries which the clamping replaced are left out. *)
Theorem final_figures_show_no_nan (obj_star : float) (loaded : dict bundle)
    (trace : string → list sample) (K : nat) :
  0 < K →
  traces_loaded loaded trace K →
  ratios_defined obj_star trace →
  let shown (top : float) (c : list float * list float) :=
    length c.1 = length c.2 ∧ length c.2 ≤ K
    ∧ Forall (λ v, PrimFloat.leb 0 v = true ∧ PrimFloat.leb v 100 = true
                   ∧ PrimFloat.is_nan v = false) c.1
    ∧ Forall (λ v, PrimFloat.leb 0x1.5798ee2308c3ap-27 v = true
                   ∧ PrimFloat.leb v top = true
                   ∧ PrimFloat.is_nan v = false) c.2 in
  ∃ res f1 f2,
    post_process obj_star loaded = Ret res
    ∧ final_figures loaded res = Ret (f1, f2)
    ∧ map fst f1 = algs ∧ map fst f2 = algs
    ∧ Forall (λ ac, shown 0.5%float ac.2) f1
    ∧ Forall (λ ac, shown 1%float ac.2) f2.
Proof.
  intros HK Hl Hdiv shown.
  pose proof (post_process_spec obj_star loaded trace K HK Hl Hdiv) as Hpost.
  set (res := map (λ a, (a, clamped (resorted obj_star (trace a)))) algs)
    in *.
  assert (∀ (top : float) (x y : list float),
            length x = K → length y = K →
            ∃ c, figure_curve xlim (0x1.5798ee2308c3ap-27%float, top) x y
                 = Ret c ∧ shown top c) as Hcurve.
  { intros top x y Hx Hy.
    destruct (figure_curve_returns xlim (0x1.5798ee2308c3ap-27%float, top)
                x y ltac:(congruence))
      as (xs & ys & Hret & Hlen & Hz & Hxs & Hys).
    exists (xs, ys). split; [exact Hret |]. unfold shown. cbn [fst snd].
    split; [exact Hlen |]. split; [| by split].
    assert (length (zip xs ys) ≤ length (zip x y)) as Hle
      by (rewrite Hz; apply length_filter).
    rewrite !length_zip_with in Hle. lia. }
  destruct (final_figure_loop dist_curve "dist" loaded res
              (shown 0.5%float) algs)
    with (acc := @nil (string * (list float * list float)))
    as (f1 & Hf1 & Hn1 & HP1).
  { intros a Ha. destruct (Hl a Ha) as (b & Hb & Hout & Hs & Hi).
    exists b, (clamped (resorted obj_star (trace a))).
    exists (map clamp (map s_dist (trace a))).
    destruct (trace a) as [|s0 rest] eqn:Htr; [cbn in Hs; lia |].
    destruct (Hcurve 0.5%float (epochs_save_of b)
                (map (λ v, PrimFloat.div v (clamp (s_dist s0)))
                     (map clamp (map s_dist (s0 :: rest)))))
      as (c & Hc & HPc).
    { unfold epochs_save_of. by rewrite length_map. }
    { by rewrite !length_map. }
    exists c. split; [exact Hb |].
    split; [unfold res; rewrite (dict_get_map_key _ _ _ Ha); by rewrite Htr |].
    split; [reflexivity |]. split; [| exact HPc].
    unfold dist_curve. cbn [map py_index lookup list_lookup mbind py_bind].
    exact Hc. }
  destruct (final_figure_loop obj_curve "obj_rel" loaded res
              (shown 1%float) algs)
    with (acc := @nil (string * (list float * list float)))
    as (f2 & Hf2 & Hn2 & HP2).
  { intros a Ha. destruct (Hl a Ha) as (b & Hb & Hout & Hs & Hi).
    exists b, (clamped (resorted obj_star (trace a))). eexists.
    destruct (Hcurve 1%float (epochs_save_of b)
                (map clamp
                   (map (λ s, PrimFloat.div
                                (PrimFloat.sub (s_obj s) obj_star)
                                (PrimFloat.sub (first_obj (trace a))
                                               obj_star))
                        (trace a))))
      as (c & Hc & HPc).
    { unfold epochs_save_of. by rewrite length_map. }
    { by rewrite !length_map. }
    exists c. split; [exact Hb |].
    split; [unfold res; by rewrite (dict_get_map_key _ _ _ Ha) |].
    split; [reflexivity |]. split; [exact Hc | exact HPc]. }
  exists res, f1, f2. split; [exact Hpost |].
  split; [| by repeat split].
  unfold final_figures, final_figure. rewrite Hf1. cbn [mbind py_bind app].
  by rewrite Hf2.
Qed.

(** X21.
    Line 451.  The distances of a curve are divided by the first one.  When
    the first distance has been clamped to NaN, the run having started at a
    distance that is not positive, every quotient is a NaN and the curve is
    empty; an empty array raises [IndexError]. *)
Theorem dist_curve_of_a_clamped_start (x arr : list float) :
  (arr = [] → dist_curve x arr = Raise IndexError)
  ∧ (length x = length arr → arr !! 0 = Some nan →
     dist_curve x arr = Ret ([], [])).
Proof.
  split; [by intros -> |].
  intros Hl H0. unfold dist_curve. rewrite (py_index_lookup _ _ _ H0).
  cbn [mbind py_bind].
  destruct (figure_curve_returns xlim ylim_dist x
              (map (λ v, PrimFloat.div v nan) arr))
    as (xs & ys & -> & Hlen & Hz & _ & Hys);
    [by rewrite length_map |].
  destruct ys as [|v ys].
  - destruct xs; [reflexivity | discriminate].
  - exfalso. apply Forall_cons in Hys as [(_ & _ & Hn) _].
    assert (v ∈ map (λ v, PrimFloat.div v nan) arr) as Hv.
    { assert ((match xs with [] => v | a :: _ => a end, v)
              ∈ zip xs (v :: ys)) as Hin
        by (destruct xs; [discriminate | left]).
      rewrite Hz in Hin. apply list_elem_of_filter in Hin as [_ Hin].
      apply list_elem_of_lookup in Hin as [k Hk].
      apply lookup_zip_with_Some in Hk as (a & b & [= _ ->] & _ & Hb).
      by eapply list_elem_of_lookup_2. }
    apply list_elem_of_fmap in Hv as (d & -> & _).
    by rewrite div_nan in Hn.
Qed.

End FinalFigures.

(** ** The figures of the loop over the measures *)

Lemma for_each_invariant {A S} (P : S → Prop) (l : list A)
    (body : A → S → py S) :
  (∀ a s s', a ∈ l → P s → body a s = Ret s' → P s') →
  ∀ s r, P s → for_each l body s = Ret r → P r.
Proof.
  induction l as [|a l IH]; intros Hstep s r Hs; cbn [for_each].
  - by intros [= <-].
  - intros Hr. apply py_bind_ret in Hr as (s' & Hb & Hr).
    apply (IH (λ a' s1 s2 Ha', Hstep a' s1 s2 (list_elem_of_further _ _ _ Ha'))
              s' r); [| exact Hr].
    apply (Hstep a s s'); [left | exact Hs | exact Hb].
Qed.

Section GenericFigures.
Context `{Collaborators}.

Lemma draw_curves_call (call : plot_call) (skip : nat) (meas : string)
    (loaded : dict bundle) (res : dict (dict (list float)))
    (cs : list curve) :
  draw_curves call skip meas loaded res = Ret cs →
  Forall (λ c, c_call c = call ∧ c_label c ∈ algs) cs.
Proof.
  unfold draw_curves.
  apply (for_each_invariant
           (Forall (λ c, c_call c = call ∧ c_label c ∈ algs)));
    [| constructor].
  intros a acc acc' Ha Hacc Hb.
  apply py_bind_ret in Hb as (b & _ & Hb).
  apply py_bind_ret in Hb as (d & _ & Hb).
  apply py_bind_ret in Hb as (y & _ & Hb).
  injection Hb as <-. apply Forall_app. split; [exact Hacc |].
  constructor; [by split | constructor].
Qed.

(** X23.
    Lines 367-408.  In the loop over the measures every curve is drawn with
    a logarithmic ordinate: [logy_plot] is [all_plots] itself, so that the
    test [meas in logy_plot] holds for every measure of the loop and the
    branches that call [plt.plot] and [plt.semilogx] with markers are never
    taken.  The figures with a linear abscissa are drawn by [semilogy], the
    others by [loglog], and every figure is named after [plotx] and a key of
    the first algorithm's measures. *)
Theorem generic_figures_are_logarithmic (loaded : dict bundle)
    (res : dict (dict (list float)))
    (figs : list (string * string * list curve)) :
  generic_figures loaded res = Ret figs →
  ∃ d0,
    dict_get res "pdhg" = Ret d0
    ∧ Forall (λ '(plotx, meas, cs),
                meas ∈ dict_keys d0
                ∧ (plotx = "linx" ∨ plotx = "logx")
                ∧ Forall (λ c, c_call c = (if String.eqb plotx "linx"
                                           then Semilogy else Loglog)
                               ∧ c_label c ∈ algs) cs) figs.
Proof.
  unfold generic_figures.
  change (py_index algs 0) with (Ret (A:=string) "pdhg").
  cbn [mbind py_bind]. intros Hr.
  apply py_bind_ret in Hr as (d0 & Hd0 & Hr). exists d0.
  split; [exact Hd0 |]. revert Hr.
  set (Q := λ '(plotx, meas, cs),
              meas ∈ dict_keys d0
              ∧ (plotx = "linx" ∨ plotx = "logx")
              ∧ Forall (λ c : curve,
                          c_call c = (if String.eqb plotx "linx"
                                      then Semilogy else Loglog)
                          ∧ c_label c ∈ algs) cs).
  apply (for_each_invariant (Forall Q)); [| constructor].
  intros plotx figs0 figs1 Hplotx Hfigs0.
  apply (for_each_invariant (Forall Q)); [| exact Hfigs0].
  intros meas acc acc' Hmeas Hacc Hb.
  apply py_bind_ret in Hb as (cs & Hcs & Hb). injection Hb as <-.
  apply Forall_app. split; [exact Hacc |].
  constructor; [| constructor]. unfold Q.
  split; [exact Hmeas |].
  unfold generic_curves in Hcs.
  rewrite bool_decide_eq_true_2 in Hcs by exact Hmeas.
  rewrite !elem_of_cons, elem_of_nil in Hplotx.
  destruct Hplotx as [-> | [-> | []]]; cbn [String.eqb Ascii.eqb Bool.eqb] in *;
    (split; [auto |]); by apply draw_curves_call in Hcs.
Qed.

End GenericFigures.

Section GenericFiguresDrawn.
Context `{Collaborators}.

Lemma draw_curves_loop (call : plot_call) (skip : nat) (meas : string)
    (loaded : dict bundle) (res : dict (dict (list float))) (n : nat)
    (l : list string) :
  (∀ a, a ∈ l →
     ∃ b d y,
       dict_get loaded a = Ret b ∧ dict_get res a = Ret d
       ∧ dict_get d meas = Ret y
       ∧ length (epochs_save_of b) = n ∧ length y = n) →
  ∀ acc,
    ∃ cs,
      for_each l
        (λ a acc,
           b ← dict_get loaded a;
           d ← dict_get res a;
           y ← dict_get d meas;
           Ret (acc ++ [{| c_call := call; c_label := a;
                           c_x := drop skip (epochs_save_of b);
                           c_y := drop skip y |}]))
        acc = Ret (acc ++ cs)
      ∧ map c_label cs = l
      ∧ Forall (λ c, length (c_x c) = n - skip ∧ length (c_y c) = n - skip)
               cs.
Proof.
  induction l as [|a l IH]; intros Hall acc.
  - exists []. by rewrite app_nil_r.
  - destruct (Hall a) as (b & d & y & Hb & Hd & Hy & Hlx & Hly); [left |].
    destruct (IH (λ a' Ha', Hall a' (list_elem_of_further _ _ _ Ha'))
                 (acc ++ [{| c_call := call; c_label := a;
                             c_x := drop skip (epochs_save_of b);
                             c_y := drop skip y |}]))
      as (cs & Hcs & Hnames & Hlens).
    eexists (_ :: cs). cbn [for_each].
    rewrite Hb. cbn [mbind py_bind]. rewrite Hd. cbn [mbind py_bind].
    rewrite Hy. cbn [mbind py_bind].
    rewrite Hcs, <- app_assoc. split; [reflexivity |].
    cbn [map c_label]. split; [by rewrite Hnames |].
    constructor; [| exact Hlens]. cbn [c_x c_y].
    by rewrite !length_drop, Hlx, Hly.
Qed.

Lemma figures_loop (plotx : string) (g : string → py (list curve))
    (P : list curve → Prop) (l : list string) :
  (∀ meas, meas ∈ l → ∃ cs, g meas = Ret cs ∧ P cs) →
  ∀ figs,
    ∃ f,
      for_each l
        (λ meas figs, cs ← g meas; Ret (figs ++ [(plotx, meas, cs)]))
        figs = Ret (figs ++ f)
      ∧ map fst f = map (pair plotx) l
      ∧ Forall (λ pc, P pc.2) f.
Proof.
  induction l as [|meas l IH]; intros Hall figs.
  - exists []. by rewrite app_nil_r.
  - destruct (Hall meas) as (cs & Hcs & HP); [left |].
    destruct (IH (λ m' Hm', Hall m' (list_elem_of_further _ _ _ Hm'))
                 (figs ++ [(plotx, meas, cs)])) as (f & Hf & Hnames & HPs).
    exists ((plotx, meas, cs) :: f). cbn [for_each].
    rewrite Hcs. cbn [mbind py_bind]. rewrite Hf, <- app_assoc.
    split; [reflexivity |]. cbn [map fst].
    split; [by rewrite Hnames | by constructor].
Qed.

Lemma clamped_resorted_get (obj_star : float) (samples : list sample)
    (meas : string) :
  meas ∈ ["obj"; "dist"; "dist_x"; "dist_y"; "obj_rel"] →
  ∃ arr, dict_get (clamped (resorted obj_star samples)) meas = Ret arr
         ∧ length arr = length samples.
Proof.
  rewrite !elem_of_cons, elem_of_nil.
  intros [->|[->|[->|[->|[->|[]]]]]]; eexists;
    (split; [reflexivity | by rewrite !length_map]).
Qed.

(** X24.
    Lines 361-408 after the post-processing.  For bundles as the passes save
    them the loop draws its ten figures without an exception, the five
    measures with a linear and then with a logarithmic abscissa; every figure
    has one curve per algorithm, in the order of [algs], with as many points
    as iterations were recorded, less the first one where the abscissa is
    logarithmic. *)
Theorem generic_figures_are_drawn (obj_star : float) (loaded : dict bundle)
    (trace : string → list sample) (K : nat) :
  0 < K →
  traces_loaded loaded trace K →
  ratios_defined obj_star trace →
  let measures := ["obj"; "dist"; "dist_x"; "dist_y"; "obj_rel"] in
  ∃ res figs,
    post_process obj_star loaded = Ret res
    ∧ generic_figures loaded res = Ret figs
    ∧ map fst figs = map (pair "linx") measures ++ map (pair "logx") measures
    ∧ Forall (λ '(plotx, meas, cs),
                map c_label cs = algs
                ∧ Forall (λ c, length (c_x c) = length (c_y c)
                               ∧ length (c_y c)
                                 = if String.eqb plotx "linx" then K
                                   else K - 1) cs) figs.
Proof.
  intros HK Hl Hdiv measures.
  pose proof (post_process_spec obj_star loaded trace K HK Hl Hdiv) as Hpost.
  set (res := map (λ a, (a, clamped (resorted obj_star (trace a)))) algs)
    in *.
  assert (∀ call skip meas,
            meas ∈ measures →
            ∃ cs, draw_curves call skip meas loaded res = Ret cs
                  ∧ map c_label cs = algs
                  ∧ Forall (λ c, length (c_x c) = K - skip
                                 ∧ length (c_y c) = K - skip) cs) as Hdraw.
  { intros call skip meas Hmeas.
    destruct (draw_curves_loop call skip meas loaded res K algs)
      with (acc := @nil curve) as (cs & Hcs & Hnames & Hlens).
    - intros a Ha. destruct (Hl a Ha) as (b & Hb & Hout & Hs & Hi).
      destruct (clamped_resorted_get obj_star (trace a) meas Hmeas)
        as (arr & Harr & Hlen).
      exists b, (clamped (resorted obj_star (trace a))), arr.
      split; [exact Hb |].
      split; [unfold res; by rewrite (dict_get_map_key _ _ _ Ha) |].
      split; [exact Harr |].
      split; [unfold epochs_save_of; by rewrite length_map | congruence].
    - exists cs. by split. }
  destruct (figures_loop "linx"
              (λ meas, generic_curves "linx" meas measures loaded res)
              (λ cs, map c_label cs = algs
                     ∧ Forall (λ c, length (c_x c) = K - 0
                                    ∧ length (c_y c) = K - 0) cs)
              measures) with (figs := @nil (string * string * list curve))
    as (f1 & Hf1 & Hn1 & HP1).
  { intros meas Hmeas. unfold generic_curves.
    rewrite bool_decide_eq_true_2 by exact Hmeas.
    cbn [String.eqb Ascii.eqb Bool.eqb]. by apply Hdraw. }
  destruct (figures_loop "logx"
              (λ meas, generic_curves "logx" meas measures loaded res)
              (λ cs, map c_label cs = algs
                     ∧ Forall (λ c, length (c_x c) = K - 1
                                    ∧ length (c_y c) = K - 1) cs)
              measures) with (figs := f1)
    as (f2 & Hf2 & Hn2 & HP2).
  { intros meas Hmeas. unfold generic_curves.
    rewrite bool_decide_eq_true_2 by exact Hmeas.
    cbn [String.eqb Ascii.eqb Bool.eqb]. by apply Hdraw. }
  exists res, (f1 ++ f2). split; [exact Hpost |]. split; [| split].
  - unfold generic_figures.
    change (py_index algs 0) with (Ret (A:=string) "pdhg").
    cbn [mbind py_bind].
    change (dict_get res "pdhg")
      with (Ret (clamped (resorted obj_star (trace "pdhg")))).
    cbn [mbind py_bind].
    change (dict_keys (clamped (resorted obj_star (trace "pdhg"))))
      with measures.
    cbn [for_each]. cbn [app] in Hf1. rewrite Hf1. cbn [mbind py_bind].
    rewrite Hf2. reflexivity.
  - by rewrite map_app, Hn1, Hn2.
  - apply Forall_app. split.
    + assert (map (pair "linx") measures = map fst f1) as Hn by done.
      clear -HP1 Hn. revert HP1 Hn. generalize measures.
      induction f1 as [|[[p m] cs] f1 IH]; intros ms HP Hn; [constructor |].
      destruct ms as [|m0 ms]; [discriminate |].
      injection Hn as <- _ Hn. apply Forall_cons in HP as [[Hlab Hc] HP].
      constructor; [| by apply (IH ms)].
      split; [exact Hlab |]. cbn [String.eqb Ascii.eqb Bool.eqb snd] in *.
      eapply Forall_impl; [exact Hc |]. intros c [? ?]. split; lia.
    + assert (map (pair "logx") measures = map fst f2) as Hn by done.
      clear -HP2 Hn. revert HP2 Hn. generalize measures.
      induction f2 as [|[[p m] cs] f2 IH]; intros ms HP Hn; [constructor |].
      destruct ms as [|m0 ms]; [discriminate |].
      injection Hn as <- _ Hn. apply Forall_cons in HP as [[Hlab Hc] HP].
      constructor; [| by apply (IH ms)].
      split; [exact Hlab |]. cbn [String.eqb Ascii.eqb Bool.eqb snd] in *.
      eapply Forall_impl; [exact Hc |]. intros c [? ?]. split; lia.
Qed.

End GenericFiguresDrawn.

(** ** The properties on the small instance *)

#[local] Existing Instance Toy.collaborators.

Lemma toy_caches_nonempty : caches_nonempty Toy.cached_files.
Proof.
  intros k normA. cbn [norms Toy.cached_files].
  rewrite lookup_singleton_Some. by intros [_ <-].
Qed.

Lemma toy_traces_loaded :
  traces_loaded Toy.loaded (λ _, Toy.samples) 3.
Proof.
  intros a Ha.
  destruct (algs_cases a Ha) as [->|[->|[->|[->| ->]]]];
    eexists; repeat split; reflexivity.
Qed.

Lemma toy_ratios_defined :
  ratios_defined 3%float (λ _, Toy.samples).
Proof. right. intros a _. vm_compute. reflexivity. Qed.

Lemma pesquet_step_sizes_witness :
  (∃ w',
     configure_run 1%float "pesquet_uni10"
                   Toy.cached
     = Ret ((10, sub2ind_of Y_size 10), w')
     ∧ file_normA w' = Some 1
     ∧ tau (vars w') = PNum (rho / 2)%float
     ∧ theta (vars w') = PNone)
  ∧ (∃ log w',
       run_alg 1%float "pdhg" Toy.cached
       = Ret (log, w')
       ∧ norms (fs w') !! 1 = Some [2%float]).
Proof.
  destruct (pesquet_step_sizes 1%float)
    as (Hcfg & Hpdhg & Hkeep).
  split.
  - destruct (Hcfg "pesquet_uni10" 10 Toy.cached 2%float []
                (or_introl (conj eq_refl eq_refl)) eq_refl)
      as (w' & Hrun & _ & Hfile & _ & Htau & _ & _ & Hth).
    exists w'. by repeat split.
  - destruct (Hpdhg Toy.cached Toy.tg eq_refl toy_caches_nonempty
                ltac:(discriminate))
      as (log & w' & normA & Hrun & _ & _).
    exists log, w'. split; [exact Hrun |].
    exact (Hkeep "pdhg" Toy.cached w' log 1 [2%float] Hrun eq_refl).
Defined.

Lemma pesquet_bundle_theta_is_none_witness :
  ∃ log w' b,
    run_alg 1%float "pesquet_uni10" Toy.cached_later
    = Ret (log, w')
    ∧ outputs (fs w') !! "pesquet_uni10" = Some b
    ∧ theta (vars Toy.cached_later) = PNum 0.25%float
    ∧ b_theta b = PNone.
Proof.
  destruct (pesquet_bundle_theta_is_none 1%float
              "pesquet_uni10" 10 Toy.cached_later Toy.tg eq_refl eq_refl
              toy_caches_nonempty ltac:(discriminate))
    as (log & w' & b & Hrun & Hb & _ & _ & _ & Hpes & _).
  exists log, w', b. split; [exact Hrun |]. split; [exact Hb |].
  split; [reflexivity |]. exact (proj1 (Hpes eq_refl)).
Defined.

Lemma selection_is_reproducible_witness :
  match run_alg 1%float "spdhg_uni10" Toy.cached,
        run_alg 1%float "spdhg_uni10" Toy.cached_later with
  | Ret (log1, w1'), Ret (log2, w2') =>
      log1 = log2 ∧ fs w1' = fs w2' ∧ gen w1' = gen w2'
      ∧ same_parameters (vars w1') (vars w2')
  | Raise x1, Raise x2 => x1 = x2
  | _, _ => False
  end
  ∧ ∃ p log w',
      run_alg 1%float "spdhg_uni10" Toy.cached = Ret (log, w')
      ∧ prob_subset (vars w') = PList p
      ∧ log = draws 10 p (niter_of 10)
                (norms_with_cache (norm_key "spdhg_uni10" 10)
                   (sub2ind_of Y_size 10) (fs Toy.cached)
                   (np_random_seed 1807%Z)).1.2.
Proof.
  destruct (selection_is_reproducible 1%float "spdhg_uni10" Toy.cached
              Toy.cached_later eq_refl eq_refl) as [Hsame Hret].
  split; [exact Hsame |].
  destruct (Hret 10 Toy.tg eq_refl eq_refl toy_caches_nonempty
              ltac:(discriminate))
    as (p & log & w' & Hrun & Hp & Hlog & _).
  exists p, log, w'. split; [exact Hrun |]. split; [exact Hp | exact Hlog].
Defined.

Lemma target_is_computed_once_witness :
  (∃ w', target_stage 1%float Toy.fresh
         = Ret (tt, w')
         ∧ target_file (fs w') = saddle w'
         ∧ is_Some (saddle w'))
  ∧ target_stage 1%float Toy.cached
    = Ret (tt, Toy.cached)
  ∧ (∃ logs w',
       run_algs 1%float ["pdhg"] Toy.cached
       = Ret (logs, w')
       ∧ saddle w' = Some Toy.tg
       ∧ target_file (fs w') = Some Toy.tg)
  ∧ (∃ res, analyse Toy.finished
            = Ret (res, Toy.finished)).
Proof.
  destruct (target_is_computed_once 1%float)
    as (Hnew & Hold & Hruns & Hana).
  split; [| split; [| split]].
  - destruct (Hnew Toy.fresh eq_refl)
      as (normA & g & k & s & t & th & x & y & w' & _ & _ & _ & _
          & Hrun & Hsd & Htf & _).
    { intros k normA. cbn. by rewrite lookup_empty. }
    exists w'. split; [exact Hrun |]. split; [exact Htf |].
    rewrite Hsd. by eexists.
  - exact (Hold Toy.cached Toy.tg eq_refl).
  - destruct (run_alg_returns 1%float "pdhg" 1 Toy.cached Toy.tg eq_refl
                eq_refl toy_caches_nonempty ltac:(discriminate))
      as (e & p & step & s & c & g' & _ & _ & _ & _ & Hrun).
    set (log := draws 1 p (niter_of 1) _) in Hrun.
    set (w' := World _ _ _ _ _) in Hrun.
    assert (run_algs 1%float ["pdhg"] Toy.cached = Ret ([log], w'))
      as Hruns'.
    { cbn [run_algs]. unfold mbind at 1, prog_bind. rewrite Hrun.
      reflexivity. }
    exists [log], w'. split; [exact Hruns' |].
    destruct (Hruns ["pdhg"] Toy.cached w' [log] Hruns') as [Hs Ht].
    split; [exact Hs | exact Ht].
  - assert (∃ res w', analyse Toy.finished
                      = Ret (res, w'))
      as (res & w' & Hrun) by (eexists _, _; reflexivity).
    exists res. rewrite Hrun. by rewrite (Hana Toy.finished w' res Hrun).
Defined.

Lemma relative_objective_error_witness :
  (∃ res,
     post_process 3%float Toy.loaded = Ret res
     ∧ ∃ d,
         dict_get res "spdhg_uni50" = Ret d
         ∧ dict_get d "obj_rel" = Ret [1%float; 0.5%float; nan])
  ∧ post_process 5%float Toy.loaded = Raise ZeroDivisionError.
Proof.
  destruct (relative_objective_error 3%float
              Toy.loaded (λ _, Toy.samples) 3 ltac:(lia)
              toy_traces_loaded) as [Hret _].
  destruct (relative_objective_error 5%float
              Toy.loaded (λ _, Toy.samples) 3 ltac:(lia)
              toy_traces_loaded) as [_ Hraise].
  split.
  - destruct (Hret toy_ratios_defined) as (res & Hres & Hall).
    exists res. split; [exact Hres |].
    destruct (Hall "spdhg_uni50" ltac:(by repeat constructor))
      as (d & rel & Hd & Hrel & Hlen & Hk).
    exists d. split; [exact Hd |]. rewrite Hrel. f_equal.
    destruct rel as [|r0 [|r1 [|r2 [|? ?]]]]; try discriminate Hlen.
    pose proof (Hk 0 _ eq_refl) as H0.
    pose proof (Hk 1 _ eq_refl) as H1.
    pose proof (Hk 2 _ eq_refl) as H2.
    cbv zeta in H0, H1, H2.
    injection H0 as ->. injection H1 as ->. injection H2 as ->.
    vm_compute. reflexivity.
  - apply Hraise; [reflexivity |].
    exists "pdhg". split; [by repeat constructor | reflexivity].
Defined.

(** C6, as stated, fails: the post-processing can abort.  On the small
    instance, whose functional values are Python floats, the first recorded
    objective is 5; with [obj_opt = 5] the division of line 352 raises
    [ZeroDivisionError] and no relative error is produced. *)
Lemma relative_error_can_abort :
  ¬ (∀ (C : Collaborators) (obj_star : float) (loaded : dict bundle)
       (trace : string → list sample) (K : nat),
       0 < K → @traces_loaded C loaded trace K →
       ∃ res, @post_process C obj_star loaded = Ret res).
Proof.
  intros Hc.
  destruct (Hc Toy.collaborators 5%float Toy.loaded (λ _, Toy.samples) 3
              ltac:(lia) toy_traces_loaded) as [res Hres].
  assert (match @post_process Toy.collaborators 5%float Toy.loaded with
          | Ret _ => False
          | Raise _ => True
          end) as Hx by (vm_compute; exact I).
  rewrite Hres in Hx. exact Hx.
Qed.

Lemma clamping_covers_every_measure_witness :
  ∃ res,
    post_process 3%float Toy.loaded = Ret res
    ∧ ∃ d,
        dict_get res "pdhg" = Ret d
        ∧ dict_get d "dist_x" = Ret [nan; nan; 0.125%float]
        ∧ dict_get d "obj" = Ret [5%float; 4%float; 2.5%float].
Proof.
  destruct (clamping_covers_every_measure 3%float
              Toy.loaded (λ _, Toy.samples) 3 ltac:(lia)
              toy_traces_loaded toy_ratios_defined)
    as (res & Hres & Hall).
  exists res. split; [exact Hres |].
  destruct (Hall "pdhg" ltac:(by repeat constructor))
    as (d & Hd & _ & Hobj & _ & Hdx & _).
  exists d. split; [exact Hd |]. split.
  - rewrite Hdx. vm_compute. reflexivity.
  - rewrite Hobj. vm_compute. reflexivity.
Defined.

(** The whole script on the small instance, from an empty folder. *)
Example toy_experiment_returns :
  ∃ logs trace t w',
    experiment Toy.fresh
    = Ret ((logs,
            map (λ a, (a, clamped (resorted (obj_opt t) (trace a)))) algs),
           w')
    ∧ saddle w' = Some t
    ∧ length logs = 5
    ∧ ∀ a, a ∈ algs →
        length (trace a) = nepoch + 1
        ∧ first_obj (trace a) = obj_fun X_zero.
Proof.
  apply experiment_returns.
  - discriminate.
  - intros k normA. cbn. by rewrite lookup_empty.
  - intros mu_f t w0 Hts Ht. right.
    assert (match target_stage mu_f Toy.fresh with
            | Ret (_, w) => saddle w
            | Raise _ => None
            end = Some Toy.tg) as Hs by reflexivity.
    rewrite Hts, Ht in Hs. injection Hs as ->. reflexivity.
Defined.

(** When a Pesquet-Repetti variant is configured without the 1-subset norm
    file, lines 255-259 estimate the norms of the [n] subsets and save them
    under the name of the 1-subset file; [normA[0]] is then the norm of the
    first subset.  The script does not get there, the pass of the
    deterministic variant coming first. *)
Example pesquet_without_norm_file :
  match configure_run 1%float "pesquet_uni10"
          {| fs := Toy.empty_files; gen := 0; vars := unbound_env;
             file_normA := None; saddle := Some Toy.tg |} with
  | Ret ((n, _), w') =>
      n = 10
      ∧ file_normA w' = Some 1
      ∧ (length <$> norms (fs w') !! 1) = Some 10
      ∧ norms (fs w') !! 10 = None
  | Raise _ => False
  end.
Proof. vm_compute. by repeat split. Qed.

(** ** The further properties on the small instance *)

Lemma dispatch_is_consistent_witness :
  select_norm_file "pesquet_uni10" 10 Toy.cached
  = Ret (tt, put_file_normA 1 Toy.cached)
  ∧ select_norm_file "sgd" 10 Toy.cached = Ret (tt, Toy.cached)
  ∧ choose_parameters rho 1%float mu_g mu_i "pdhg_acc" 1 Y_size [2%float]
                      unbound_env = Raise AssertionError
  ∧ ∃ step, select_solver "pdhg_acc" unbound_env = Ret step.
Proof.
  split; [| split].
  - apply (proj1 (dispatch_is_consistent 1%float "pesquet_uni10" 10
                    [2%float] unbound_env Toy.cached)).
    discriminate.
  - apply (proj1 (proj2 (dispatch_is_consistent 1%float "sgd" 10
                           [2%float] unbound_env Toy.cached))).
    reflexivity.
  - destruct (proj2 (proj2 (dispatch_is_consistent 1%float "pdhg_acc" 1
                              [2%float] unbound_env Toy.cached))
                eq_refl ltac:(discriminate)) as [Hc Hs].
    split; [exact Hc | exact (Hs unbound_env)].
Defined.

Lemma selections_name_subsets_witness :
  ∃ log w',
    run_alg 1%float "pdhg" Toy.cached = Ret (log, w')
    ∧ length log = nepoch * 1
    ∧ log = replicate nepoch 0.
Proof.
  destruct (selections_name_subsets 1%float "pdhg" 1 Toy.cached Toy.tg
              eq_refl eq_refl toy_caches_nonempty ltac:(discriminate))
    as (log & w' & Hrun & Hlen & _ & Hzero).
  exists log, w'. split; [exact Hrun |]. split; [exact Hlen |].
  exact (Hzero eq_refl).
Defined.

Lemma pass_saves_its_bundle_witness :
  ∃ log w' b,
    run_alg 1%float "spdhg_uni10" Toy.cached = Ret (log, w')
    ∧ outputs (fs w') = <[ "spdhg_uni10" := b ]> (outputs (fs Toy.cached))
    ∧ b_niter b = nepoch * 10
    ∧ length (b_out b) = nepoch + 1
    ∧ b_out b !! 0 = Some (sample_dict (measure Toy.tg X_zero Y_zero))
    ∧ ∃ y, last (b_out b) = Some (sample_dict (measure Toy.tg (b_x b) y)).
Proof.
  destruct (pass_saves_its_bundle 1%float "spdhg_uni10" 10 Toy.cached Toy.tg
              eq_refl eq_refl toy_caches_nonempty ltac:(discriminate))
    as (log & w' & b & Hrun & Ho & _ & _ & Hn & _ & Hlen & H0 & Hlast).
  exists log, w', b. split; [exact Hrun |]. split; [exact Ho |].
  split; [exact Hn |]. split; [exact Hlen |]. split; [exact H0 | exact Hlast].
Defined.

Lemma pass_norm_file_witness :
  ∃ log w' normA,
    run_alg 1%float "pesquet_uni10"
            {| fs := Toy.empty_files; gen := 0; vars := unbound_env;
               file_normA := None; saddle := Some Toy.tg |}
    = Ret (log, w')
    ∧ file_normA w' = Some 1
    ∧ norms (fs w') = <[ 1 := normA ]> ∅
    ∧ length normA = 10.
Proof.
  destruct (pass_norm_file 1%float "pesquet_uni10" 10
              {| fs := Toy.empty_files; gen := 0; vars := unbound_env;
                 file_normA := None; saddle := Some Toy.tg |}
              Toy.tg eq_refl eq_refl)
    as (log & w' & Hrun & Hfile & _ & Hnew).
  { intros k normA. cbn. by rewrite lookup_empty. }
  { discriminate. }
  destruct (Hnew eq_refl) as (normA & Hn & _ & Hlen).
  exists log, w', normA. split; [exact Hrun |]. split; [exact Hfile |].
  split; [exact Hn | exact Hlen].
Defined.

Lemma configuration_is_idempotent_witness :
  ∃ r w1,
    configure_run 1%float "spdhg_uni10" Toy.cached = Ret (r, w1)
    ∧ configure_run 1%float "spdhg_uni10" w1
      = Ret (r, put_gen (np_random_seed seed_value) w1).
Proof.
  assert (match configure_run 1%float "spdhg_uni10" Toy.cached with
          | Ret _ => True
          | Raise _ => False
          end) as Hret by (vm_compute; exact I).
  destruct (configure_run 1%float "spdhg_uni10" Toy.cached)
    as [[r w1]|x] eqn:Hc; [| destruct Hret].
  exists r, w1. split; [reflexivity |].
  exact (configuration_is_idempotent 1%float "spdhg_uni10" Toy.cached
           w1 r Hc).
Defined.

Lemma target_stage_is_idempotent_witness :
  (∃ w1, target_stage 1%float Toy.fresh = Ret (tt, w1)
         ∧ target_stage 1%float w1 = Ret (tt, w1))
  ∧ target_stage 1%float
      {| fs := {| norms := {[ 1 := [] ]}; target_file := None;
                  outputs := ∅ |};
         gen := 0; vars := unbound_env; file_normA := None;
         saddle := None |}
    = Raise IndexError.
Proof.
  split.
  - assert (match target_stage 1%float Toy.fresh with
            | Ret _ => True
            | Raise _ => False
            end) as Hret by (vm_compute; exact I).
    destruct (target_stage 1%float Toy.fresh) as [[[] w1]|x] eqn:Hc;
      [| destruct Hret].
    exists w1. split; [reflexivity |].
    exact (proj1 (target_stage_is_idempotent 1%float Toy.fresh) w1 Hc).
  - apply (proj2 (target_stage_is_idempotent 1%float _)).
    by repeat split.
Defined.

Lemma pass_failures_witness :
  run_alg 1%float "sgd" Toy.cached = Raise KeyError
  ∧ run_alg 1%float "spdhg_uni10"
            {| fs := {| norms := {[ 10 := [] ]}; target_file := Some Toy.tg;
                        outputs := ∅ |};
               gen := 0; vars := unbound_env; file_normA := None;
               saddle := Some Toy.tg |}
    = Raise ValueError
  ∧ run_alg 1%float "pdhg"
            {| fs := Toy.cached_files; gen := 0; vars := unbound_env;
               file_normA := None; saddle := None |}
    = Raise NameError.
Proof.
  split; [| split].
  - apply (proj1 (pass_failures 1%float "sgd" Toy.cached)).
    unfold algs. rewrite !not_elem_of_cons.
    repeat split; (discriminate || apply not_elem_of_nil).
  - apply (proj1 (proj2 (pass_failures 1%float "spdhg_uni10" _))
             10 eq_refl).
    reflexivity.
  - apply (proj2 (proj2 (proj2 (pass_failures 1%float "pdhg" _))) 1 eq_refl);
      [exact toy_caches_nonempty | discriminate | reflexivity].
Defined.

Lemma clamp_array_any_bound_witness :
  clamp_array 2 [(-1)%float; 2%float; (-3)%float]
  = Ret [nan; 2%float; (-3)%float]
  ∧ clamp_array 4 [(-1)%float; 2%float; (-3)%float] = Raise IndexError.
Proof.
  destruct (clamp_array_any_bound 2 [(-1)%float; 2%float; (-3)%float])
    as (Hle & _ & _).
  destruct (clamp_array_any_bound 4 [(-1)%float; 2%float; (-3)%float])
    as (_ & Hgt & _).
  split.
  - rewrite Hle by (cbn; lia). reflexivity.
  - apply Hgt. cbn. lia.
Defined.

Lemma clamping_bound_is_the_last_count_witness :
  ∃ K res b,
    resort_all 3%float Toy.loaded = Ret (K, res)
    ∧ dict_get Toy.loaded "pesquet_uni50" = Ret b
    ∧ K = length (b_iter_save b).
Proof.
  assert (match resort_all 3%float Toy.loaded with
          | Ret _ => True
          | Raise _ => False
          end) as Hret by (vm_compute; exact I).
  destruct (resort_all 3%float Toy.loaded) as [[K res]|x] eqn:Hr;
    [| destruct Hret].
  destruct (clamping_bound_is_the_last_count 3%float Toy.loaded K res Hr)
    as (b & Hb & HK & _).
  exists K, res, b. split; [reflexivity |]. split; [exact Hb | exact HK].
Defined.

Lemma resort_failures_witness :
  resort_alg 3%float
    {| b_iter_save := [0; 1; 2]; b_niter := 2; b_x := 1%float;
       b_out := map sample_dict (take 2 Toy.samples); b_nsub := 1;
       b_theta := PNone |}
  = Raise IndexError
  ∧ resort_alg 5%float (Toy.bundle_of 1) = Raise ZeroDivisionError.
Proof.
  split.
  - match goal with
    | |- resort_alg _ ?b = _ =>
        apply (proj1 (proj2 (resort_failures 3%float b (take 2 Toy.samples)
                               eq_refl)))
    end; [discriminate | cbn; lia].
  - apply (proj2 (proj2 (resort_failures 5%float (Toy.bundle_of 1)
                           Toy.samples eq_refl)));
      [discriminate | reflexivity | reflexivity | reflexivity].
Defined.

Lemma images_of_a_run_witness :
  let c := callback_calls "pdhg" Toy.tg [] (iter_plot_of 1)
             (replicate 101 (X_zero, Y_zero)) callback_new in
  cb_iter (ci_store c) = niter_of 1 + 1
  ∧ map fst (ci_images c)
    = [("pdhg", 10); ("pdhg", 20); ("pdhg", 30); ("pdhg", 40); ("pdhg", 100)].
Proof.
  destruct (images_of_a_run "pdhg" Toy.tg 1 []
              (replicate 101 (X_zero, Y_zero)) ltac:(lia) eq_refl)
    as (Hit & Hnames & _).
  split; [exact Hit | exact Hnames].
Defined.

Lemma final_figures_show_no_nan_witness :
  ∃ res f1 f2,
    post_process 3%float Toy.loaded = Ret res
    ∧ final_figures Toy.loaded res = Ret (f1, f2)
    ∧ map fst f1 = algs ∧ map fst f2 = algs.
Proof.
  destruct (final_figures_show_no_nan 3%float Toy.loaded (λ _, Toy.samples)
              3 ltac:(lia))
    as (res & f1 & f2 & Hpost & Hfig & Hn1 & Hn2 & _).
  - intros a Ha.
    destruct (algs_cases a Ha) as [->|[->|[->|[->| ->]]]];
      eexists; repeat split; reflexivity.
  - right. intros a _. vm_compute. reflexivity.
  - exists res, f1, f2. split; [exact Hpost |]. split; [exact Hfig |].
    split; [exact Hn1 | exact Hn2].
Defined.

Lemma dist_curve_of_a_clamped_start_witness :
  dist_curve [0%float; 1%float] [nan; 0.25%float] = Ret ([], []).
Proof.
  apply (proj2 (dist_curve_of_a_clamped_start [0%float; 1%float]
                  [nan; 0.25%float])); reflexivity.
Defined.

Lemma generic_figures_are_logarithmic_witness :
  ∃ res figs d0,
    post_process 3%float Toy.loaded = Ret res
    ∧ generic_figures Toy.loaded res = Ret figs
    ∧ dict_get res "pdhg" = Ret d0
    ∧ Forall (λ '(plotx, meas, cs),
                meas ∈ dict_keys d0
                ∧ (plotx = "linx" ∨ plotx = "logx")
                ∧ Forall (λ c, c_call c = (if String.eqb plotx "linx"
                                           then Semilogy else Loglog)
                               ∧ c_label c ∈ algs) cs) figs.
Proof.
  assert (match post_process 3%float Toy.loaded with
          | Ret res => match generic_figures Toy.loaded res with
                       | Ret _ => True
                       | Raise _ => False
                       end
          | Raise _ => False
          end) as Hret by (vm_compute; exact I).
  destruct (post_process 3%float Toy.loaded) as [res|x]; [| destruct Hret].
  destruct (generic_figures Toy.loaded res) as [figs|x] eqn:Hg;
    [| destruct Hret].
  destruct (generic_figures_are_logarithmic Toy.loaded res figs Hg)
    as (d0 & Hd0 & Hall).
  exists res, figs, d0. split; [reflexivity |]. split; [exact Hg |].
  split; [exact Hd0 | exact Hall].
Defined.

Lemma generic_figures_are_drawn_witness :
  ∃ res figs,
    post_process 3%float Toy.loaded = Ret res
    ∧ generic_figures Toy.loaded res = Ret figs
    ∧ length figs = 10.
Proof.
  destruct (generic_figures_are_drawn 3%float Toy.loaded (λ _, Toy.samples)
              3 ltac:(lia))
    as (res & figs & Hpost & Hfig & Hnames & _).
  - intros a Ha.
    destruct (algs_cases a Ha) as [->|[->|[->|[->| ->]]]];
      eexists; repeat split; reflexivity.
  - right. intros a _. vm_compute. reflexivity.
  - exists res, figs. split; [exact Hpost |]. split; [exact Hfig |].
    by rewrite <- (length_map fst), Hnames.
Defined.
